(** * BenchBot add-on manager: a shallow embedding of [addons/manager.py]

    The manager installs, upgrades and removes add-ons (git repositories
    checked out at [<install root>/<owner>/<repo>]) and records what is
    installed in a JSON state file.

    The embedding follows the Python source function by function:
    - strings are [string]; [str.split], [str.strip], [str.join],
      [str.startswith] and the one regular expression of the module are
      written out as functions on strings;
    - the state dictionary is an insertion-ordered association list, each
      record a dictionary with the four optional keys the code uses;
    - the install root is a two-level finite map, owner -> repo -> directory;
      of a directory the model keeps what the code looks at: the [.git]
      metadata, the [.remote] and [.dependencies] files and the names of the
      other entries;
    - [git], [wget], [unzip] and [rm] are modelled by their effect on that
      directory, against a hosting service and an archive host that are
      Section variables;
    - exceptions and the mutation of the file system are threaded by a state
      and exception monad; a raised exception keeps the world as it was left;
    - the interpreter's recursion limit is the [fuel] of [install_addon].
    Console output is not modelled. Text files are taken to be UTF-8, and
    strings are kept in that encoding. The install root is taken to hold
    owner directories and nothing else, these to hold add-on directories
    and nothing else, and the state file to lie outside of them. A
    repository of the hosting service has at least one commit. The owner
    and repository segments of a name stand for two nested directories and
    a remote target for an entry of the add-on directory, which is the file
    system's reading of them when they are directory names ([dir_name],
    [entry_name]); the properties that depend on this reading assume it of
    the names they speak of. *)

From Stdlib Require Import Ascii String List Bool Arith Lia.
From stdpp Require Import gmap strings list fin_maps.

Import ListNotations.
Local Open Scope string_scope.
Local Open Scope list_scope.

(** ** Python string operations *)

Module Str.

(** [s.split(sep)] for a one-character separator. *)
Fixpoint split (sep : ascii) (s : string) : list string :=
  match s with
  | EmptyString => [EmptyString]
  | String c s' =>
      if Ascii.eqb c sep then EmptyString :: split sep s'
      else match split sep s' with
           | [] => [String c EmptyString]
           | h :: t => String c h :: t
           end
  end.

(** [sep.join(l)]. *)
Fixpoint join (sep : string) (l : list string) : string :=
  match l with
  | [] => EmptyString
  | [x] => x
  | x :: xs => x +:+ sep +:+ join sep xs
  end.

(** [s.startswith(p)]. *)
Fixpoint startswith (p s : string) : bool :=
  match p, s with
  | EmptyString, _ => true
  | String a p', String b s' => Ascii.eqb a b && startswith p' s'
  | String _ _, EmptyString => false
  end.

(** Number of occurrences of a character. *)
Fixpoint count (c : ascii) (s : string) : nat :=
  match s with
  | EmptyString => 0
  | String a s' => (if Ascii.eqb a c then 1 else 0) + count c s'
  end.

(** The one-byte characters [str.isspace] accepts. *)
Definition isspace (c : ascii) : bool :=
  let n := nat_of_ascii c in
  (Nat.leb 9 n && Nat.leb n 13) || (Nat.leb 28 n && Nat.leb n 32).

(** The other characters [str.isspace] accepts, in the UTF-8 encoding the
    text is kept in: U+0085 and U+00A0 (two bytes), U+1680, U+2000 to
    U+200A, U+2028, U+2029, U+202F, U+205F and U+3000 (three bytes). *)
Definition isspace2 (a b : ascii) : bool :=
  Nat.eqb (nat_of_ascii a) 194
  && (Nat.eqb (nat_of_ascii b) 133 || Nat.eqb (nat_of_ascii b) 160).

Definition isspace3 (a b c : ascii) : bool :=
  let x := nat_of_ascii a in
  let y := nat_of_ascii b in
  let z := nat_of_ascii c in
  (Nat.eqb x 225 && Nat.eqb y 154 && Nat.eqb z 128)
  || (Nat.eqb x 226 && Nat.eqb y 128
      && ((Nat.leb 128 z && Nat.leb z 138)
          || Nat.eqb z 168 || Nat.eqb z 169 || Nat.eqb z 175))
  || (Nat.eqb x 226 && Nat.eqb y 129 && Nat.eqb z 159)
  || (Nat.eqb x 227 && Nat.eqb y 128 && Nat.eqb z 128).

(** What follows the white-space character a string starts with. *)
Definition space_prefix (s : string) : option string :=
  match s with
  | EmptyString => None
  | String a s1 =>
      if isspace a then Some s1
      else match s1 with
           | EmptyString => None
           | String b s2 =>
               if isspace2 a b then Some s2
               else match s2 with
                    | EmptyString => None
                    | String c s3 => if isspace3 a b c then Some s3 else None
                    end
           end
  end.

(** [s.lstrip()], by at most [n] characters. *)
Fixpoint lstrip_upto (n : nat) (s : string) : string :=
  match n with
  | O => s
  | S n' =>
      match space_prefix s with
      | Some s' => lstrip_upto n' s'
      | None => s
      end
  end.

Definition lstrip (s : string) : string := lstrip_upto (String.length s) s.

(** [s.rstrip()]: the string is cut where nothing but white space
    follows. *)
Fixpoint rstrip (s : string) : string :=
  match s with
  | EmptyString => EmptyString
  | String c s' =>
      if String.eqb (lstrip s) EmptyString then EmptyString
      else String c (rstrip s')
  end.

(** [s.strip()]. *)
Definition strip (s : string) : string := rstrip (lstrip s).

(** [re.search('[^/]*/[^/]*$', s)]: the leftmost position from which the
    rest of the string is a run without '/', one '/', and a run without
    '/' up to the end, that is, from which exactly one '/' is left. The
    result is the matched group. *)
Fixpoint re_search_last_two (s : string) : option string :=
  if Nat.eqb (count "/" s) 1 then Some s
  else match s with
       | EmptyString => None
       | String _ s' => re_search_last_two s'
       end.

End Str.

(** ** Exceptions and results *)

Inductive runtime_error :=
| FailedToClone (name url : string)
| NotFoundAt (name repo_user repo_name : string).

Inductive exn :=
| RuntimeError (m : runtime_error)
| KeyError (k : string)
| AttributeError
| ValueError
| IndexError
| FileNotFoundError
| RecursionError.

Inductive outcome (A : Type) :=
| Ok (a : A)
| Raised (e : exn).
Arguments Ok {A} a.
Arguments Raised {A} e.

(** ** Name resolution *)

Definition URL_GITHUB : string := "https://github.com/".

Definition _parse_name (name : string)
  : outcome (string * string * string * string) :=
  let url := if Str.startswith "http" name then name
             else URL_GITHUB +:+ name in
  match Str.re_search_last_two url with
  | None => Raised AttributeError
  | Some g =>
      match Str.split "/" g with
      | [repo_user; repo_name] =>
          Ok (url, repo_user, repo_name, repo_user +:+ "/" +:+ repo_name)
      | _ => Raised ValueError
      end
  end.

(** ** Data model *)

(** A commit as the manager sees it: its SHA and the two descriptor files of
    its tree ([.remote] as [f.readlines()] gives it, [.dependencies] as
    [f.read().splitlines()] gives it; [None] when the file is not there). *)
Record commit := {
  sha : string;
  tree_remote : option (list string);
  tree_dependencies : option (list string)
}.

(** A repository as the hosting service has it: the name of its default
    branch, the head of that branch and the heads of its other branches. *)
Record repository := {
  default_branch : string;
  default_head : commit;
  other_heads : string -> option commit
}.

Definition branch_head (repo : repository) (branch : string)
  : option commit :=
  if String.eqb branch (default_branch repo) then Some (default_head repo)
  else other_heads repo branch.

(** The [.git] metadata of a working copy: the URL of [origin], the branch
    the symbolic reference [origin/HEAD] names (the default branch at the
    time of the clone), the commit checked out and the commit
    [origin/HEAD] resolves to. *)
Record working_copy := {
  origin : string;
  origin_branch : string;
  HEAD : commit;
  origin_HEAD : commit
}.

(** What the archive host answers for a URL: nothing ([wget] exits with an
    error), or an archive, of which [extracts] tells whether [unzip] gets
    anything out of it. *)
Inductive served :=
| NotServed
| Served (extracts : bool).

(** An add-on directory [<install root>/<owner>/<repo>]: the [.git]
    metadata and the two descriptor files, [None] when they are not there,
    and the names of the other entries as far as the manager deals with
    them (what is there before a clone, and what [wget] and [unzip]
    leave; the other files a repository brings are not listed). *)
Record addon_dir := {
  dot_git : option working_copy;
  file_remote : option (list string);
  file_dependencies : option (list string);
  others : gset string
}.

Definition empty_dir : addon_dir :=
  {| dot_git := None; file_remote := None; file_dependencies := None;
     others := ∅ |}.

(** The directory has no entry at all. *)
Definition dir_empty (d : addon_dir) : bool :=
  match dot_git d, file_remote d, file_dependencies d with
  | None, None, None => bool_decide (others d = ∅)
  | _, _, _ => false
  end.

(** One value of the state dictionary: a dictionary with the keys 'hash',
    'deps', 'remote' and 'remote_target', each of which may be missing. *)
Record addon_record := {
  hash : option string;
  deps : option (list string);
  remote : option string;
  remote_target : option string
}.

Definition empty_record : addon_record :=
  {| hash := None; deps := None; remote := None; remote_target := None |}.

Definition set_hash (v : string) (r : addon_record) : addon_record :=
  {| hash := Some v; deps := deps r; remote := remote r;
     remote_target := remote_target r |}.

Definition set_deps (v : list string) (r : addon_record) : addon_record :=
  {| hash := hash r; deps := Some v; remote := remote r;
     remote_target := remote_target r |}.

Definition set_remote (v : string) (r : addon_record) : addon_record :=
  {| hash := hash r; deps := deps r; remote := Some v;
     remote_target := remote_target r |}.

Definition set_remote_target (v : string) (r : addon_record) : addon_record :=
  {| hash := hash r; deps := deps r; remote := remote r;
     remote_target := Some v |}.

(** The state dictionary, in insertion order. *)
Definition state := list (string * addon_record).

Module Dict.

(** [d[k]] ([None]: the lookup raises KeyError) and [k in d]. *)
Fixpoint get (k : string) (d : state) : option addon_record :=
  match d with
  | [] => None
  | (k', v) :: d' => if String.eqb k' k then Some v else get k d'
  end.

Definition mem (k : string) (d : state) : bool :=
  match get k d with Some _ => true | None => false end.

(** [d[k] = v]: in place when the key is there, at the end otherwise. *)
Fixpoint set (k : string) (v : addon_record) (d : state) : state :=
  match d with
  | [] => [(k, v)]
  | (k', v') :: d' =>
      if String.eqb k' k then (k, v) :: d' else (k', v') :: set k v d'
  end.

(** [d[k][field] = x] for a key that is there. *)
Definition update (k : string) (f : addon_record -> addon_record)
  (d : state) : state :=
  match get k d with
  | Some r => set k (f r) d
  | None => d
  end.

(** [del d[k]] for a key that is there. *)
Definition del (k : string) (d : state) : state :=
  List.filter (fun kv => negb (String.eqb (fst kv) k)) d.

(** [d.keys()]. *)
Definition keys (d : state) : list string := List.map fst d.

End Dict.

(** The world the manager acts on: the install root, the state file
    ([None] when the file does not exist) and the downloads [wget] was asked
    for, oldest first. *)
Record world := {
  fs : gmap string (gmap string addon_dir);
  state_file : option state;
  downloads : list string
}.

Definition with_fs (f : gmap string (gmap string addon_dir)) (w : world)
  : world :=
  {| fs := f; state_file := state_file w; downloads := downloads w |}.

Definition with_state_file (s : option state) (w : world) : world :=
  {| fs := fs w; state_file := s; downloads := downloads w |}.

Definition with_downloads (l : list string) (w : world) : world :=
  {| fs := fs w; state_file := state_file w; downloads := l |}.

(** ** The state and exception monad *)

Definition M (A : Type) : Type := world -> outcome A * world.

Definition ret {A} (a : A) : M A := fun w => (Ok a, w).

Definition raise {A} (e : exn) : M A := fun w => (Raised e, w).

Definition bind {A B} (m : M A) (f : A -> M B) : M B :=
  fun w =>
    match m w with
    | (Ok a, w') => f a w'
    | (Raised e, w') => (Raised e, w')
    end.

Definition lift {A} (o : outcome A) : M A := fun w => (o, w).

Definition gets {A} (f : world -> A) : M A := fun w => (Ok (f w), w).

Definition modify (f : world -> world) : M unit := fun w => (Ok tt, f w).

Notation "'let*' x ':=' c1 'in' c2" := (bind c1 (fun x => c2))
  (at level 10, x name, c1 at level 100, c2 at level 200).
Notation "'let*' ' p ':=' c1 'in' c2" :=
  (bind c1 (fun x => match x with p => c2 end))
  (at level 10, p pattern, c1 at level 100, c2 at level 200).

(** [for x in l: acc.extend(f(x))], returning [acc]. *)
Fixpoint extend_each (f : string -> M (list string)) (l : list string)
  (acc : list string) : M (list string) :=
  match l with
  | [] => ret acc
  | x :: l' => let* r := f x in extend_each f l' (acc ++ r)
  end.

(** [for x in l: f(x)]. *)
Fixpoint for_each (f : string -> M unit) (l : list string) : M unit :=
  match l with
  | [] => ret tt
  | x :: l' => let* _ := f x in for_each f l'
  end.

(** ** The install root *)

(** A segment that names a directory entry of its own: not empty, not
    ['.'] and not ['..'], without ['/'] and without a NUL character, and no
    longer than the 255 bytes an entry name may have. *)
Definition dir_name (s : string) : bool :=
  negb (String.eqb s "" || String.eqb s "." || String.eqb s "..")
  && Nat.eqb (Str.count "/" s) 0
  && Nat.eqb (Str.count "000" s) 0
  && Nat.leb (String.length s) 255.

(** Letters, digits, ['_'], ['-'] and ['.']. *)
Definition plain_char (c : ascii) : bool :=
  let n := nat_of_ascii c in
  (Nat.leb 48 n && Nat.leb n 57) || (Nat.leb 65 n && Nat.leb n 90)
  || (Nat.leb 97 n && Nat.leb n 122)
  || Nat.eqb n 95 || Nat.eqb n 45 || Nat.eqb n 46.

Fixpoint all_plain (s : string) : bool :=
  match s with
  | EmptyString => true
  | String c s' => plain_char c && all_plain s'
  end.

(** A remote target that names an entry of the add-on directory next to
    the ones the manager itself uses: a directory name of plain
    characters (which the shell leaves as they are between the quotes of
    the [rm] and [unzip] commands), other than [.git], [.remote],
    [.dependencies] and [.tmp.zip]. *)
Definition entry_name (target : string) : bool :=
  dir_name target && all_plain target
  && negb (existsb (String.eqb target)
             [".git"; ".remote"; ".dependencies"; ".tmp.zip"]).

(** [os.path.join(_install_location(), repo_user, repo_name)], kept as its
    two segments below the install location. For segments that are
    directory names this is the directory [repo_name] in the directory
    [repo_user] of the install root, and the definitions below are the
    file system's operations on it; what the file system makes of other
    segments (['acme/'] is the owner directory itself, ['x/..'] the
    install root) is not modelled, and the properties that depend on it
    are stated for directory names. *)
Definition _addon_path (repo_user repo_name : string) : string * string :=
  (repo_user, repo_name).

Definition lookup_dir (path : string * string) (w : world)
  : option addon_dir :=
  match fs w !! fst path with
  | Some parent => parent !! snd path
  | None => None
  end.

(** [os.path.exists(install_path)]. *)
Definition path_exists (path : string * string) (w : world) : bool :=
  match lookup_dir path w with Some _ => true | None => false end.

(** [os.makedirs(install_path)] for a path that does not exist. *)
Definition makedirs (path : string * string) (w : world) : world :=
  let parent := default ∅ (fs w !! fst path) in
  with_fs (<[fst path := <[snd path := empty_dir]> parent]> (fs w)) w.

(** [rmtree(install_path)]. *)
Definition rmtree (path : string * string) (w : world) : world :=
  with_fs (alter (delete (snd path)) (fst path) (fs w)) w.

(** [os.path.exists(install_parent) and not os.listdir(install_parent)]. *)
Definition parent_exists_and_empty (path : string * string) (w : world)
  : bool :=
  match fs w !! fst path with
  | Some parent => bool_decide (parent = ∅)
  | None => false
  end.

(** [os.rmdir(install_parent)]. *)
Definition rmdir_parent (path : string * string) (w : world) : world :=
  with_fs (delete (fst path) (fs w)) w.

(** Replace the content of a directory that exists. *)
Definition write_dir (path : string * string) (d : addon_dir) (w : world)
  : world :=
  with_fs (alter (<[snd path := d]>) (fst path) (fs w)) w.

(** ** The state file *)

(** What [get_state()] returns: the content of the file, the empty
    dictionary when there is no file. *)
Definition stored_state (w : world) : state :=
  match state_file w with Some s => s | None => [] end.

Definition get_state : M state := gets stored_state.

Definition dump_state (s : state) : M unit :=
  modify (with_state_file (Some s)).

Section Manager.

(** The git hosting service: the repository at a URL, [None] when nothing
    can be cloned or fetched from there. *)
Variable server : string -> option repository.

(** The archive host. *)
Variable archive_host : string -> served.

(** *** External processes, run with [cwd=install_path] *)

(** [run(cmd, cwd=install_path)] for a command that changes the directory
    [d] into [snd (cmd d)]; [fst (cmd d)] is what the caller reads of the
    result. A working directory that does not exist makes [run] raise. *)
Definition run {A} (cmd : addon_dir -> A * addon_dir)
  (path : string * string) : M A :=
  fun w =>
    match lookup_dir path w with
    | Some d => let '(a, d') := cmd d in (Ok a, write_dir path d' w)
    | None => (Raised FileNotFoundError, w)
    end.

(** [git clone <url> .]: the return code. The clone succeeds when the
    hosting service has a repository at the URL and the directory is empty
    (git refuses a destination that is not); the working copy is then at
    the head of the default branch, with the descriptor files of that
    commit, and [origin/HEAD] names that branch. *)
Definition git_clone (url : string) (d : addon_dir) : nat * addon_dir :=
  match server url with
  | Some repo =>
      if dir_empty d then
        (0, {| dot_git := Some {| origin := url;
                                  origin_branch := default_branch repo;
                                  HEAD := default_head repo;
                                  origin_HEAD := default_head repo |};
               file_remote := tree_remote (default_head repo);
               file_dependencies := tree_dependencies (default_head repo);
               others := others d |})
      else (128, d)
  | None => (128, d)
  end.

(** What a fetch brings for the branch [origin/HEAD] names: the head the
    hosting service has for that branch, [None] when the service does not
    answer or no longer has the branch. *)
Definition fetched_head (g : working_copy) : option commit :=
  match server (origin g) with
  | Some repo => branch_head repo (origin_branch g)
  | None => None
  end.

(** [git fetch --all]: the remote-tracking branches follow the hosting
    service; [origin/HEAD] keeps naming the same branch. *)
Definition git_fetch_all (d : addon_dir) : unit * addon_dir :=
  match dot_git d with
  | Some g =>
      match fetched_head g with
      | Some c =>
          (tt, {| dot_git := Some {| origin := origin g;
                                     origin_branch := origin_branch g;
                                     HEAD := HEAD g;
                                     origin_HEAD := c |};
                  file_remote := file_remote d;
                  file_dependencies := file_dependencies d;
                  others := others d |})
      | None => (tt, d)
      end
  | None => (tt, d)
  end.

(** [git rev-parse HEAD]: the standard output, stripped. *)
Definition git_rev_parse_HEAD (d : addon_dir) : string * addon_dir :=
  (match dot_git d with Some g => sha (HEAD g) | None => "" end, d).

(** [git rev-parse origin/HEAD]: the standard output, stripped. *)
Definition git_rev_parse_origin_HEAD (d : addon_dir) : string * addon_dir :=
  (match dot_git d with Some g => sha (origin_HEAD g) | None => "" end, d).

(** [git reset --hard origin/HEAD]. *)
Definition git_reset_hard_origin_HEAD (d : addon_dir) : unit * addon_dir :=
  match dot_git d with
  | Some g =>
      (tt, {| dot_git := Some {| origin := origin g;
                                 origin_branch := origin_branch g;
                                 HEAD := origin_HEAD g;
                                 origin_HEAD := origin_HEAD g |};
              file_remote := tree_remote (origin_HEAD g);
              file_dependencies := tree_dependencies (origin_HEAD g);
              others := others d |})
  | None => (tt, d)
  end.

(** [wget "<remote>" -O ".tmp.zip"]: the return code; the output file is
    created whether or not the download succeeds. *)
Definition wget (remote_ : string) (d : addon_dir) : nat * addon_dir :=
  (match archive_host remote_ with Served _ => 0 | NotServed => 1 end,
   {| dot_git := dot_git d; file_remote := file_remote d;
      file_dependencies := file_dependencies d;
      others := others d ∪ {[ ".tmp.zip" ]} |}).

(** [rm -r "<target_abs>"], for a target that names an entry of the
    directory. *)
Definition rm_r (target : string) (d : addon_dir) : unit * addon_dir :=
  (tt, {| dot_git := dot_git d; file_remote := file_remote d;
          file_dependencies := file_dependencies d;
          others := others d ∖ {[ target ]} |}).

(** [unzip -d "<target>" ".tmp.zip"], where [.tmp.zip] is what [wget] just
    wrote from [remote_]; the target is there afterwards when the archive
    extracts. *)
Definition unzip (remote_ target : string) (d : addon_dir)
  : unit * addon_dir :=
  (tt, {| dot_git := dot_git d; file_remote := file_remote d;
          file_dependencies := file_dependencies d;
          others := match archive_host remote_ with
                    | Served true => others d ∪ {[ target ]}
                    | _ => others d
                    end |}).

(** [os.path.exists(os.path.join(install_path, x))] for the entries the
    manager asks about; for the remote target, when it names an entry of
    the directory. *)
Definition has_dot_git (path : string * string) (w : world) : bool :=
  match lookup_dir path w with
  | Some d => match dot_git d with Some _ => true | None => false end
  | None => false
  end.

Definition read_file_remote (path : string * string) (w : world)
  : option (list string) :=
  match lookup_dir path w with Some d => file_remote d | None => None end.

Definition read_file_dependencies (path : string * string) (w : world)
  : option (list string) :=
  match lookup_dir path w with
  | Some d => file_dependencies d
  | None => None
  end.

Definition target_exists (path : string * string) (target : string)
  (w : world) : bool :=
  match lookup_dir path w with
  | Some d => bool_decide (target ∈ others d)
  | None => false
  end.

(** [run('wget ...')] of [install_addon]: the request is recorded. *)
Definition run_wget (remote_ : string) (path : string * string) : M nat :=
  let* _ := modify (fun w => with_downloads (downloads w ++ [remote_]) w) in
  run (wget remote_) path.

(** *** [install_addon] *)

(** "Make sure the target location exists". *)
Definition ensure_install_path (install_path : string * string) : M unit :=
  let* found := gets (path_exists install_path) in
  if negb found then modify (makedirs install_path) else ret tt.

(** "Either clone the addon or upgrade to latest": the value of
    [current]. *)
Definition clone_or_upgrade (url name : string)
  (install_path : string * string) : M string :=
  let* has_git := gets (has_dot_git install_path) in
  if negb has_git then
    let* returncode := run (git_clone url) install_path in
    if Nat.eqb returncode 0 then run git_rev_parse_HEAD install_path
    else raise (RuntimeError (FailedToClone name url))
  else
    let* _ := run git_fetch_all install_path in
    let* current := run git_rev_parse_HEAD install_path in
    let* latest := run git_rev_parse_origin_HEAD install_path in
    if String.eqb current latest then ret current
    else
      let* _ := run git_reset_hard_origin_HEAD install_path in
      ret current.

(** The condition under which the remote content is fetched. *)
Definition remote_is_new (r : addon_record) (remote_ target : string)
  : bool :=
  match remote r with None => true | Some x => negb (String.eqb x remote_) end
  || match remote_target r with
     | None => true
     | Some x => negb (String.eqb x target)
     end.

(** "Fetch remote data if required". *)
Definition fetch_remote_data (name : string)
  (install_path : string * string) : M unit :=
  let* file := gets (read_file_remote install_path) in
  match file with
  | None => ret tt
  | Some [] => raise IndexError
  | Some (line :: _) =>
      match Str.split " " (Str.strip line) with
      | [remote_; target] =>
          let* state_ := get_state in
          match Dict.get name state_ with
          | None => raise (KeyError name)
          | Some r =>
              if remote_is_new r remote_ target then
                let* returncode := run_wget remote_ install_path in
                if negb (Nat.eqb returncode 0) then ret tt
                else
                  let* found := gets (target_exists install_path target) in
                  let* _ := (if found then run (rm_r target) install_path
                             else ret tt) in
                  let* _ := run (unzip remote_ target) install_path in
                  let state1 := Dict.update name (set_remote remote_) state_ in
                  let state2 :=
                    Dict.update name (set_remote_target target) state1 in
                  dump_state state2
              else ret tt
          end
      | _ => raise ValueError
      end
  end.

(** The value of [deps] in "Install all dependencies". *)
Definition read_deps (install_path : string * string) : M (list string) :=
  let* file := gets (read_file_dependencies install_path) in
  match file with
  | Some lines => ret lines
  | None => ret []
  end.

(** "Update the saved state": the dictionary after the three assignments
    to [state[name]]. *)
Definition saved_state (name current : string) (deps_ : list string)
  (state_ : state) : state :=
  let state1 := if negb (Dict.mem name state_)
                then Dict.set name empty_record state_ else state_ in
  let state2 := Dict.update name (set_hash current) state1 in
  Dict.update name (set_deps deps_) state2.

Definition update_saved_state (name current : string) (deps_ : list string)
  : M unit :=
  let* state_ := get_state in
  dump_state (saved_state name current deps_ state_).

(** [install_addon(name)], with [fuel] frames left before the interpreter
    raises RecursionError. *)
Fixpoint install_addon (fuel : nat) (name : string) : M (list string) :=
  match fuel with
  | O => raise RecursionError
  | S fuel' =>
      let* '(url, repo_user, repo_name, name) := lift (_parse_name name) in
      let install_path := _addon_path repo_user repo_name in
      let* _ := ensure_install_path install_path in
      let* current := clone_or_upgrade url name install_path in
      let* _ := fetch_remote_data name install_path in
      let* deps_ := read_deps install_path in
      let* ret_ := extend_each (install_addon fuel') deps_ [name] in
      let* _ := update_saved_state name current deps_ in
      ret ret_
  end.

(** The steps of [install_addon] between the parse of the name and the
    reading of the dependencies, with the value of [current]. *)
Definition prepare (url name : string) (install_path : string * string)
  : M string :=
  let* _ := ensure_install_path install_path in
  let* current := clone_or_upgrade url name install_path in
  let* _ := fetch_remote_data name install_path in
  ret current.

(** How the recursive installs of a list of dependencies chain: each starts
    in the world the one before left, and [rs] collects what they return. *)
Inductive installs (f : string -> M (list string))
  : list string -> world -> list (list string) -> world -> Prop :=
| installs_nil w : installs f [] w [] w
| installs_cons d ds w r w1 rs w2 :
    f d w = (Ok r, w1) -> installs f ds w1 rs w2 ->
    installs f (d :: ds) w (r :: rs) w2.

(** [install_addons(string, remove_extras)]; [remove_extras] is not acted
    upon. *)
Definition install_addons (fuel : nat) (string_ : string)
  (remove_extras : bool) : M (list string) :=
  extend_each (install_addon fuel) (Str.split "," string_) [].

End Manager.

(** *** [remove_addon] *)

Definition remove_addon (name : string) : M unit :=
  let* '(url, repo_user, repo_name, name) := lift (_parse_name name) in
  let install_path := _addon_path repo_user repo_name in
  let* found := gets (path_exists install_path) in
  if negb found
  then raise (RuntimeError (NotFoundAt name repo_user repo_name))
  else
    let* _ := modify (rmtree install_path) in
    let* empty_parent := gets (parent_exists_and_empty install_path) in
    let* _ := (if empty_parent then modify (rmdir_parent install_path)
               else ret tt) in
    let* state_ := get_state in
    if Dict.mem name state_ then dump_state (Dict.del name state_)
    else raise (KeyError name).

(** *** [remove_addons] *)

(** [[k for k in state.keys() if a in state[k]['deps']]], over the keys
    [ks]. *)
Fixpoint dependents (a : string) (state_ : state) (ks : list string)
  : outcome (list string) :=
  match ks with
  | [] => Ok []
  | k :: ks' =>
      match Dict.get k state_ with
      | None => Raised (KeyError k)
      | Some r =>
          match deps r with
          | None => Raised (KeyError "deps")
          | Some l =>
              match dependents a state_ ks' with
              | Ok rest => Ok (if bool_decide (a ∈ l) then k :: rest else rest)
              | Raised e => Raised e
              end
          end
      end
  end.

(** [for a in addons: deps.extend(...)]. *)
Fixpoint extend_dependents (state_ : state) (addons acc : list string)
  : outcome (list string) :=
  match addons with
  | [] => Ok acc
  | a :: addons' =>
      match dependents a state_ (Dict.keys state_) with
      | Ok l => extend_dependents state_ addons' (acc ++ l)
      | Raised e => Raised e
      end
  end.

(** The first half of [remove_addons], up to the confirmation: the lists
    [addons] and [deps], or [None] when the function returns early because
    there is nothing to remove. *)
Definition removal_lists (string_ : option string) (remove_dependents : bool)
  : M (option (list string * list string)) :=
  let* string1 :=
    (match string_ with
     | None | Some EmptyString =>
         let* state0 := get_state in ret (Str.join "," (Dict.keys state0))
     | Some s => ret s
     end) in
  if String.eqb string1 "" then ret None
  else
    let addons := Str.split "," string1 in
    let* state_ := get_state in
    let* deps_ := (if remove_dependents
                   then lift (extend_dependents state_ addons [])
                   else ret []) in
    ret (Some (addons, deps_)).

(** [input(...) in ['y', 'Y', 'yes']]. *)
Definition confirmed (input : string) : bool :=
  existsb (String.eqb input) ["y"; "Y"; "yes"].

(** [remove_addons(string, remove_dependents)]; [input] is what the user
    types at the prompt. *)
Definition remove_addons (string_ : option string) (remove_dependents : bool)
  (input : string) : M unit :=
  let* lists := removal_lists string_ remove_dependents in
  match lists with
  | None => ret tt
  | Some (addons, deps_) =>
      if negb (confirmed input) then ret tt
      else for_each remove_addon (addons ++ deps_)
  end.

(** ** Well-formed states *)

(** Every record carries a 'deps' list, as every record written by
    [install_addon] does. *)
Definition records_have_deps (st : state) : Prop :=
  forall k rec, Dict.get k st = Some rec -> exists l, deps rec = Some l.

(** A key that survives [",".join(...)] followed by [split(',')]. *)
Definition plain_key (k : string) : Prop := k <> "" /\ Str.count "," k = 0.

(** A name whose owner and repository segments are directory names, or
    that does not resolve at all. *)
Definition tidy_name (name : string) : bool :=
  match _parse_name name with
  | Ok (_, repo_user, repo_name, _) => dir_name repo_user && dir_name repo_name
  | Raised _ => true
  end.

(** A [.remote] file whose first line, if it has the two fields, names an
    entry of the add-on directory as its target. *)
Definition tidy_remote (file : option (list string)) : bool :=
  match file with
  | Some (line :: _) =>
      match Str.split " " (Str.strip line) with
      | [_; target] => entry_name target
      | _ => true
      end
  | _ => true
  end.

(** A [.dependencies] file whose lines are tidy names. *)
Definition tidy_dependencies (file : option (list string)) : bool :=
  match file with
  | Some lines => forallb tidy_name lines
  | None => true
  end.

Definition tidy_commit (c : commit) : bool :=
  tidy_remote (tree_remote c) && tidy_dependencies (tree_dependencies c).

(** The descriptor files of a directory are tidy, and so are those of the
    commit a reset would check out. *)
Definition tidy_dir (d : addon_dir) : bool :=
  tidy_remote (file_remote d) && tidy_dependencies (file_dependencies d)
  && match dot_git d with
     | Some g => tidy_commit (origin_HEAD g)
     | None => true
     end.

(** Every add-on directory of the install root stands under directory
    names and is tidy. *)
Definition tidy_world (w : world) : bool :=
  forallb (fun owner =>
             forallb (fun repo => dir_name (fst owner) && dir_name (fst repo)
                                  && tidy_dir (snd repo))
               (map_to_list (snd owner)))
    (map_to_list (fs w)).

(** Every head of every repository of the hosting service is tidy. *)
Definition tidy_server (server : string -> option repository) : Prop :=
  forall url repo branch c,
    server url = Some repo -> branch_head repo branch = Some c ->
    tidy_commit c = true.

(** A computation that leaves a tidy install root tidy, whether it
    returns or raises, and whose result, when it returns, satisfies
    [post]. *)
Definition keeps_tidy {A} (m : M A) (post : A -> Prop) : Prop :=
  forall w, tidy_world w = true ->
    tidy_world (snd (m w)) = true /\ forall a, fst (m w) = Ok a -> post a.

(** The state file and the install root agree: for directory names
    [owner] and [repo], ['owner/repo'] is a key of the state exactly when
    [<install root>/<owner>/<repo>] exists. *)
Definition consistent (w : world) : Prop :=
  forall u r,
    dir_name u = true -> dir_name r = true ->
    (Dict.mem (u +:+ "/" +:+ r) (stored_state w) = true
     <-> path_exists (_addon_path u r) w = true).

(** The agreement of [consistent], except that the directories of the
    add-ons in [pending] (those being installed further up the call stack)
    may still be without a record. *)
Definition consistent_but (pending : list string) (w : world) : Prop :=
  forall u r,
    dir_name u = true -> dir_name r = true ->
    (Dict.mem (u +:+ "/" +:+ r) (stored_state w) = true ->
     path_exists (_addon_path u r) w = true)
    /\ (path_exists (_addon_path u r) w = true ->
        Dict.mem (u +:+ "/" +:+ r) (stored_state w) = true
        \/ In (u +:+ "/" +:+ r) pending).

(** No directory of the first world is missing in the second. *)
Definition keeps_paths (w w' : world) : Prop :=
  forall q, path_exists q w = true -> path_exists q w' = true.

(** Every record carries its 'hash' and its 'deps'. *)
Definition records_complete (st : state) : Prop :=
  forall k rec,
    Dict.get k st = Some rec ->
    (exists h, hash rec = Some h) /\ exists l, deps rec = Some l.

(** The first line of the [.remote] file of a directory has the two
    fields [install_addon] unpacks. *)
Definition has_remote_descriptor (d : addon_dir) : Prop :=
  exists line rest remote_ target,
    file_remote d = Some (line :: rest)
    /\ Str.split " " (Str.strip line) = [remote_; target].

(** The working copy of a directory is at the commit the hosting service
    has for the branch [origin/HEAD] names. *)
Definition cloned_up_to_date (server : string -> option repository)
  (d : addon_dir) : Prop :=
  exists g cm,
    dot_git d = Some g /\ fetched_head server g = Some cm
    /\ sha (HEAD g) = sha cm.

(** The part of a directory that decides what an upgrade does and which
    dependencies are installed. *)
Definition dir_core (d : addon_dir)
  : option working_copy * option (list string) :=
  (dot_git d, file_dependencies d).

(** A dependency line that resolves to one of the directories
    [members]. *)
Definition resolves_into (members : list (string * string)) (dep : string)
  : bool :=
  match _parse_name dep with
  | Ok (_, u, r, _) => bool_decide ((u, r) ∈ members)
  | Raised _ => false
  end.

(** A directory that an upgrade leaves as it is (its working copy is at
    the commit the fetch will find) and whose [.dependencies] lists one of
    [members]. *)
Definition keeps_cycle (server : string -> option repository)
  (members : list (string * string)) (d : addon_dir) : bool :=
  match dot_git d with
  | Some g =>
      String.eqb (sha (HEAD g))
        (match fetched_head server g with
         | Some cm => sha cm
         | None => sha (origin_HEAD g)
         end)
      && match file_dependencies d with
         | Some l => existsb (resolves_into members) l
         | None => false
         end
  | None => false
  end.

(** Every one of [members] is installed that way: following the listed
    dependencies from any of them never leaves [members]. *)
Definition cycle_installed (server : string -> option repository)
  (members : list (string * string)) (w : world) : bool :=
  forallb (fun p => match lookup_dir p w with
                    | Some d => keeps_cycle server members d
                    | None => false
                    end) members.

(** Nothing is missing in the second world that the first has: no add-on
    directory and no key of the state. *)
Definition never_less (w w' : world) : Prop :=
  keeps_paths w w'
  /\ forall k, Dict.mem k (stored_state w) = true ->
               Dict.mem k (stored_state w') = true.

(** [cycle_installed], spelled out. *)
Definition cycle_kept (server : string -> option repository)
  (members : list (string * string)) (w : world) : Prop :=
  forall p, In p members ->
    exists d, lookup_dir p w = Some d /\ keeps_cycle server members d = true.

(** ** Scenarios

    A small hosting service and a few worlds, used to run the manager on
    concrete inputs. *)

Module Scenario.

Definition sha_maps : string := "4c1d2e3f4a5b6c7d8e9f0a1b2c3d4e5f60718293".
Definition sha_sensors : string := "a3b1c5d7e9f00112233445566778899aabbccdde".
Definition sha_drivers_old : string :=
  "0f0e0d0c0b0a09080706050403020100ffeeddcc".
Definition sha_drivers : string := "9e8d7c6b5a4f3e2d1c0b9a8f7e6d5c4b3a291807".

(** [acme/maps] ships a remote-content descriptor. *)
Definition commit_maps : commit :=
  {| sha := sha_maps;
     tree_remote := Some ["https://data.example.org/maps.zip data"];
     tree_dependencies := None |}.

(** [acme/sensors] depends on [acme/drivers]. *)
Definition commit_sensors : commit :=
  {| sha := sha_sensors; tree_remote := None;
     tree_dependencies := Some ["acme/drivers"] |}.

Definition commit_drivers_old : commit :=
  {| sha := sha_drivers_old; tree_remote := None;
     tree_dependencies := None |}.

Definition commit_drivers : commit :=
  {| sha := sha_drivers; tree_remote := None; tree_dependencies := None |}.

(** A repository with the one branch [main]. *)
Definition only_main (c : commit) : repository :=
  {| default_branch := "main"; default_head := c;
     other_heads := fun _ => None |}.

Definition hub (url : string) : option repository :=
  if String.eqb url "https://github.com/acme/maps"
  then Some (only_main commit_maps)
  else if String.eqb url "https://github.com/acme/sensors"
       then Some (only_main commit_sensors)
  else if String.eqb url "https://github.com/acme/drivers"
       then Some (only_main commit_drivers)
  else None.

Definition any_archive (url : string) : served := Served true.

(** Nothing installed, no state file. *)
Definition fresh : world :=
  {| fs := ∅; state_file := None; downloads := [] |}.

(** [acme/drivers] installed at an older commit than the one the hosting
    service now has. *)
Definition drivers_outdated : world :=
  {| fs :=
       {[ "acme" :=
            {[ "drivers" :=
                 {| dot_git :=
                      Some {| origin := "https://github.com/acme/drivers";
                              origin_branch := "main";
                              HEAD := commit_drivers_old;
                              origin_HEAD := commit_drivers_old |};
                    file_remote := None;
                    file_dependencies := None;
                    others := ∅ |} ]} ]};
     state_file :=
       Some [("acme/drivers",
              {| hash := Some sha_drivers_old; deps := Some [];
                 remote := None; remote_target := None |})];
     downloads := [] |}.

(** [acme/sensors] and its dependency, installed from [fresh]. *)
Definition sensors_installed : world :=
  snd (install_addon hub any_archive 2 "acme/sensors" fresh).

(** Three records, [w/z] depending on [w/y] depending on [w/x]. *)
Definition chain_state : state :=
  [("w/x", {| hash := Some "1"; deps := Some []; remote := None;
              remote_target := None |});
   ("w/y", {| hash := Some "2"; deps := Some ["w/x"]; remote := None;
              remote_target := None |});
   ("w/z", {| hash := Some "3"; deps := Some ["w/y"]; remote := None;
              remote_target := None |})].

Definition chain_world : world :=
  {| fs := ∅; state_file := Some chain_state; downloads := [] |}.

(** [acme/maps] with a record from before its repository had a [.remote]
    file, the working copy now at the commit that has one. *)
Definition maps_recorded : world :=
  {| fs :=
       {[ "acme" :=
            {[ "maps" :=
                 {| dot_git :=
                      Some {| origin := "https://github.com/acme/maps";
                              origin_branch := "main";
                              HEAD := commit_maps;
                              origin_HEAD := commit_maps |};
                    file_remote := tree_remote commit_maps;
                    file_dependencies := None;
                    others := ∅ |} ]} ]};
     state_file :=
       Some [("acme/maps",
              {| hash := Some sha_maps; deps := Some [];
                 remote := None; remote_target := None |})];
     downloads := [] |}.

Definition no_archive (url : string) : served := NotServed.

(** A state with a key that contains a comma. *)
Definition comma_world : world :=
  {| fs := ∅;
     state_file :=
       Some [("acme/a,b", {| hash := Some "1"; deps := Some [];
                             remote := None; remote_target := None |})];
     downloads := [] |}.

(** The hosting service without the repository of [acme/drivers]. *)
Definition hub_without_drivers (url : string) : option repository :=
  if String.eqb url "https://github.com/acme/drivers" then None else hub url.

(** What the failed install of [acme/ghost] leaves behind. *)
Definition ghost_leftover : world :=
  snd (install_addon hub any_archive 2 "acme/ghost" fresh).

(** Two add-ons that list each other as a dependency. *)
Definition commit_ping : commit :=
  {| sha := "1111111111111111111111111111111111111111";
     tree_remote := None; tree_dependencies := Some ["acme/pong"] |}.

Definition commit_pong : commit :=
  {| sha := "2222222222222222222222222222222222222222";
     tree_remote := None; tree_dependencies := Some ["acme/ping"] |}.

Definition ring (url : string) : option repository :=
  if String.eqb url "https://github.com/acme/ping"
  then Some (only_main commit_ping)
  else if String.eqb url "https://github.com/acme/pong"
       then Some (only_main commit_pong)
  else None.

Definition cloned (url : string) (c : commit) : addon_dir :=
  {| dot_git := Some {| origin := url; origin_branch := "main"; HEAD := c;
                        origin_HEAD := c |};
     file_remote := tree_remote c;
     file_dependencies := tree_dependencies c;
     others := ∅ |}.

(** [acme/maps] with its remote content installed, but recorded with the
    hash of an older commit and with a dependency it no longer lists, next
    to [acme/drivers]. *)
Definition sha_maps_old : string :=
  "77aa66bb55cc44dd33ee22ff1100aabbccddeeff".

Definition maps_stale : world :=
  {| fs :=
       {[ "acme" :=
            {[ "drivers" := cloned "https://github.com/acme/drivers"
                              commit_drivers;
               "maps" :=
                 {| dot_git :=
                      Some {| origin := "https://github.com/acme/maps";
                              origin_branch := "main";
                              HEAD := commit_maps;
                              origin_HEAD := commit_maps |};
                    file_remote := tree_remote commit_maps;
                    file_dependencies := None;
                    others := {[ ".tmp.zip"; "data" ]} |} ]} ]};
     state_file :=
       Some [("acme/drivers",
              {| hash := Some sha_drivers; deps := Some [];
                 remote := None; remote_target := None |});
             ("acme/maps",
              {| hash := Some sha_maps_old; deps := Some ["acme/drivers"];
                 remote := Some "https://data.example.org/maps.zip";
                 remote_target := Some "data" |})];
     downloads := ["https://data.example.org/maps.zip"] |}.

Definition ping_pong : world :=
  {| fs :=
       {[ "acme" :=
            {[ "ping" := cloned "https://github.com/acme/ping" commit_ping;
               "pong" := cloned "https://github.com/acme/pong"
                           commit_pong ]} ]};
     state_file := None;
     downloads := [] |}.

End Scenario.

(** * Properties *)

(** ** Strings *)

Module StrFacts.

Lemma app_nil_l (s : string) : "" +:+ s = s.
Proof. reflexivity. Qed.

Lemma app_cons (x : ascii) (a s : string) :
  String x a +:+ s = String x (a +:+ s).
Proof. reflexivity. Qed.

Lemma count_app (c : ascii) (a b : string) :
  Str.count c (a +:+ b) = Str.count c a + Str.count c b.
Proof.
  induction a as [|x a IH]; simpl; [reflexivity|].
  rewrite IH. lia.
Qed.

Lemma split_not_nil (sep : ascii) (s : string) : Str.split sep s <> [].
Proof.
  induction s as [|x s IH]; simpl; [discriminate|].
  destruct (Ascii.eqb x sep); [discriminate|].
  destruct (Str.split sep s); discriminate.
Qed.

(** A string without the separator is its own single field. *)
Lemma split_free (sep : ascii) (s : string) :
  Str.count sep s = 0 -> Str.split sep s = [s].
Proof.
  induction s as [|x s IH]; simpl; [reflexivity|].
  destruct (Ascii.eqb x sep); [discriminate|].
  intros H. rewrite IH by exact H. reflexivity.
Qed.

(** Splitting [a ++ sep ++ rest] peels the separator-free field [a] off. *)
Lemma split_cons (sep : ascii) (a rest : string) :
  Str.count sep a = 0 ->
  Str.split sep (a +:+ String sep rest) = a :: Str.split sep rest.
Proof.
  induction a as [|x a IH]; simpl.
  - intros _. rewrite Ascii.eqb_refl. reflexivity.
  - destruct (Ascii.eqb x sep); [discriminate|].
    intros H. rewrite IH by exact H. reflexivity.
Qed.

(** No field of a split contains the separator. *)
Lemma split_fields_free (sep : ascii) (s : string) :
  Forall (fun x => Str.count sep x = 0) (Str.split sep s).
Proof.
  induction s as [|x s IH]; simpl.
  - repeat constructor.
  - destruct (Ascii.eqb x sep) eqn:E.
    + constructor; [reflexivity | exact IH].
    + destruct (Str.split sep s) as [|h t].
      * repeat constructor. simpl. rewrite E. reflexivity.
      * inversion IH; subst. constructor; [|assumption].
        simpl. rewrite E. assumption.
Qed.

(** The fields of a split, joined again, are the string. *)
Lemma join_split (sep : ascii) (s : string) :
  Str.join (String sep "") (Str.split sep s) = s.
Proof.
  induction s as [|x s IH]; simpl; [reflexivity|].
  destruct (Ascii.eqb x sep) eqn:E.
  - apply Ascii.eqb_eq in E. subst x.
    pose proof (split_not_nil sep s) as Hn.
    destruct (Str.split sep s) as [|h t]; [congruence|].
    simpl in *. rewrite IH. reflexivity.
  - pose proof (split_not_nil sep s) as Hn.
    destruct (Str.split sep s) as [|h t]; [congruence|].
    destruct t as [|h' t]; simpl in *; subst s; reflexivity.
Qed.

(** Joining separator-free fields and splitting again gives the fields. *)
Lemma split_join (sep : ascii) (l : list string) :
  l <> [] ->
  Forall (fun x => Str.count sep x = 0) l ->
  Str.split sep (Str.join (String sep "") l) = l.
Proof.
  induction l as [|x l IH]; [congruence|].
  intros _ Hall. inversion Hall as [|? ? Hx Hl]; subst.
  destruct l as [|y l].
  - simpl. apply split_free. exact Hx.
  - change (Str.join (String sep "") (x :: y :: l))
      with (x +:+ String sep (Str.join (String sep "") (y :: l))).
    rewrite split_cons by exact Hx.
    rewrite IH; [reflexivity | discriminate | exact Hl].
Qed.

Lemma join_nonempty (sep : string) (l : list string) :
  l <> [] -> Forall (fun x => x <> "") l -> Str.join sep l <> "".
Proof.
  destruct l as [|x l]; [congruence|].
  intros _ Hall. inversion Hall as [|? ? Hx _]; subst.
  destruct l as [|y l]; simpl; [exact Hx|].
  destruct x; [congruence | discriminate].
Qed.

Lemma re_search_exact (s : string) :
  Str.count "/" s = 1 -> Str.re_search_last_two s = Some s.
Proof.
  intros Hs. destruct s; simpl in *; [discriminate|].
  rewrite Hs. reflexivity.
Qed.

(** The search skips a prefix that ends in '/' when exactly one '/' is
    left after it. *)
Lemma re_search_skip (p s : string) :
  Str.count "/" s = 1 ->
  Str.re_search_last_two (p +:+ String "/" s) = Some s.
Proof.
  intros Hs. induction p as [|x p IH].
  - change ("" +:+ String "/" s) with (String "/" s).
    cbn [Str.re_search_last_two].
    replace (Nat.eqb (Str.count "/" (String "/" s)) 1) with false
      by (simpl; rewrite Hs; reflexivity).
    apply re_search_exact. exact Hs.
  - change (String x p +:+ String "/" s) with (String x (p +:+ String "/" s)).
    cbn [Str.re_search_last_two].
    replace (Nat.eqb (Str.count "/" (String x (p +:+ String "/" s))) 1)
      with false; [exact IH|].
    symmetry. apply Nat.eqb_neq. simpl. rewrite count_app. simpl.
    rewrite Hs. destruct (Ascii.eqb x "/"); lia.
Qed.

(** What the search finds has exactly one '/'. *)
Lemma re_search_one_slash (s g : string) :
  Str.re_search_last_two s = Some g -> Str.count "/" g = 1.
Proof.
  induction s as [|x s IH]; simpl.
  - discriminate.
  - destruct (Nat.eqb _ 1) eqn:E.
    + intros [= <-]. apply Nat.eqb_eq in E. exact E.
    + exact IH.
Qed.

Lemma count_owner_repo (a b : string) :
  Str.count "/" a = 0 -> Str.count "/" b = 0 ->
  Str.count "/" (a +:+ "/" +:+ b) = 1.
Proof.
  intros Ha Hb. change (a +:+ "/" +:+ b) with (a +:+ String "/" b).
  rewrite count_app. simpl. lia.
Qed.

Lemma split_owner_repo (a b : string) :
  Str.count "/" a = 0 -> Str.count "/" b = 0 ->
  Str.split "/" (a +:+ "/" +:+ b) = [a; b].
Proof.
  intros Ha Hb. change (a +:+ "/" +:+ b) with (a +:+ String "/" b).
  rewrite split_cons by exact Ha. rewrite split_free by exact Hb.
  reflexivity.
Qed.

(** ['owner/repo'] determines the owner and the repository. *)
Lemma owner_repo_inj (a b a' b' : string) :
  Str.count "/" a = 0 -> Str.count "/" a' = 0 ->
  a +:+ "/" +:+ b = a' +:+ "/" +:+ b' -> a = a' /\ b = b'.
Proof.
  change (a +:+ "/" +:+ b) with (a +:+ String "/" b).
  change (a' +:+ "/" +:+ b') with (a' +:+ String "/" b').
  revert a'. induction a as [|x a IH]; intros [|x' a'] Ha Ha';
    rewrite ?app_nil_l, ?app_cons.
  - intros [= ->]. split; reflexivity.
  - intros [= <- _]. simpl in Ha'. discriminate.
  - intros [= -> _]. simpl in Ha. discriminate.
  - intros [= -> Heq]. simpl in Ha, Ha'.
    destruct (Ascii.eqb x' "/"); [discriminate|].
    destruct (IH a' Ha Ha' Heq) as [-> ->]. split; reflexivity.
Qed.

Lemma app_assoc (a b c : string) : (a +:+ b) +:+ c = a +:+ (b +:+ c).
Proof.
  induction a as [|x a IH]; rewrite ?app_nil_l, ?app_cons;
    [reflexivity | now rewrite IH].
Qed.

End StrFacts.

(** ** Name resolution *)

Example parse_short :
  _parse_name "acme/sensors"
  = Ok ("https://github.com/acme/sensors", "acme", "sensors", "acme/sensors").
Proof. reflexivity. Qed.

Example parse_url :
  _parse_name "https://example.org/x/acme/sensors"
  = Ok ("https://example.org/x/acme/sensors", "acme", "sensors",
        "acme/sensors").
Proof. reflexivity. Qed.

Example parse_trailing_slash :
  _parse_name "https://github.com/acme/sensors/"
  = Ok ("https://github.com/acme/sensors/", "sensors", "", "sensors/").
Proof. reflexivity. Qed.

Example parse_no_slash : _parse_name "httpd" = Raised AttributeError.
Proof. reflexivity. Qed.

(** What a successful parse returns: two segments without '/', and their
    concatenation as the canonical name. *)
Lemma parse_name_ok (name url u r c : string) :
  _parse_name name = Ok (url, u, r, c) ->
  Str.count "/" u = 0 /\ Str.count "/" r = 0 /\ c = u +:+ "/" +:+ r.
Proof.
  unfold _parse_name.
  destruct (Str.re_search_last_two _) as [g|]; [|discriminate].
  pose proof (StrFacts.split_fields_free "/" g) as Hf.
  destruct (Str.split "/" g) as [|a [|b [|? ?]]]; try discriminate.
  intros [= _ <- <- <-].
  inversion Hf as [|? ? Ha Hf']; subst. inversion Hf' as [|? ? Hb _]; subst.
  repeat split; assumption.
Qed.

(** A URL that ends in ['/owner/repo'], or is ['owner/repo'], is resolved
    to that owner and repository. *)
Lemma parse_tail (url owner repo : string) :
  Str.count "/" owner = 0 -> Str.count "/" repo = 0 ->
  url = owner +:+ "/" +:+ repo
  \/ (exists p, url = p +:+ String "/" (owner +:+ "/" +:+ repo)) ->
  match Str.re_search_last_two url with
  | Some g => Str.split "/" g = [owner; repo]
  | None => False
  end.
Proof.
  intros Ho Hr [-> | [p ->]].
  - rewrite StrFacts.re_search_exact by now apply StrFacts.count_owner_repo.
    now apply StrFacts.split_owner_repo.
  - rewrite StrFacts.re_search_skip by now apply StrFacts.count_owner_repo.
    now apply StrFacts.split_owner_repo.
Qed.

Lemma split_trailing (sep : ascii) (s : string) :
  Str.split sep (s +:+ String sep "") = Str.split sep s ++ [""].
Proof.
  induction s as [|x s IH]; rewrite ?StrFacts.app_nil_l, ?StrFacts.app_cons.
  - simpl. rewrite Ascii.eqb_refl. reflexivity.
  - simpl. rewrite IH. destruct (Ascii.eqb x sep); [reflexivity|].
    pose proof (StrFacts.split_not_nil sep s) as Hn.
    destruct (Str.split sep s); [congruence | reflexivity].
Qed.

Lemma last_split_trailing (sep : ascii) (s : string) :
  List.last (Str.split sep (s +:+ String sep "")) "x" = "".
Proof. rewrite split_trailing. apply List.last_last. Qed.

(** C9: for an input ['owner/repo'], or a URL whose last two path segments
    are owner and repo (neither containing '/'), [_parse_name] succeeds with
    that owner, that repo and the canonical name ['owner/repo']; the
    canonical name has exactly one '/' (so no scheme and no repeated
    segment), splits into exactly the owner and the repo, and does not end
    in '/' when the repo is not empty. *)
Theorem parse_name_canonical (name pre owner repo : string) :
  Str.count "/" owner = 0 -> Str.count "/" repo = 0 ->
  name = owner +:+ "/" +:+ repo
  \/ name = pre +:+ "/" +:+ owner +:+ "/" +:+ repo ->
  let canonical := owner +:+ "/" +:+ repo in
  (exists url, _parse_name name = Ok (url, owner, repo, canonical))
  /\ Str.count "/" canonical = 1
  /\ Str.split "/" canonical = [owner; repo]
  /\ (repo <> "" -> forall s, canonical <> s +:+ "/").
Proof.
  intros Ho Hr Hname canonical. repeat split.
  - unfold _parse_name.
    set (url := if Str.startswith "http" name then name
                else URL_GITHUB +:+ name).
    exists url.
    assert (Hurl : url = owner +:+ "/" +:+ repo
                   \/ exists p, url = p +:+ String "/" (owner +:+ "/" +:+ repo)).
    { subst url. destruct (Str.startswith "http" name).
      - destruct Hname as [-> | ->]; [left; reflexivity|].
        right. exists pre. reflexivity.
      - right. destruct Hname as [-> | ->].
        + exists "https://github.com". reflexivity.
        + exists (URL_GITHUB +:+ pre).
          rewrite StrFacts.app_assoc. reflexivity. }
    pose proof (parse_tail url owner repo Ho Hr Hurl) as H.
    destruct (Str.re_search_last_two url) as [g|]; [|contradiction].
    rewrite H. reflexivity.
  - now apply StrFacts.count_owner_repo.
  - now apply StrFacts.split_owner_repo.
  - intros Hne s Heq.
    pose proof (last_split_trailing "/" s) as Hl.
    change (s +:+ String "/" "") with (s +:+ "/") in Hl.
    rewrite <- Heq in Hl. unfold canonical in Hl.
    rewrite StrFacts.split_owner_repo in Hl by assumption.
    simpl in Hl. congruence.
Qed.

Lemma parse_name_canonical_witness :
  (exists url, _parse_name "https://github.com/acme/sensors"
               = Ok (url, "acme", "sensors", "acme/sensors"))
  /\ Str.count "/" "acme/sensors" = 1
  /\ Str.split "/" "acme/sensors" = ["acme"; "sensors"]
  /\ ("sensors" <> "" -> forall s, "acme/sensors" <> s +:+ "/").
Proof.
  apply (parse_name_canonical "https://github.com/acme/sensors"
           "https://github.com" "acme" "sensors");
    [reflexivity | reflexivity | right; reflexivity].
Defined.

(** ** The state dictionary *)

Module DictFacts.

Lemma get_set_eq (k : string) (v : addon_record) (d : state) :
  Dict.get k (Dict.set k v d) = Some v.
Proof.
  induction d as [|[k' v'] d IH]; simpl.
  - rewrite String.eqb_refl. reflexivity.
  - destruct (String.eqb k' k) eqn:E; simpl.
    + rewrite String.eqb_refl. reflexivity.
    + rewrite E. exact IH.
Qed.

Lemma get_set_ne (k k0 : string) (v : addon_record) (d : state) :
  k0 <> k -> Dict.get k0 (Dict.set k v d) = Dict.get k0 d.
Proof.
  intros Hne. induction d as [|[k' v'] d IH]; simpl.
  - destruct (String.eqb k k0) eqn:E; [|reflexivity].
    apply String.eqb_eq in E. congruence.
  - destruct (String.eqb k' k) eqn:E; simpl.
    + apply String.eqb_eq in E. subst k'.
      destruct (String.eqb k k0) eqn:E0; [|reflexivity].
      apply String.eqb_eq in E0. congruence.
    + rewrite IH. reflexivity.
Qed.

Lemma set_set (k : string) (v v0 : addon_record) (d : state) :
  Dict.set k v (Dict.set k v0 d) = Dict.set k v d.
Proof.
  induction d as [|[k' v'] d IH]; simpl.
  - rewrite String.eqb_refl. reflexivity.
  - destruct (String.eqb k' k) eqn:E; simpl.
    + rewrite String.eqb_refl. reflexivity.
    + rewrite E, IH. reflexivity.
Qed.

Lemma mem_get (k : string) (d : state) :
  Dict.mem k d = true <-> exists r, Dict.get k d = Some r.
Proof.
  unfold Dict.mem. destruct (Dict.get k d) as [r|].
  - split; [eauto | reflexivity].
  - split; [discriminate | intros [r [=]]].
Qed.

Lemma mem_keys (k : string) (d : state) :
  Dict.mem k d = true <-> In k (Dict.keys d).
Proof.
  unfold Dict.mem. induction d as [|[k' v'] d IH]; simpl.
  - split; [discriminate | contradiction].
  - destruct (String.eqb k' k) eqn:E.
    + apply String.eqb_eq in E. split; [auto | reflexivity].
    + apply String.eqb_neq in E. rewrite IH. split; [auto|].
      intros [?|?]; [contradiction | assumption].
Qed.

(** Assigning to a key that is there keeps the order of the keys. *)
Lemma keys_set_mem (k : string) (v : addon_record) (d : state) :
  Dict.mem k d = true -> Dict.keys (Dict.set k v d) = Dict.keys d.
Proof.
  unfold Dict.mem. induction d as [|[k' v'] d IH]; simpl; [discriminate|].
  destruct (String.eqb k' k) eqn:E; simpl.
  - apply String.eqb_eq in E. subst. reflexivity.
  - intros H. rewrite IH by exact H. reflexivity.
Qed.

(** A new key goes to the end. *)
Lemma keys_set_new (k : string) (v : addon_record) (d : state) :
  Dict.mem k d = false -> Dict.keys (Dict.set k v d) = Dict.keys d ++ [k].
Proof.
  unfold Dict.mem. induction d as [|[k' v'] d IH]; simpl; [reflexivity|].
  destruct (String.eqb k' k) eqn:E; simpl; [discriminate|].
  intros H. rewrite IH by exact H. reflexivity.
Qed.

Lemma mem_set (k k0 : string) (v : addon_record) (d : state) :
  Dict.mem k0 (Dict.set k v d) = String.eqb k0 k || Dict.mem k0 d.
Proof.
  unfold Dict.mem. destruct (String.eqb k0 k) eqn:E.
  - apply String.eqb_eq in E. subst. rewrite get_set_eq. reflexivity.
  - apply String.eqb_neq in E. rewrite get_set_ne by exact E. reflexivity.
Qed.

Lemma mem_update (k k0 : string) (f : addon_record -> addon_record)
  (d : state) :
  Dict.mem k0 (Dict.update k f d) = Dict.mem k0 d.
Proof.
  unfold Dict.update. destruct (Dict.get k d) as [r|] eqn:G; [|reflexivity].
  rewrite mem_set. destruct (String.eqb k0 k) eqn:E; [|reflexivity].
  apply String.eqb_eq in E. subst. unfold Dict.mem. rewrite G. reflexivity.
Qed.

Lemma get_del_eq (k : string) (d : state) : Dict.get k (Dict.del k d) = None.
Proof.
  unfold Dict.del. induction d as [|[k' v'] d IH]; simpl; [reflexivity|].
  destruct (String.eqb k' k) eqn:E; simpl; [exact IH|].
  rewrite E. exact IH.
Qed.

Lemma get_del_ne (k k0 : string) (d : state) :
  k0 <> k -> Dict.get k0 (Dict.del k d) = Dict.get k0 d.
Proof.
  intros Hne. unfold Dict.del.
  induction d as [|[k' v'] d IH]; simpl; [reflexivity|].
  destruct (String.eqb k' k) eqn:E; simpl.
  - apply String.eqb_eq in E. subst k'.
    destruct (String.eqb k k0) eqn:E0; [|exact IH].
    apply String.eqb_eq in E0. congruence.
  - rewrite IH. reflexivity.
Qed.

Lemma mem_del (k k0 : string) (d : state) :
  Dict.mem k0 (Dict.del k d) = negb (String.eqb k0 k) && Dict.mem k0 d.
Proof.
  unfold Dict.mem. destruct (String.eqb k0 k) eqn:E.
  - apply String.eqb_eq in E. subst. rewrite get_del_eq. reflexivity.
  - apply String.eqb_neq in E. rewrite get_del_ne by exact E. reflexivity.
Qed.

End DictFacts.

(** ** The monad *)

(** Case analysis on the run of the first computation of a [bind]. *)
Lemma bind_run {A B} (m : M A) (f : A -> M B) (w : world) :
  bind m f w = match m w with
               | (Ok a, w') => f a w'
               | (Raised e, w') => (Raised e, w')
               end.
Proof. reflexivity. Qed.

Lemma bind_ok {A B} (m : M A) (f : A -> M B) (w w' : world) (b : B) :
  bind m f w = (Ok b, w') <->
  exists a w1, m w = (Ok a, w1) /\ f a w1 = (Ok b, w').
Proof.
  rewrite bind_run. destruct (m w) as [[a|e] w1]; split.
  - eauto.
  - intros (a' & w1' & [= <- <-] & H). exact H.
  - discriminate.
  - intros (a' & w1' & [=] & _).
Qed.

(** What the loop over the dependencies returns: the accumulator followed
    by the lists the calls returned, in order. *)
Lemma extend_each_ok (f : string -> M (list string)) (l acc : list string)
  (w w' : world) (res : list string) :
  extend_each f l acc w = (Ok res, w') <->
  exists rs, installs f l w rs w' /\ res = acc ++ concat rs.
Proof.
  revert acc w. induction l as [|x l IH]; intros acc w; simpl.
  - unfold ret. split.
    + intros [= <- <-]. exists []. split; [constructor|].
      simpl. now rewrite app_nil_r.
    + intros (rs & Hrs & ->). inversion Hrs; subst.
      simpl. now rewrite app_nil_r.
  - rewrite bind_ok. split.
    + intros (r & w1 & Hx & Hrest). apply IH in Hrest.
      destruct Hrest as (rs & Hrs & ->).
      exists (r :: rs). split; [econstructor; eassumption|].
      simpl. now rewrite app_assoc.
    + intros (rs & Hrs & ->). inversion Hrs; subst.
      eexists _, _. split; [eassumption|]. apply IH.
      eexists. split; [eassumption|]. simpl. now rewrite app_assoc.
Qed.

Lemma installs_length (f : string -> M (list string)) (l : list string)
  (w w' : world) (rs : list (list string)) :
  installs f l w rs w' -> length rs = length l.
Proof. induction 1; simpl; congruence. Qed.

Lemma installs_mono (f g : string -> M (list string)) (l : list string)
  (w w' : world) (rs : list (list string)) :
  (forall x v r v', f x v = (Ok r, v') -> g x v = (Ok r, v')) ->
  installs f l w rs w' -> installs g l w rs w'.
Proof. intros Hfg. induction 1; econstructor; eauto. Qed.

(** ** [install_addon] *)

Section InstallFacts.

Variable server : string -> option repository.
Variable archive_host : string -> served.

Lemma update_saved_state_run (name current : string) (deps_ : list string)
  (w : world) :
  update_saved_state name current deps_ w
  = (Ok tt,
     with_state_file
       (Some (saved_state name current deps_ (stored_state w))) w).
Proof. reflexivity. Qed.

(** One call of [install_addon], step by step. *)
Lemma install_addon_S (fuel : nat) (name url u r cname : string)
  (w : world) :
  _parse_name name = Ok (url, u, r, cname) ->
  install_addon server archive_host (S fuel) name w
  = match prepare server archive_host url cname (u, r) w with
    | (Ok current, w1) =>
        let deps_ := default [] (read_file_dependencies (u, r) w1) in
        match extend_each (install_addon server archive_host fuel) deps_ [cname] w1
        with
        | (Ok ret_, w2) =>
            (Ok ret_, snd (update_saved_state cname current deps_ w2))
        | (Raised e, w2) => (Raised e, w2)
        end
    | (Raised e, w1) => (Raised e, w1)
    end.
Proof.
  intros Hp. cbn [install_addon].
  unfold prepare, _addon_path, read_deps, bind, lift, gets, ret.
  rewrite Hp. cbv beta iota zeta.
  destruct (ensure_install_path (u, r) w) as [[[]|e] wa]; [|reflexivity].
  destruct (clone_or_upgrade server url cname (u, r) wa)
    as [[current|e] wb]; [|reflexivity].
  destruct (fetch_remote_data archive_host cname (u, r) wb) as [[[]|e] wc];
    [|reflexivity].
  destruct (read_file_dependencies (u, r) wc) as [lines|];
    [|reflexivity].
  cbn [default from_option id].
  destruct (extend_each (install_addon server archive_host fuel) lines [cname] wc)
    as [[ret_|e] wd]; reflexivity.
Qed.

Lemma install_addon_parse (fuel : nat) (name : string) (w w' : world)
  (ret_ : list string) :
  install_addon server archive_host fuel name w = (Ok ret_, w') ->
  exists n url u r cname,
    fuel = S n /\ _parse_name name = Ok (url, u, r, cname).
Proof.
  destruct fuel as [|n]; [discriminate|].
  cbn [install_addon]. unfold bind at 1. unfold lift at 1.
  destruct (_parse_name name) as [[[[url u] r] cname]|e]; [|discriminate].
  intros _. eauto 10.
Qed.

(** A call that returns also returns, with the same result, when the
    interpreter allows deeper recursion. *)
Lemma install_addon_mono (fuel : nat) :
  forall name w ret_ w',
    install_addon server archive_host fuel name w = (Ok ret_, w') ->
    forall fuel', fuel <= fuel' ->
      install_addon server archive_host fuel' name w = (Ok ret_, w').
Proof.
  induction fuel as [|n IH]; intros name w ret_ w' Hrun fuel' Hle.
  - discriminate.
  - destruct (install_addon_parse _ _ _ _ _ Hrun)
      as (n0 & url & u & r & cname & _ & Hp).
    destruct fuel' as [|m]; [lia|].
    rewrite (install_addon_S n _ _ _ _ _ _ Hp) in Hrun.
    rewrite (install_addon_S m _ _ _ _ _ _ Hp).
    destruct (prepare server archive_host url cname (u, r) w)
      as [[current|e] w1]; [|discriminate].
    cbv zeta in Hrun |- *.
    destruct (extend_each (install_addon server archive_host n) _ [cname] w1)
      as [[res|e] w2] eqn:Hloop; [|discriminate].
    apply extend_each_ok in Hloop. destruct Hloop as (rs & Hrs & ->).
    assert (Hloop' :
      extend_each (install_addon server archive_host m)
        (default [] (read_file_dependencies (u, r) w1)) [cname] w1
      = (Ok ([cname] ++ concat rs), w2)).
    { apply extend_each_ok. exists rs. split; [|reflexivity].
      eapply installs_mono; [|exact Hrs].
      intros x v r0 v' Hx. apply (IH _ _ _ _ Hx). lia. }
    rewrite Hloop'. exact Hrun.
Qed.

(** The final update for an add-on that has a record: one assignment to
    its key, with the two fields replaced. *)
Lemma saved_state_existing (name current : string) (deps_ : list string)
  (st : state) (rec : addon_record) :
  Dict.get name st = Some rec ->
  saved_state name current deps_ st
  = Dict.set name {| hash := Some current; deps := Some deps_;
                     remote := remote rec;
                     remote_target := remote_target rec |} st.
Proof.
  intros Hget. unfold saved_state, Dict.mem. rewrite Hget. cbn [negb].
  unfold Dict.update at 2. rewrite Hget.
  unfold Dict.update. rewrite DictFacts.get_set_eq.
  rewrite DictFacts.set_set. reflexivity.
Qed.

(** The final update for an add-on without a record: a new record with the
    two fields, at the end. *)
Lemma saved_state_new (name current : string) (deps_ : list string)
  (st : state) :
  Dict.get name st = None ->
  saved_state name current deps_ st
  = Dict.set name {| hash := Some current; deps := Some deps_;
                     remote := None; remote_target := None |} st.
Proof.
  intros Hget. unfold saved_state, Dict.mem. rewrite Hget. cbn [negb].
  unfold Dict.update. rewrite !DictFacts.get_set_eq.
  rewrite ?DictFacts.get_set_eq, !DictFacts.set_set. reflexivity.
Qed.

Lemma mem_saved_state (name current k : string) (deps_ : list string)
  (st : state) :
  Dict.mem k (saved_state name current deps_ st)
  = String.eqb k name || Dict.mem k st.
Proof.
  destruct (Dict.get name st) as [rec|] eqn:Hget.
  - rewrite (saved_state_existing _ _ _ _ _ Hget). apply DictFacts.mem_set.
  - rewrite (saved_state_new _ _ _ _ Hget). apply DictFacts.mem_set.
Qed.

(** C3: once the name is resolved and the repository is synchronised (world
    [w1], in which the [.dependencies] file is read), [install_addon]
    returns exactly when the recursive installs of the listed dependencies
    return one after the other, and what it returns is its own canonical
    name followed by their returned lists in the listed order, nothing
    removed; without a [.dependencies] file it returns the singleton of its
    canonical name; and a deeper recursion limit does not change what is
    returned. *)
Theorem install_addon_returned_list (fuel : nat)
  (name url u r cname current : string) (w w1 : world) :
  _parse_name name = Ok (url, u, r, cname) ->
  prepare server archive_host url cname (u, r) w = (Ok current, w1) ->
  let deps_ := default [] (read_file_dependencies (u, r) w1) in
  (forall ret_ w',
      install_addon server archive_host (S fuel) name w = (Ok ret_, w') <->
      exists rs w2,
        installs (install_addon server archive_host fuel) deps_ w1 rs w2
        /\ length rs = length deps_
        /\ ret_ = cname :: concat rs
        /\ w' = snd (update_saved_state cname current deps_ w2))
  /\ (read_file_dependencies (u, r) w1 = None ->
      install_addon server archive_host (S fuel) name w
      = (Ok [cname], snd (update_saved_state cname current [] w1)))
  /\ (forall ret_ w' fuel',
         install_addon server archive_host (S fuel) name w = (Ok ret_, w') ->
         fuel <= fuel' ->
         install_addon server archive_host (S fuel') name w = (Ok ret_, w')).
Proof.
  intros Hp Hprep deps_. split; [|split].
  - intros ret_ w'. rewrite (install_addon_S _ _ _ _ _ _ _ Hp), Hprep.
    fold deps_. cbv zeta.
    destruct (extend_each (install_addon server archive_host fuel) deps_ [cname] w1)
      as [[res|e] w2] eqn:Hloop.
    + apply extend_each_ok in Hloop. destruct Hloop as (rs & Hrs & ->).
      split.
      * intros [= <- <-]. exists rs, w2.
        repeat split; [exact Hrs | eapply installs_length; exact Hrs].
      * intros (rs' & w2' & Hrs' & _ & -> & ->).
        assert (Hloop' :
          extend_each (install_addon server archive_host fuel) deps_ [cname] w1
          = (Ok ([cname] ++ concat rs'), w2')).
        { apply extend_each_ok. eauto. }
        assert (Hloop'' :
          extend_each (install_addon server archive_host fuel) deps_ [cname] w1
          = (Ok ([cname] ++ concat rs), w2)).
        { apply extend_each_ok. eauto. }
        rewrite Hloop' in Hloop''. injection Hloop'' as Hc ->.
        simpl in Hc. rewrite Hc. reflexivity.
    + split; [discriminate|].
      intros (rs' & w2' & Hrs' & _ & _ & _).
      assert (Hloop' :
        extend_each (install_addon server archive_host fuel) deps_ [cname] w1
        = (Ok ([cname] ++ concat rs'), w2')).
      { apply extend_each_ok. eauto. }
      congruence.
  - intros Hnone. rewrite (install_addon_S _ _ _ _ _ _ _ Hp), Hprep.
    rewrite Hnone. reflexivity.
  - intros ret_ w' fuel' Hrun Hle.
    apply (install_addon_mono _ _ _ _ _ Hrun). lia.
Qed.

(** C10: the final state update of a call of [install_addon] that returns
    rewrites the state file from the dictionary it reads at that point
    (world [w2], after the dependencies); when the add-on has a record
    there, the new record has the new 'hash' and 'deps' and the old
    'remote' and 'remote_target', every other key keeps its record, and the
    keys keep their order. Nothing but the state file changes. *)
Theorem install_addon_final_update (fuel : nat) (name : string)
  (w w' : world) (ret_ : list string) :
  install_addon server archive_host fuel name w = (Ok ret_, w') ->
  exists n url u r cname current w1 rs w2,
    fuel = S n
    /\ _parse_name name = Ok (url, u, r, cname)
    /\ prepare server archive_host url cname (u, r) w = (Ok current, w1)
    /\ let deps_ := default [] (read_file_dependencies (u, r) w1) in
       installs (install_addon server archive_host n) deps_ w1 rs w2
       /\ w' = snd (update_saved_state cname current deps_ w2)
       /\ fs w' = fs w2 /\ downloads w' = downloads w2
       /\ state_file w' = Some (stored_state w')
       /\ forall rec,
           Dict.get cname (stored_state w2) = Some rec ->
           Dict.get cname (stored_state w')
           = Some {| hash := Some current; deps := Some deps_;
                     remote := remote rec;
                     remote_target := remote_target rec |}
           /\ (forall k, k <> cname ->
                 Dict.get k (stored_state w') = Dict.get k (stored_state w2))
           /\ Dict.keys (stored_state w') = Dict.keys (stored_state w2).
Proof.
  intros Hrun.
  destruct (install_addon_parse _ _ _ _ _ Hrun)
    as (n & url & u & r & cname & -> & Hp).
  rewrite (install_addon_S _ _ _ _ _ _ _ Hp) in Hrun.
  destruct (prepare server archive_host url cname (u, r) w)
    as [[current|e] w1] eqn:Hprep; [|discriminate].
  cbv zeta in Hrun.
  destruct (extend_each (install_addon server archive_host n) _ [cname] w1)
    as [[res|e] w2] eqn:Hloop; [|discriminate].
  apply extend_each_ok in Hloop. destruct Hloop as (rs & Hrs & ->).
  injection Hrun as _ <-.
  exists n, url, u, r, cname, current, w1, rs, w2.
  split; [reflexivity|]. split; [exact Hp|]. split; [exact Hprep|].
  cbv zeta. split; [exact Hrs|].
  rewrite update_saved_state_run.
  cbn [snd stored_state with_state_file state_file fs downloads].
  do 4 (split; [reflexivity|]).
  intros rec Hget. rewrite (saved_state_existing _ _ _ _ _ Hget).
  split; [|split].
  - apply DictFacts.get_set_eq.
  - intros k Hk. apply DictFacts.get_set_ne. exact Hk.
  - apply DictFacts.keys_set_mem. apply DictFacts.mem_get. eauto.
Qed.

End InstallFacts.

Lemma install_addon_returned_list_witness :
  let w1 := snd (prepare Scenario.hub Scenario.any_archive
                   "https://github.com/acme/sensors" "acme/sensors"
                   ("acme", "sensors") Scenario.fresh) in
  exists rs w2,
    installs (install_addon Scenario.hub Scenario.any_archive 1)
      (default [] (read_file_dependencies ("acme", "sensors") w1)) w1 rs w2
    /\ length rs
       = length (default [] (read_file_dependencies ("acme", "sensors") w1))
    /\ ["acme/sensors"; "acme/drivers"] = "acme/sensors" :: concat rs
    /\ Scenario.sensors_installed
       = snd (update_saved_state "acme/sensors" Scenario.sha_sensors
                (default [] (read_file_dependencies ("acme", "sensors") w1))
                w2).
Proof.
  intros w1.
  assert (Hparse : _parse_name "acme/sensors"
                   = Ok ("https://github.com/acme/sensors", "acme",
                         "sensors", "acme/sensors")) by reflexivity.
  assert (Hprep : prepare Scenario.hub Scenario.any_archive
                    "https://github.com/acme/sensors" "acme/sensors"
                    ("acme", "sensors") Scenario.fresh
                  = (Ok Scenario.sha_sensors, w1))
    by (vm_compute; reflexivity).
  apply (proj1 (install_addon_returned_list Scenario.hub
                  Scenario.any_archive 1 "acme/sensors" _ _ _ _ _ _ _
                  Hparse Hprep)).
  vm_compute. reflexivity.
Defined.

Lemma install_addon_final_update_witness :
  let w := Scenario.maps_stale in
  let w' := snd (install_addon Scenario.hub Scenario.any_archive 2
                   "acme/maps" w) in
  (Dict.get "acme/maps" (stored_state w)
   = Some {| hash := Some Scenario.sha_maps_old;
             deps := Some ["acme/drivers"];
             remote := Some "https://data.example.org/maps.zip";
             remote_target := Some "data" |}
   /\ Dict.get "acme/maps" (stored_state w')
      = Some {| hash := Some Scenario.sha_maps; deps := Some [];
                remote := Some "https://data.example.org/maps.zip";
                remote_target := Some "data" |}
   /\ Dict.get "acme/drivers" (stored_state w')
      = Some {| hash := Some Scenario.sha_drivers; deps := Some [];
                remote := None; remote_target := None |}
   /\ Dict.keys (stored_state w') = ["acme/drivers"; "acme/maps"])
  /\ exists n url u r cname current w1 rs w2,
       2 = S n
       /\ _parse_name "acme/maps" = Ok (url, u, r, cname)
       /\ prepare Scenario.hub Scenario.any_archive url cname (u, r) w
          = (Ok current, w1)
       /\ let deps_ := default [] (read_file_dependencies (u, r) w1) in
          installs (install_addon Scenario.hub Scenario.any_archive n)
            deps_ w1 rs w2
          /\ w' = snd (update_saved_state cname current deps_ w2)
          /\ fs w' = fs w2 /\ downloads w' = downloads w2
          /\ state_file w' = Some (stored_state w')
          /\ forall rec,
              Dict.get cname (stored_state w2) = Some rec ->
              Dict.get cname (stored_state w')
              = Some {| hash := Some current; deps := Some deps_;
                        remote := remote rec;
                        remote_target := remote_target rec |}
              /\ (forall k, k <> cname ->
                    Dict.get k (stored_state w')
                    = Dict.get k (stored_state w2))
              /\ Dict.keys (stored_state w') = Dict.keys (stored_state w2).
Proof.
  intros w w'. split; [vm_compute; repeat split; reflexivity|].
  apply (install_addon_final_update Scenario.hub Scenario.any_archive 2
           "acme/maps" Scenario.maps_stale _ ["acme/maps"]).
  vm_compute. reflexivity.
Defined.

(** ** The install root *)

Module FsFacts.

Lemma lookup_dir_with_state_file (p : string * string) (s : option state)
  (w : world) :
  lookup_dir p (with_state_file s w) = lookup_dir p w.
Proof. reflexivity. Qed.

Lemma lookup_dir_makedirs (p p0 : string * string) (w : world) :
  lookup_dir p (makedirs p0 w)
  = if decide (p = p0) then Some empty_dir else lookup_dir p w.
Proof.
  destruct p as [u r], p0 as [u0 r0]. unfold lookup_dir, makedirs. simpl.
  destruct (decide (u = u0)) as [->|Hu].
  - rewrite lookup_insert_eq.
    destruct (decide (r = r0)) as [->|Hr].
    + rewrite lookup_insert_eq. rewrite decide_True by reflexivity.
      reflexivity.
    + rewrite lookup_insert_ne by congruence.
      rewrite decide_False by congruence.
      destruct (fs w !! u0); simpl; [reflexivity | apply lookup_empty].
  - rewrite lookup_insert_ne by congruence.
    rewrite decide_False by congruence. reflexivity.
Qed.

Lemma lookup_dir_write_dir (p p0 : string * string) (d d0 : addon_dir)
  (w : world) :
  lookup_dir p0 w = Some d0 ->
  lookup_dir p (write_dir p0 d w)
  = if decide (p = p0) then Some d else lookup_dir p w.
Proof.
  destruct p as [u r], p0 as [u0 r0]. unfold lookup_dir, write_dir. simpl.
  intros H0. destruct (fs w !! u0) as [parent|] eqn:Hparent; [|discriminate].
  destruct (decide (u = u0)) as [->|Hu].
  - rewrite lookup_alter_eq, Hparent. simpl.
    destruct (decide (r = r0)) as [->|Hr].
    + rewrite lookup_insert_eq. rewrite decide_True by reflexivity.
      reflexivity.
    + rewrite lookup_insert_ne by congruence.
      rewrite decide_False by congruence. reflexivity.
  - rewrite lookup_alter_ne by congruence.
    rewrite decide_False by congruence. reflexivity.
Qed.

Lemma path_exists_makedirs (p p0 : string * string) (w : world) :
  path_exists p (makedirs p0 w) = bool_decide (p = p0) || path_exists p w.
Proof.
  unfold path_exists. rewrite lookup_dir_makedirs.
  destruct (decide (p = p0)) as [->|Hne].
  - rewrite bool_decide_eq_true_2 by reflexivity. reflexivity.
  - rewrite bool_decide_eq_false_2 by exact Hne. reflexivity.
Qed.

(** Rewriting the content of a directory creates and removes nothing. *)
Lemma path_exists_write_dir (p p0 : string * string) (d d0 : addon_dir)
  (w : world) :
  lookup_dir p0 w = Some d0 ->
  path_exists p (write_dir p0 d w) = path_exists p w.
Proof.
  intros H0. unfold path_exists.
  rewrite (lookup_dir_write_dir _ _ _ _ _ H0).
  destruct (decide (p = p0)) as [->|Hne]; [|reflexivity].
  rewrite H0. reflexivity.
Qed.

(** The world after "Remove the directory (& parent if now empty)". *)
Lemma lookup_dir_removed (p p0 : string * string) (w : world) :
  let w1 := rmtree p0 w in
  let w2 := if parent_exists_and_empty p0 w1 then rmdir_parent p0 w1
            else w1 in
  lookup_dir p w2 = if decide (p = p0) then None else lookup_dir p w.
Proof.
  destruct p as [u r], p0 as [u0 r0].
  unfold parent_exists_and_empty, rmdir_parent, rmtree, lookup_dir. simpl.
  rewrite lookup_alter_eq.
  destruct (fs w !! u0) as [parent|] eqn:Hparent; simpl.
  - destruct (bool_decide (delete r0 parent = ∅)) eqn:Hempty; simpl.
    + apply bool_decide_eq_true in Hempty.
      destruct (decide (u = u0)) as [->|Hu].
      * rewrite lookup_delete_eq, Hparent.
        destruct (decide ((u0, r) = (u0, r0))) as [_|Hne]; [reflexivity|].
        assert (Hr : r0 <> r) by congruence.
        rewrite <- (lookup_delete_ne parent r0 r Hr), Hempty.
        rewrite lookup_empty. reflexivity.
      * rewrite lookup_delete_ne, lookup_alter_ne by congruence.
        rewrite decide_False by congruence. reflexivity.
    + destruct (decide (u = u0)) as [->|Hu].
      * rewrite lookup_alter_eq, Hparent. simpl.
        destruct (decide (r = r0)) as [->|Hr].
        -- rewrite lookup_delete_eq, decide_True by reflexivity.
           reflexivity.
        -- rewrite lookup_delete_ne, decide_False by congruence.
           reflexivity.
      * rewrite lookup_alter_ne by congruence.
        rewrite decide_False by congruence. reflexivity.
  - destruct (decide (u = u0)) as [->|Hu].
    + rewrite lookup_alter_eq, Hparent. simpl.
      destruct (decide _); reflexivity.
    + rewrite lookup_alter_ne by congruence.
      rewrite decide_False by congruence. reflexivity.
Qed.

End FsFacts.

(** ** [remove_addon] *)

(** One call of [remove_addon] on a name that resolves. *)
Lemma remove_addon_run (name url u r cname : string) (w : world) :
  _parse_name name = Ok (url, u, r, cname) ->
  remove_addon name w
  = if negb (path_exists (u, r) w)
    then (Raised (RuntimeError (NotFoundAt cname u r)), w)
    else
      let w1 := rmtree (u, r) w in
      let w2 := if parent_exists_and_empty (u, r) w1
                then rmdir_parent (u, r) w1 else w1 in
      if Dict.mem cname (stored_state w)
      then (Ok tt, with_state_file (Some (Dict.del cname (stored_state w))) w2)
      else (Raised (KeyError cname), w2).
Proof.
  intros Hp. unfold remove_addon, bind, lift, gets, _addon_path.
  rewrite Hp. cbv beta iota zeta.
  destruct (path_exists (u, r) w); cbn [negb]; [|reflexivity].
  unfold modify at 1.
  destruct (parent_exists_and_empty (u, r) (rmtree (u, r) w));
    unfold modify, ret, get_state, gets, dump_state, raise;
    cbv beta iota;
    [ change (stored_state (rmdir_parent (u, r) (rmtree (u, r) w)))
        with (stored_state w)
    | change (stored_state (rmtree (u, r) w)) with (stored_state w) ];
    destruct (Dict.mem cname (stored_state w)); reflexivity.
Qed.

(** C7: when the install directory of the add-on does not exist,
    [remove_addon] raises its "not installed" error, and the install root,
    the state file and the downloads are as before. The owner and the
    repository of the name are directory names, so that the install
    directory is [<install root>/<owner>/<repo>]. *)
Theorem remove_addon_not_installed (name url u r cname : string)
  (w : world) :
  _parse_name name = Ok (url, u, r, cname) ->
  dir_name u = true -> dir_name r = true ->
  path_exists (_addon_path u r) w = false ->
  remove_addon name w = (Raised (RuntimeError (NotFoundAt cname u r)), w).
Proof.
  intros Hp _ _ Hnot. rewrite (remove_addon_run _ _ _ _ _ _ Hp).
  unfold _addon_path in Hnot. rewrite Hnot. reflexivity.
Qed.

Lemma remove_addon_not_installed_witness :
  remove_addon "acme/sensors" Scenario.drivers_outdated
  = (Raised (RuntimeError (NotFoundAt "acme/sensors" "acme" "sensors")),
     Scenario.drivers_outdated).
Proof.
  apply (remove_addon_not_installed "acme/sensors"
           "https://github.com/acme/sensors" "acme" "sensors" "acme/sensors");
    reflexivity.
Defined.

(** C8: [remove_addon] on an add-on whose directory exists and which has a
    state record returns normally; afterwards the directory is gone, the
    record is gone (the state file holds the old dictionary without that
    key), and the owner directory is gone when nothing else was in it and
    is there with its other entries otherwise. Other owners and other
    records are untouched. The owner and the repository of the name are
    directory names, so that the install directory is
    [<install root>/<owner>/<repo>] and its parent the owner directory. *)
Theorem remove_addon_removes (name url u r cname : string) (w : world) :
  _parse_name name = Ok (url, u, r, cname) ->
  dir_name u = true -> dir_name r = true ->
  path_exists (_addon_path u r) w = true ->
  Dict.mem cname (stored_state w) = true ->
  exists w' parent,
    remove_addon name w = (Ok tt, w')
    /\ fs w !! u = Some parent
    /\ path_exists (_addon_path u r) w' = false
    /\ Dict.get cname (stored_state w') = None
    /\ state_file w' = Some (Dict.del cname (stored_state w))
    /\ (delete r parent = ∅ -> fs w' !! u = None)
    /\ (delete r parent <> ∅ -> fs w' !! u = Some (delete r parent))
    /\ (forall u', u' <> u -> fs w' !! u' = fs w !! u')
    /\ (forall k, k <> cname ->
          Dict.get k (stored_state w') = Dict.get k (stored_state w))
    /\ downloads w' = downloads w.
Proof.
  intros Hp _ _ Hex Hmem. unfold _addon_path in *.
  rewrite (remove_addon_run _ _ _ _ _ _ Hp), Hex, Hmem. cbn [negb].
  cbv zeta.
  assert (Hparent : exists parent, fs w !! u = Some parent).
  { unfold path_exists, lookup_dir in Hex. simpl in Hex.
    destruct (fs w !! u); [eauto | discriminate]. }
  destruct Hparent as [parent Hparent].
  eexists _, parent. split; [reflexivity|]. split; [exact Hparent|].
  split.
  { unfold path_exists. rewrite FsFacts.lookup_dir_with_state_file.
    pose proof (FsFacts.lookup_dir_removed (u, r) (u, r) w) as Hl.
    cbv zeta in Hl. rewrite decide_True in Hl by reflexivity.
    rewrite Hl. reflexivity. }
  split; [apply DictFacts.get_del_eq|]. split; [reflexivity|].
  unfold parent_exists_and_empty, rmdir_parent, rmtree.
  cbn [fs with_fs fst snd with_state_file state_file downloads stored_state].
  rewrite lookup_alter_eq, Hparent. cbn [fmap option_fmap option_map].
  repeat split.
  - intros Hempty. rewrite bool_decide_eq_true_2 by exact Hempty.
    cbn [fs with_fs]. apply lookup_delete_eq.
  - intros Hne. rewrite bool_decide_eq_false_2 by exact Hne.
    cbn [fs with_fs]. rewrite lookup_alter_eq, Hparent. reflexivity.
  - intros u' Hu'. destruct (bool_decide (delete r parent = ∅));
      cbn [fs with_fs].
    + rewrite lookup_delete_ne, lookup_alter_ne by congruence. reflexivity.
    + rewrite lookup_alter_ne by congruence. reflexivity.
  - intros k Hk. apply DictFacts.get_del_ne. exact Hk.
  - destruct (bool_decide (delete r parent = ∅)); reflexivity.
Qed.

Lemma remove_addon_removes_witness :
  exists w' parent,
    remove_addon "acme/sensors" Scenario.sensors_installed = (Ok tt, w')
    /\ fs Scenario.sensors_installed !! "acme" = Some parent
    /\ path_exists (_addon_path "acme" "sensors") w' = false
    /\ Dict.get "acme/sensors" (stored_state w') = None
    /\ state_file w'
       = Some (Dict.del "acme/sensors"
                 (stored_state Scenario.sensors_installed))
    /\ (delete "sensors" parent = ∅ -> fs w' !! "acme" = None)
    /\ (delete "sensors" parent <> ∅ ->
        fs w' !! "acme" = Some (delete "sensors" parent))
    /\ (forall u', u' <> "acme" ->
          fs w' !! u' = fs Scenario.sensors_installed !! u')
    /\ (forall k, k <> "acme/sensors" ->
          Dict.get k (stored_state w')
          = Dict.get k (stored_state Scenario.sensors_installed))
    /\ downloads w' = downloads Scenario.sensors_installed.
Proof.
  apply (remove_addon_removes "acme/sensors"
           "https://github.com/acme/sensors" "acme" "sensors" "acme/sensors");
    vm_compute; reflexivity.
Defined.

(** ** Remote content and the recorded hash *)

(** A command run in a directory that exists. *)
Lemma run_ok {A} (cmd : addon_dir -> A * addon_dir) (p : string * string)
  (w : world) (d : addon_dir) :
  lookup_dir p w = Some d ->
  run cmd p w = (Ok (fst (cmd d)), write_dir p (snd (cmd d)) w).
Proof. intros H. unfold run. rewrite H. destruct (cmd d). reflexivity. Qed.

(** With a record for the add-on, the archive is requested exactly when
    the recorded pair differs from the descriptor's. *)
Lemma remote_is_new_spec (rec : addon_record) (remote_ target : string) :
  remote_is_new rec remote_ target = false
  <-> remote rec = Some remote_ /\ remote_target rec = Some target.
Proof.
  unfold remote_is_new.
  destruct (remote rec) as [x|], (remote_target rec) as [y|]; simpl;
    try (split; [discriminate | intros [? ?]; discriminate]).
  - rewrite orb_false_iff, !negb_false_iff, !String.eqb_eq.
    split; intros [H1 H2]; split; congruence.
  - rewrite orb_true_r. split; [discriminate | intros [? ?]; discriminate].
Qed.

Lemma fetch_remote_data_recorded (archive_host : string -> served)
  (name line remote_ target : string) (rest : list string)
  (p : string * string) (rec : addon_record) (w : world) :
  read_file_remote p w = Some (line :: rest) ->
  Str.split " " (Str.strip line) = [remote_; target] ->
  Dict.get name (stored_state w) = Some rec ->
  let w' := snd (fetch_remote_data archive_host name p w) in
  (remote_is_new rec remote_ target = false -> w' = w)
  /\ downloads w'
     = downloads w ++ (if remote_is_new rec remote_ target then [remote_]
                       else []).
Proof.
  intros Hfile Hsplit Hget.
  assert (Hdir : exists d, lookup_dir p w = Some d).
  { unfold read_file_remote in Hfile.
    destruct (lookup_dir p w); [eauto | discriminate]. }
  destruct Hdir as [d Hdir].
  unfold fetch_remote_data, bind, get_state, gets.
  rewrite Hfile, Hsplit. cbv beta iota. rewrite Hget.
  destruct (remote_is_new rec remote_ target).
  - split; [discriminate|].
    unfold run_wget, bind, modify. cbv beta iota.
    set (w0 := with_downloads (downloads w ++ [remote_]) w).
    assert (Hdir0 : lookup_dir p w0 = Some d) by exact Hdir.
    rewrite (run_ok _ _ _ _ Hdir0). cbv beta iota.
    unfold wget at 1. cbn [fst].
    destruct (archive_host remote_) as [|extracts]; cbn [negb Nat.eqb];
      [reflexivity|].
    set (w1 := write_dir p _ w0).
    assert (Hdir1 : exists d1, lookup_dir p w1 = Some d1).
    { eexists. subst w1. rewrite (FsFacts.lookup_dir_write_dir _ _ _ _ _ Hdir0).
      rewrite decide_True by reflexivity. reflexivity. }
    destruct Hdir1 as [d1 Hdir1].
    destruct (target_exists p target w1).
    + rewrite (run_ok _ _ _ _ Hdir1). cbv beta iota.
      set (w2 := write_dir p _ w1).
      assert (Hdir2 : exists d2, lookup_dir p w2 = Some d2).
      { eexists. subst w2.
        rewrite (FsFacts.lookup_dir_write_dir _ _ _ _ _ Hdir1).
        rewrite decide_True by reflexivity. reflexivity. }
      destruct Hdir2 as [d2 Hdir2].
      rewrite (run_ok _ _ _ _ Hdir2). reflexivity.
    + unfold ret at 1. cbv beta iota.
      rewrite (run_ok _ _ _ _ Hdir1). reflexivity.
  - split; [reflexivity|]. unfold ret. simpl. now rewrite app_nil_r.
Qed.

(** Without a record, the lookup of the skip-check raises before anything
    is requested. *)
Lemma fetch_remote_data_unrecorded (archive_host : string -> served)
  (name line remote_ target : string) (rest : list string)
  (p : string * string) (w : world) :
  read_file_remote p w = Some (line :: rest) ->
  Str.split " " (Str.strip line) = [remote_; target] ->
  Dict.get name (stored_state w) = None ->
  fetch_remote_data archive_host name p w = (Raised (KeyError name), w).
Proof.
  intros Hfile Hsplit Hget.
  unfold fetch_remote_data, bind, get_state, gets.
  rewrite Hfile, Hsplit. cbv beta iota. rewrite Hget. reflexivity.
Qed.

(** C1, at its failing input: the fresh install of [acme/maps], whose
    repository has a [.remote] descriptor. There is no record, so the
    recorded pair differs from the descriptor's; the call raises KeyError
    at the skip-check, nothing is downloaded and no state file is
    written, while the cloned directory stays. *)
Theorem fresh_install_with_remote_raises :
  let run_ := install_addon Scenario.hub Scenario.any_archive 2 "acme/maps"
                Scenario.fresh in
  Dict.get "acme/maps" (stored_state Scenario.fresh) = None
  /\ read_file_remote ("acme", "maps") (snd run_)
     = Some ["https://data.example.org/maps.zip data"]
  /\ fst run_ = Raised (KeyError "acme/maps")
  /\ downloads (snd run_) = []
  /\ state_file (snd run_) = None
  /\ path_exists ("acme", "maps") (snd run_) = true.
Proof. vm_compute. repeat split; reflexivity. Qed.

(** C2, at its failing input: [acme/drivers] is installed at an old commit
    and the hosting service has a newer one. The call returns, the working
    copy is left at the new commit, and the hash written to the state file
    is the old one. *)
Theorem upgrade_records_old_hash :
  let run_ := install_addon Scenario.hub Scenario.any_archive 2
                "acme/drivers" Scenario.drivers_outdated in
  fst run_ = Ok ["acme/drivers"]
  /\ (exists d g, lookup_dir ("acme", "drivers") (snd run_) = Some d
        /\ dot_git d = Some g /\ sha (HEAD g) = Scenario.sha_drivers)
  /\ (exists rec, Dict.get "acme/drivers" (stored_state (snd run_)) = Some rec
        /\ hash rec = Some Scenario.sha_drivers_old)
  /\ Scenario.sha_drivers_old <> Scenario.sha_drivers.
Proof.
  vm_compute. repeat split.
  - eexists _, _. repeat split; reflexivity.
  - eexists. split; reflexivity.
  - discriminate.
Qed.

(** After a fresh clone the recorded hash is the cloned HEAD. *)
Example clone_records_head :
  let run_ := install_addon Scenario.hub Scenario.any_archive 2
                "acme/drivers" Scenario.fresh in
  fst run_ = Ok ["acme/drivers"]
  /\ (exists d g, lookup_dir ("acme", "drivers") (snd run_) = Some d
        /\ dot_git d = Some g /\ sha (HEAD g) = Scenario.sha_drivers)
  /\ (exists rec, Dict.get "acme/drivers" (stored_state (snd run_)) = Some rec
        /\ hash rec = Some Scenario.sha_drivers).
Proof.
  vm_compute. repeat split.
  - eexists _, _. repeat split; reflexivity.
  - eexists. split; reflexivity.
Qed.

(** ** [remove_addons] *)

(** The first half of [remove_addons] reads the state and changes
    nothing. *)
Lemma removal_lists_run (string_ : option string) (rd : bool) (w : world) :
  let st := stored_state w in
  let string1 := match string_ with
                 | None | Some EmptyString => Str.join "," (Dict.keys st)
                 | Some s => s
                 end in
  removal_lists string_ rd w
  = if String.eqb string1 "" then (Ok None, w)
    else match (if rd then extend_dependents st (Str.split "," string1) []
                else Ok []) with
         | Ok ds => (Ok (Some (Str.split "," string1, ds)), w)
         | Raised e => (Raised e, w)
         end.
Proof.
  unfold removal_lists, bind, get_state, gets, ret, lift.
  destruct string_ as [[|c s]|]; cbv beta iota zeta;
    match goal with
    | |- context [String.eqb ?a ""] => destruct (String.eqb a "")
    end; try reflexivity;
    destruct rd; try reflexivity;
    match goal with
    | |- context [extend_dependents ?a ?b ?c] =>
        destruct (extend_dependents a b c)
    end; reflexivity.
Qed.

Lemma dependents_ok (a : string) (st : state) (ks : list string) :
  records_have_deps st ->
  (forall k, In k ks -> Dict.mem k st = true) ->
  exists ds,
    dependents a st ks = Ok ds
    /\ forall y, In y ds <->
         In y ks /\ exists rec l,
           Dict.get y st = Some rec /\ deps rec = Some l /\ In a l.
Proof.
  intros Hwf. induction ks as [|k ks IH]; intros Hks.
  - exists []. split; [reflexivity|]. intros y. simpl. tauto.
  - destruct IH as (ds & Hds & Hspec).
    { intros k' Hk'. apply Hks. now right. }
    assert (Hk : exists rec, Dict.get k st = Some rec).
    { apply DictFacts.mem_get. apply Hks. now left. }
    destruct Hk as [rec Hrec]. destruct (Hwf _ _ Hrec) as [l Hl].
    cbn [dependents]. rewrite Hrec, Hl, Hds.
    destruct (bool_decide (a ∈ l)) eqn:Hin.
    + apply bool_decide_eq_true in Hin. apply list_elem_of_In in Hin.
      eexists. split; [reflexivity|]. intros y. simpl. rewrite Hspec.
      split.
      * intros [<- | [Hy Hex]]; [|tauto]. split; [now left | eauto].
      * intros [[<- | Hy] Hex]; [now left | right; tauto].
    + apply bool_decide_eq_false in Hin. rewrite list_elem_of_In in Hin.
      eexists. split; [reflexivity|]. intros y. rewrite Hspec. simpl.
      split; [tauto|].
      intros [[<- | Hy] Hex]; [|tauto].
      destruct Hex as (rec' & l' & Hrec' & Hl' & Ha).
      rewrite Hrec in Hrec'. injection Hrec' as <-.
      rewrite Hl in Hl'. injection Hl' as <-. contradiction.
Qed.

Lemma extend_dependents_ok (st : state) (addons acc : list string) :
  records_have_deps st ->
  exists ds,
    extend_dependents st addons acc = Ok ds
    /\ forall y, In y ds <->
         In y acc \/ exists a rec l,
           In a addons /\ Dict.get y st = Some rec /\ deps rec = Some l
           /\ In a l.
Proof.
  intros Hwf. revert acc. induction addons as [|a addons IH]; intros acc.
  - exists acc. split; [reflexivity|]. intros y. split; [tauto|].
    intros [?|(a & ? & ? & [] & _)]. assumption.
  - destruct (dependents_ok a st (Dict.keys st) Hwf) as (l & Hl & Hspec).
    { intros k Hk. now apply DictFacts.mem_keys. }
    destruct (IH (acc ++ l)) as (ds & Hds & Hspec').
    exists ds. cbn [extend_dependents]. rewrite Hl. split; [exact Hds|].
    intros y. rewrite Hspec', in_app_iff, Hspec. split.
    + intros [[Hacc | [_ (rec & l0 & H1 & H2 & H3)]] | Hex].
      * now left.
      * right. exists a, rec, l0. simpl. tauto.
      * right. destruct Hex as (a' & rec & l0 & H0 & H1 & H2 & H3).
        exists a', rec, l0. simpl. tauto.
    + intros [Hacc | (a' & rec & l0 & [<- | H0] & H1 & H2 & H3)].
      * now left; left.
      * left; right. split; [|eauto].
        apply DictFacts.mem_keys, DictFacts.mem_get. eauto.
      * right. eauto 10.
Qed.

Lemma not_confirmed (input : string) :
  input <> "y" -> input <> "Y" -> input <> "yes" -> confirmed input = false.
Proof.
  intros H1 H2 H3. unfold confirmed. simpl.
  apply String.eqb_neq in H1, H2, H3. rewrite H1, H2, H3. reflexivity.
Qed.

(** C6: when the answer at the prompt is not 'y', 'Y' or 'yes',
    [remove_addons] leaves the install root, the state file and the
    downloads exactly as they were; and it returns normally whenever every
    record of the state has its 'deps' list. *)
Theorem remove_addons_declined (string_ : option string) (rd : bool)
  (input : string) (w : world) :
  input <> "y" -> input <> "Y" -> input <> "yes" ->
  snd (remove_addons string_ rd input w) = w
  /\ (records_have_deps (stored_state w) ->
      remove_addons string_ rd input w = (Ok tt, w)).
Proof.
  intros H1 H2 H3. pose proof (not_confirmed _ H1 H2 H3) as Hno.
  unfold remove_addons, bind. rewrite removal_lists_run. cbv zeta.
  rewrite Hno. cbn [negb].
  destruct (String.eqb _ ""); [split; reflexivity|].
  destruct rd.
  - split.
    + destruct (extend_dependents _ _ _); reflexivity.
    + intros Hwf.
      destruct (extend_dependents_ok (stored_state w)
                  (Str.split ","
                     match string_ with
                     | Some EmptyString | None =>
                         Str.join "," (Dict.keys (stored_state w))
                     | Some s => s
                     end) [] Hwf) as (ds & -> & _).
      reflexivity.
  - split; reflexivity.
Qed.

Lemma remove_addons_declined_witness :
  snd (remove_addons None true "n" Scenario.sensors_installed)
  = Scenario.sensors_installed
  /\ (records_have_deps (stored_state Scenario.sensors_installed) ->
      remove_addons None true "n" Scenario.sensors_installed
      = (Ok tt, Scenario.sensors_installed)).
Proof.
  apply (remove_addons_declined None true "n" Scenario.sensors_installed);
    discriminate.
Defined.

(** A check of [records_have_deps] that computes. *)
Lemma records_have_deps_check (st : state) :
  forallb (fun kv => match deps (snd kv) with
                     | Some _ => true
                     | None => false
                     end) st = true ->
  records_have_deps st.
Proof.
  intros Hall k rec. induction st as [|[k' v'] st IH]; simpl in *.
  - discriminate.
  - apply andb_true_iff in Hall. destruct Hall as [Hv Hst].
    destruct (String.eqb k' k).
    + intros [= <-]. destruct (deps v'); [eauto | discriminate].
    + apply IH. exact Hst.
Qed.

Lemma plain_keys_roundtrip (l : list string) :
  l <> [] -> Forall plain_key l ->
  String.eqb (Str.join "," l) "" = false
  /\ Str.split "," (Str.join "," l) = l.
Proof.
  intros Hne Hall. split.
  - apply String.eqb_neq. apply StrFacts.join_nonempty; [exact Hne|].
    eapply List.Forall_impl; [|exact Hall]. intros k [Hk _]. exact Hk.
  - apply (StrFacts.split_join "," l Hne).
    eapply List.Forall_impl; [|exact Hall]. intros k [_ Hk]. exact Hk.
Qed.

(** C5, as stated, fails in two ways. With a key that contains a comma
    the default list is not the list of installed add-ons: the one add-on
    ['acme/a,b'] is recorded, and [remove_addons] without a list sets out
    to remove ['acme/a'] and ['b'], and raises at the first. And the
    dependents are found by comparing strings: [acme/sensors] lists
    ['acme/drivers'], and asked to remove that add-on under its URL, which
    resolves to the same canonical name, the manager adds no dependent. *)
Lemma removal_list_is_built_from_strings :
  (Dict.keys (stored_state Scenario.comma_world) = ["acme/a,b"]
   /\ removal_lists None true Scenario.comma_world
      = (Ok (Some (["acme/a"; "b"], [])), Scenario.comma_world)
   /\ ~ In "acme/a,b" ["acme/a"; "b"]
   /\ remove_addons None true "y" Scenario.comma_world
      = (Raised (RuntimeError (NotFoundAt "acme/a" "acme" "a")),
         Scenario.comma_world))
  /\ ((exists rec,
         Dict.get "acme/sensors" (stored_state Scenario.sensors_installed)
         = Some rec
         /\ deps rec = Some ["acme/drivers"])
      /\ _parse_name "https://github.com/acme/drivers"
         = Ok ("https://github.com/acme/drivers", "acme", "drivers",
               "acme/drivers")
      /\ removal_lists (Some "https://github.com/acme/drivers") true
           Scenario.sensors_installed
         = (Ok (Some (["https://github.com/acme/drivers"], [])),
            Scenario.sensors_installed)).
Proof.
  split.
  - split; [reflexivity|]. split; [reflexivity|].
    split; [|vm_compute; reflexivity].
    intros [H | [H | []]]; discriminate.
  - split; [eexists; split; vm_compute; reflexivity|].
    split; vm_compute; reflexivity.
Qed.

(** C5, amended: the add-ons [remove_addons] sets out to remove, when every
    record has its 'deps' list. With [None] or the empty string the
    requested list is the list of the keys of the state, provided these
    are non-empty and free of commas (the separator of the list);
    otherwise it is the given list. With [remove_dependents] the list is
    extended by exactly the installed add-ons whose 'deps' list contains
    one of the requested strings as it was given, and by nothing when it
    is off: dependents of dependents are not added. Once confirmed,
    [remove_addon] runs over the requested names followed by the
    dependents. *)
Theorem remove_addons_targets (string_ : option string) (rd : bool)
  (w : world) :
  let st := stored_state w in
  let requested := match string_ with
                   | None | Some EmptyString => Dict.keys st
                   | Some s => Str.split "," s
                   end in
  records_have_deps st ->
  (string_ = None \/ string_ = Some "" -> Forall plain_key (Dict.keys st)) ->
  exists ds,
    removal_lists string_ rd w
    = (Ok (match requested with
           | [] => None
           | _ => Some (requested, ds)
           end), w)
    /\ (forall y, In y ds <->
          rd = true
          /\ exists a rec l,
               In a requested /\ Dict.get y st = Some rec
               /\ deps rec = Some l /\ In a l)
    /\ (forall input, confirmed input = true ->
          remove_addons string_ rd input w
          = for_each remove_addon (requested ++ ds) w).
Proof.
  intros st requested Hwf Hplain.
  set (string1 := match string_ with
                  | None | Some EmptyString => Str.join "," (Dict.keys st)
                  | Some s => s
                  end).
  assert (Hreq : (requested = [] /\ String.eqb string1 "" = true)
                 \/ (requested <> [] /\ String.eqb string1 "" = false
                     /\ Str.split "," string1 = requested)).
  { assert (Hdefault : string_ = None \/ string_ = Some "" ->
              string1 = Str.join "," (Dict.keys st)
              /\ requested = Dict.keys st).
    { intros [-> | ->]; split; reflexivity. }
    destruct string_ as [[|c s]|].
    - destruct (Hdefault (or_intror eq_refl)) as [-> ->].
      destruct (Dict.keys st) as [|k ks] eqn:Hk; [left; split; reflexivity|].
      right. split; [discriminate|].
      apply plain_keys_roundtrip; [discriminate|]. apply Hplain. now right.
    - right. subst requested string1. split; [apply StrFacts.split_not_nil|].
      split; reflexivity.
    - destruct (Hdefault (or_introl eq_refl)) as [-> ->].
      destruct (Dict.keys st) as [|k ks] eqn:Hk; [left; split; reflexivity|].
      right. split; [discriminate|].
      apply plain_keys_roundtrip; [discriminate|]. apply Hplain. now left. }
  destruct (extend_dependents_ok st requested [] Hwf) as (ds0 & Hds0 & Hspec0).
  exists (if rd then ds0 else []).
  assert (Hrun : removal_lists string_ rd w
                 = (Ok match requested with
                       | [] => None
                       | _ => Some (requested, if rd then ds0 else [])
                       end, w)).
  { rewrite removal_lists_run. fold st. cbv zeta. fold string1.
    destruct Hreq as [[Hnil Hs] | (Hnn & Hs & Hsplit)]; rewrite Hs.
    - rewrite Hnil. reflexivity.
    - rewrite Hsplit. destruct rd; [rewrite Hds0|];
        destruct requested; congruence. }
  split; [exact Hrun|]. split.
  - intros y. destruct rd.
    + rewrite Hspec0. simpl. split.
      * intros [[]|Hex]. split; [reflexivity | exact Hex].
      * intros [_ Hex]. right. exact Hex.
    + simpl. split; [contradiction | intros [[=] _]].
  - intros input Hyes. unfold remove_addons, bind. rewrite Hrun, Hyes.
    cbn [negb].
    destruct requested as [|a l] eqn:Hreq'; [|reflexivity].
    assert (Hnil : (if rd then ds0 else []) = []).
    { destruct rd; [|reflexivity]. destruct ds0 as [|y ds0]; [reflexivity|].
      exfalso. destruct (proj1 (Hspec0 y) (or_introl eq_refl))
        as [[]|(a & _ & _ & [] & _)]. }
    rewrite Hnil. reflexivity.
Qed.

(** The example of the claim: [acme/sensors] lists [acme/drivers] in its
    'deps'; asked to remove [acme/drivers], the manager adds
    [acme/sensors]. *)
Lemma remove_addons_targets_witness :
  exists ds,
    removal_lists (Some "acme/drivers") true Scenario.sensors_installed
    = (Ok (Some (["acme/drivers"], ds)), Scenario.sensors_installed)
    /\ (forall y, In y ds <->
          true = true
          /\ exists a rec l,
               In a ["acme/drivers"]
               /\ Dict.get y (stored_state Scenario.sensors_installed)
                  = Some rec
               /\ deps rec = Some l /\ In a l)
    /\ (forall input, confirmed input = true ->
          remove_addons (Some "acme/drivers") true input
            Scenario.sensors_installed
          = for_each remove_addon (["acme/drivers"] ++ ds)
              Scenario.sensors_installed).
Proof.
  apply (remove_addons_targets (Some "acme/drivers") true
           Scenario.sensors_installed).
  - apply records_have_deps_check. vm_compute. reflexivity.
  - intros [? | ?]; discriminate.
Defined.

Example remove_addons_adds_dependent :
  removal_lists (Some "acme/drivers") true Scenario.sensors_installed
  = (Ok (Some (["acme/drivers"], ["acme/sensors"])),
     Scenario.sensors_installed).
Proof. vm_compute. reflexivity. Qed.

(** One level only: [w/z] depends on [w/y], which depends on [w/x]; asked
    to remove [w/x], the manager adds [w/y] and not [w/z]. *)
Example remove_addons_one_level :
  removal_lists (Some "w/x") true Scenario.chain_world
  = (Ok (Some (["w/x"], ["w/y"])), Scenario.chain_world).
Proof. reflexivity. Qed.

(** Nothing given: every installed add-on is requested. *)
Example remove_addons_default_all :
  removal_lists None false Scenario.chain_world
  = (Ok (Some (["w/x"; "w/y"; "w/z"], [])), Scenario.chain_world).
Proof. reflexivity. Qed.

(** ** The state file and the install root *)

Lemma dir_name_slash_free (s : string) :
  dir_name s = true -> Str.count "/" s = 0.
Proof.
  unfold dir_name. rewrite !andb_true_iff. intros [[[_ H] _] _].
  apply Nat.eqb_eq. exact H.
Qed.

Lemma tidy_name_parsed (name url u r c : string) :
  tidy_name name = true -> _parse_name name = Ok (url, u, r, c) ->
  dir_name u = true /\ dir_name r = true.
Proof.
  unfold tidy_name. intros H Hp. rewrite Hp in H.
  apply andb_true_iff. exact H.
Qed.

Lemma consistent_but_nil (w : world) : consistent w <-> consistent_but [] w.
Proof.
  unfold consistent, consistent_but. split.
  - intros H u r Hu Hr. destruct (H u r Hu Hr) as [H1 H2]. split; auto.
  - intros H u r Hu Hr. destruct (H u r Hu Hr) as [H1 H2]. split; [auto|].
    intros Hex. destruct (H2 Hex) as [?|[]]. assumption.
Qed.

Lemma consistent_fresh : consistent Scenario.fresh.
Proof.
  intros u r _ _. unfold path_exists, lookup_dir, _addon_path. simpl.
  rewrite lookup_empty. split; discriminate.
Qed.

(** A command run in the install directory creates and removes no
    directory and does not touch the state file. *)
Lemma run_frame {A} (cmd : addon_dir -> A * addon_dir) (p : string * string)
  (w : world) :
  state_file (snd (run cmd p w)) = state_file w
  /\ forall q, path_exists q (snd (run cmd p w)) = path_exists q w.
Proof.
  unfold run. destruct (lookup_dir p w) as [d|] eqn:Hd.
  - destruct (cmd d) as [a d']. cbn [snd]. split; [reflexivity|].
    intros q. apply (FsFacts.path_exists_write_dir _ _ _ _ _ Hd).
  - split; reflexivity.
Qed.

(** Destructs the first [run] of the goal, keeping its frame. *)
Ltac step_run :=
  match goal with
  | |- context [run ?c ?p ?w] =>
      let Hs := fresh "Hstate" in
      let Hp := fresh "Hpaths" in
      destruct (run_frame c p w) as [Hs Hp];
      destruct (run c p w) as [[?|?] ?]; cbn [snd] in Hs, Hp;
      cbv beta iota
  end.

Lemma clone_or_upgrade_frame (server : string -> option repository)
  (url name : string) (p : string * string) (w : world) :
  let w' := snd (clone_or_upgrade server url name p w) in
  state_file w' = state_file w
  /\ forall q, path_exists q w' = path_exists q w.
Proof.
  unfold clone_or_upgrade, bind, gets, ret, raise. cbv beta iota.
  destruct (has_dot_git p w); cbn [negb].
  - repeat step_run; try (cbn [snd]; split; [congruence|];
                          intros q; congruence).
    destruct (String.eqb _ _); cbv beta iota; repeat step_run;
      cbn [snd]; (split; [congruence | intros q; congruence]).
  - step_run; [|cbn [snd]; split; [congruence | intros q; congruence]].
    destruct (Nat.eqb _ 0); [step_run|];
      cbn [snd]; (split; [congruence | intros q; congruence]).
Qed.

Lemma same_state_file (w w' : world) :
  state_file w' = state_file w ->
  forall k, Dict.mem k (stored_state w') = Dict.mem k (stored_state w).
Proof. intros H k. unfold stored_state. rewrite H. reflexivity. Qed.

Ltac frame_done :=
  cbn [snd]; split; [apply same_state_file; congruence | intros; congruence].

Lemma fetch_remote_data_frame (archive_host : string -> served) (name : string)
  (p : string * string) (w : world) :
  let w' := snd (fetch_remote_data archive_host name p w) in
  (forall k, Dict.mem k (stored_state w') = Dict.mem k (stored_state w))
  /\ forall q, path_exists q w' = path_exists q w.
Proof.
  unfold fetch_remote_data, bind, get_state, gets, ret, raise.
  cbv beta iota zeta.
  destruct (read_file_remote p w) as [[|line rest]|];
    [split; reflexivity | | split; reflexivity].
  destruct (Str.split " " (Str.strip line)) as [|remote_ [|target [|? ?]]];
    try (split; reflexivity).
  destruct (Dict.get name (stored_state w)) as [rec|];
    [|split; reflexivity].
  destruct (remote_is_new rec remote_ target); [|split; reflexivity].
  unfold run_wget, bind, modify. cbv beta iota.
  set (w0 := with_downloads (downloads w ++ [remote_]) w).
  assert (H0 : state_file w0 = state_file w
               /\ forall q, path_exists q w0 = path_exists q w)
    by (split; reflexivity).
  destruct H0 as [Hs0 Hp0]. clearbody w0.
  step_run; [|frame_done].
  destruct (negb (Nat.eqb _ 0)).
  { frame_done. }
  assert (Hfinal : forall w3 : world,
            state_file w3 = state_file w ->
            (forall q, path_exists q w3 = path_exists q w) ->
            let w' := snd (dump_state
                             (Dict.update name (set_remote_target target)
                                (Dict.update name (set_remote remote_)
                                   (stored_state w))) w3) in
            (forall k, Dict.mem k (stored_state w')
                       = Dict.mem k (stored_state w))
            /\ forall q, path_exists q w' = path_exists q w).
  { intros w3 Hs3 Hp3. cbn. split.
    - intros k. rewrite !DictFacts.mem_update. reflexivity.
    - exact Hp3. }
  destruct (target_exists p target _).
  - step_run; [|frame_done].
    step_run; [|frame_done].
    apply Hfinal; [congruence | intros q; congruence].
  - step_run; [|frame_done].
    apply Hfinal; [congruence | intros q; congruence].
Qed.

Lemma ensure_install_path_frame (p : string * string) (w : world) :
  let w' := snd (ensure_install_path p w) in
  fst (ensure_install_path p w) = Ok tt
  /\ state_file w' = state_file w
  /\ forall q, path_exists q w' = bool_decide (q = p) || path_exists q w.
Proof.
  unfold ensure_install_path, bind, gets, modify, ret. cbv beta iota.
  destruct (path_exists p w) eqn:Hex; cbn [negb fst snd].
  - repeat split. intros q. destruct (bool_decide (q = p)) eqn:Hq;
      [|reflexivity].
    apply bool_decide_eq_true in Hq. subst q. rewrite Hex. reflexivity.
  - repeat split. intros q. apply FsFacts.path_exists_makedirs.
Qed.

(** The steps before the dependencies are read add the install directory
    and nothing else, and keep the keys of the state. *)
Lemma prepare_frame (server : string -> option repository)
  (archive_host : string -> served) (url name current : string)
  (p : string * string) (w w1 : world) :
  prepare server archive_host url name p w = (Ok current, w1) ->
  (forall k, Dict.mem k (stored_state w1) = Dict.mem k (stored_state w))
  /\ forall q, path_exists q w1 = bool_decide (q = p) || path_exists q w.
Proof.
  unfold prepare, bind.
  destruct (ensure_install_path_frame p w) as (_ & Hsa & Hpa).
  destruct (ensure_install_path p w) as [[[]|e] wa]; [|discriminate].
  cbn [snd] in Hsa, Hpa.
  destruct (clone_or_upgrade_frame server url name p wa) as (Hsb & Hpb).
  destruct (clone_or_upgrade server url name p wa) as [[cur|e] wb];
    [|discriminate].
  cbn [snd] in Hsb, Hpb.
  destruct (fetch_remote_data_frame archive_host name p wb) as (Hsc & Hpc).
  destruct (fetch_remote_data archive_host name p wb) as [[[]|e] wc];
    [|discriminate].
  cbn [snd] in Hsc, Hpc. unfold ret. intros [= <- <-]. split.
  - intros k. rewrite Hsc. apply same_state_file. congruence.
  - intros q. rewrite Hpc, Hpb, Hpa. reflexivity.
Qed.

Lemma keeps_paths_refl (w : world) : keeps_paths w w.
Proof. intros q H. exact H. Qed.

Lemma keeps_paths_trans (w1 w2 w3 : world) :
  keeps_paths w1 w2 -> keeps_paths w2 w3 -> keeps_paths w1 w3.
Proof. intros H12 H23 q H. apply H23, H12, H. Qed.

(** A property that every returning call keeps is kept by the loop over
    the dependencies. *)
Lemma installs_invariant (f : string -> M (list string))
  (Q : world -> Prop) (l : list string) (w w' : world)
  (rs : list (list string)) :
  (forall x v r v', f x v = (Ok r, v') -> Q v -> Q v' /\ keeps_paths v v') ->
  installs f l w rs w' -> Q w -> Q w' /\ keeps_paths w w'.
Proof.
  intros Hf. induction 1 as [w|d ds w r w1 rs w2 Hd Hds IH]; intros HQ.
  - split; [exact HQ | apply keeps_paths_refl].
  - destruct (Hf _ _ _ _ Hd HQ) as [HQ1 Hk1].
    destruct (IH HQ1) as [HQ2 Hk2].
    split; [exact HQ2 | eapply keeps_paths_trans; eassumption].
Qed.

Section ConsistencyFacts.

Variable server : string -> option repository.
Variable archive_host : string -> served.

(** A call of [install_addon] that returns leaves the state file and the
    install root in agreement, up to the add-ons still being installed by
    its callers, and removes no directory. *)
Lemma install_addon_consistent_but (fuel : nat) :
  forall name pending w ret_ w',
    consistent_but pending w ->
    install_addon server archive_host fuel name w = (Ok ret_, w') ->
    consistent_but pending w' /\ keeps_paths w w'.
Proof.
  induction fuel as [|n IH]; intros name pending w ret_ w' Hinv Hrun.
  - discriminate.
  - destruct (install_addon_parse _ _ _ _ _ _ _ Hrun)
      as (n0 & url & u & r & c & _ & Hp).
    destruct (parse_name_ok _ _ _ _ _ Hp) as (Hu & Hr & ->).
    rewrite (install_addon_S _ _ _ _ _ _ _ _ _ Hp) in Hrun.
    destruct (prepare server archive_host url (u +:+ "/" +:+ r) (u, r) w)
      as [[current|e] w1] eqn:Hprep; [|discriminate].
    cbv zeta in Hrun.
    destruct (extend_each (install_addon server archive_host n) _
                [u +:+ "/" +:+ r] w1)
      as [[res|e] w2] eqn:Hloop; [|discriminate].
    injection Hrun as _ <-.
    destruct (prepare_frame _ _ _ _ _ _ _ _ Hprep) as [Hk1 Hq1].
    apply extend_each_ok in Hloop. destruct Hloop as (rs & Hrs & _).
    assert (H1 : consistent_but ((u +:+ "/" +:+ r) :: pending) w1).
    { intros u' r' Hu' Hr'. destruct (Hinv u' r' Hu' Hr') as [Ha Hb].
      unfold _addon_path in *. rewrite Hk1, Hq1. split.
      - intros Hm. rewrite (Ha Hm). apply orb_true_r.
      - intros Hex. apply orb_true_iff in Hex. destruct Hex as [Heq | Hex].
        + apply bool_decide_eq_true in Heq. injection Heq as -> ->.
          right. left. reflexivity.
        + destruct (Hb Hex); [left | right; right]; assumption. }
    destruct (installs_invariant _
                (consistent_but ((u +:+ "/" +:+ r) :: pending))
                _ _ _ _ (fun x v r0 v' Hx Hv => IH _ _ _ _ _ Hv Hx) Hrs H1)
      as [H2 Hmono2].
    split.
    + intros u' r' Hu' Hr'. destruct (H2 u' r' Hu' Hr') as [Ha Hb].
      apply dir_name_slash_free in Hu', Hr'.
      unfold _addon_path in *.
      change (path_exists (u', r') (with_state_file ?s w2))
        with (path_exists (u', r') w2).
      cbn [stored_state with_state_file state_file].
      rewrite mem_saved_state. split.
      * intros Hm. apply orb_true_iff in Hm. destruct Hm as [Heq | Hm].
        -- apply String.eqb_eq in Heq.
           apply StrFacts.owner_repo_inj in Heq; [|assumption..].
           destruct Heq as [-> ->]. apply Hmono2. rewrite Hq1.
           rewrite bool_decide_eq_true_2 by reflexivity. reflexivity.
        -- apply Ha. exact Hm.
      * intros Hex. destruct (Hb Hex) as [Hm | [Heq | Hin]].
        -- left. rewrite Hm. apply orb_true_r.
        -- left. rewrite <- Heq, String.eqb_refl. reflexivity.
        -- right. exact Hin.
    + intros q Hq.
      change (path_exists q w2 = true). apply Hmono2.
      rewrite Hq1, Hq. apply orb_true_r.
Qed.

Lemma install_addon_consistent (fuel : nat) (name : string) (w w' : world)
  (ret_ : list string) :
  consistent w ->
  install_addon server archive_host fuel name w = (Ok ret_, w') ->
  consistent w' /\ keeps_paths w w'.
Proof.
  intros Hc Hrun. apply consistent_but_nil in Hc.
  destruct (install_addon_consistent_but _ _ _ _ _ _ Hc Hrun) as [H1 H2].
  split; [apply consistent_but_nil; exact H1 | exact H2].
Qed.

Lemma install_addons_consistent (fuel : nat) (string_ : string)
  (remove_extras : bool) (w w' : world) (ret_ : list string) :
  consistent w ->
  install_addons server archive_host fuel string_ remove_extras w
  = (Ok ret_, w') ->
  consistent w'.
Proof.
  intros Hc Hrun. unfold install_addons in Hrun.
  apply extend_each_ok in Hrun. destruct Hrun as (rs & Hrs & _).
  apply (installs_invariant _ consistent _ _ _ _
           (fun x v r v' Hx Hv => install_addon_consistent _ _ _ _ _ Hv Hx)
           Hrs Hc).
Qed.

End ConsistencyFacts.

(** [remove_addon] of a tidy name keeps the agreement, whether it returns
    or raises. *)
Lemma remove_addon_consistent (name : string) (w : world) :
  tidy_name name = true ->
  consistent w -> consistent (snd (remove_addon name w)).
Proof.
  intros Htidy Hc.
  destruct (_parse_name name) as [[[[url u] r] c]|e] eqn:Hp.
  2:{ unfold remove_addon, bind, lift. rewrite Hp. exact Hc. }
  destruct (tidy_name_parsed _ _ _ _ _ Htidy Hp) as [Hdu Hdr].
  rewrite (remove_addon_run _ _ _ _ _ _ Hp).
  destruct (parse_name_ok _ _ _ _ _ Hp) as (Hu & Hr & ->).
  destruct (path_exists (u, r) w) eqn:Hex; cbn [negb]; [|exact Hc].
  cbv zeta.
  assert (Hmem : Dict.mem (u +:+ "/" +:+ r) (stored_state w) = true).
  { apply (Hc u r Hdu Hdr). exact Hex. }
  rewrite Hmem. cbn [snd].
  intros u' r' Hu' Hr'. pose proof (Hc u' r' Hu' Hr') as Hc'.
  apply dir_name_slash_free in Hu', Hr'.
  unfold _addon_path, path_exists.
  rewrite FsFacts.lookup_dir_with_state_file.
  pose proof (FsFacts.lookup_dir_removed (u', r') (u, r) w) as Hl.
  cbv zeta in Hl. rewrite Hl.
  cbn [stored_state with_state_file state_file].
  rewrite DictFacts.mem_del.
  destruct (decide ((u', r') = (u, r))) as [Heq | Hne].
  - injection Heq as -> ->. rewrite String.eqb_refl.
    split; discriminate.
  - assert (Hk : String.eqb (u' +:+ "/" +:+ r') (u +:+ "/" +:+ r) = false).
    { apply String.eqb_neq. intros Heq.
      apply StrFacts.owner_repo_inj in Heq; [|assumption..].
      destruct Heq as [-> ->]. contradiction. }
    rewrite Hk. cbn [negb andb]. exact Hc'.
Qed.

Lemma for_each_remove_consistent (l : list string) (w : world) :
  forallb tidy_name l = true ->
  consistent w -> consistent (snd (for_each remove_addon l w)).
Proof.
  revert w. induction l as [|x l IH]; intros w Hl Hc; [exact Hc|].
  cbn [forallb] in Hl. apply andb_true_iff in Hl. destruct Hl as [Hx0 Hl].
  cbn [for_each]. unfold bind.
  pose proof (remove_addon_consistent x w Hx0 Hc) as Hx.
  destruct (remove_addon x w) as [[[]|e] w1]; cbn [snd] in Hx.
  - apply IH; assumption.
  - exact Hx.
Qed.

(** [remove_addons] keeps the agreement when the names on its removal
    list are tidy. *)
Lemma remove_addons_consistent (string_ : option string) (rd : bool)
  (input : string) (w : world) :
  (forall addons ds,
      fst (removal_lists string_ rd w) = Ok (Some (addons, ds)) ->
      forallb tidy_name (addons ++ ds) = true) ->
  consistent w -> consistent (snd (remove_addons string_ rd input w)).
Proof.
  intros Hl Hc. unfold remove_addons, bind. revert Hl.
  rewrite removal_lists_run.
  cbv zeta. destruct (String.eqb _ ""); [intros _; exact Hc|].
  destruct (if rd then _ else _) as [ds|e]; [|intros _; exact Hc].
  cbn [fst]. intros Hl.
  destruct (negb (confirmed input)); [exact Hc|].
  apply for_each_remove_consistent; [|exact Hc].
  apply Hl. reflexivity.
Qed.

(** ** Tidy install roots *)

Lemma tidy_world_spec (w : world) :
  tidy_world w = true
  <-> forall p d, lookup_dir p w = Some d ->
        dir_name (fst p) = true /\ dir_name (snd p) = true
        /\ tidy_dir d = true.
Proof.
  unfold tidy_world. rewrite forallb_forall. split.
  - intros H [u r] d Hl. unfold lookup_dir in Hl. cbn [fst snd] in *.
    destruct (fs w !! u) as [parent|] eqn:Hu; [|discriminate].
    assert (Hin : In (u, parent) (map_to_list (fs w))).
    { apply list_elem_of_In, elem_of_map_to_list. exact Hu. }
    specialize (H _ Hin). cbn [fst snd] in H. rewrite forallb_forall in H.
    assert (Hin' : In (r, d) (map_to_list parent)).
    { apply list_elem_of_In, elem_of_map_to_list. exact Hl. }
    specialize (H _ Hin'). cbn [fst snd] in H.
    rewrite !andb_true_iff in H. tauto.
  - intros H [u parent] Hin. apply list_elem_of_In, elem_of_map_to_list in Hin.
    cbn [fst snd]. rewrite forallb_forall. intros [r d] Hin'.
    apply list_elem_of_In, elem_of_map_to_list in Hin'. cbn [fst snd].
    destruct (H (u, r) d) as (Hu & Hr & Hd).
    { unfold lookup_dir. cbn [fst snd]. rewrite Hin. exact Hin'. }
    cbn [fst snd] in Hu, Hr. rewrite Hu, Hr, Hd. reflexivity.
Qed.

(** A world with no more directories than a tidy one, each as it is there
    or tidy, is tidy. *)
Lemma tidy_world_from (w w' : world) :
  tidy_world w = true ->
  (forall p d, lookup_dir p w' = Some d ->
     lookup_dir p w = Some d
     \/ (dir_name (fst p) = true /\ dir_name (snd p) = true
         /\ tidy_dir d = true)) ->
  tidy_world w' = true.
Proof.
  intros Hw H. apply tidy_world_spec. intros p d Hl.
  destruct (H p d Hl) as [Hold | Hnew]; [|exact Hnew].
  apply (proj1 (tidy_world_spec w) Hw p d Hold).
Qed.

Lemma keeps_bind {A B} (m : M A) (f : A -> M B) (post : A -> Prop)
  (post' : B -> Prop) :
  keeps_tidy m post -> (forall a, post a -> keeps_tidy (f a) post') ->
  keeps_tidy (bind m f) post'.
Proof.
  intros Hm Hf w Hw. unfold bind. destruct (Hm w Hw) as [H1 H2].
  destruct (m w) as [[a|e] w1]; cbn [fst snd] in *.
  - apply (Hf a (H2 a eq_refl) w1 H1).
  - split; [exact H1 | intros a; discriminate].
Qed.

Lemma keeps_ret {A} (a : A) (post : A -> Prop) :
  post a -> keeps_tidy (ret a) post.
Proof. intros Ha w Hw. split; [exact Hw | intros a' [= <-]; exact Ha]. Qed.

Lemma keeps_raise {A} (e : exn) (post : A -> Prop) :
  keeps_tidy (raise e) post.
Proof. intros w Hw. split; [exact Hw | intros a; discriminate]. Qed.

Lemma keeps_gets {A} (f : world -> A) (post : A -> Prop) :
  (forall w, tidy_world w = true -> post (f w)) -> keeps_tidy (gets f) post.
Proof.
  intros Hf w Hw. split; [exact Hw | intros a [= <-]; apply Hf, Hw].
Qed.

Lemma keeps_lift {A} (o : outcome A) (post : A -> Prop) :
  (forall a, o = Ok a -> post a) -> keeps_tidy (lift o) post.
Proof. intros Ho w Hw. split; [exact Hw | exact Ho]. Qed.

Lemma keeps_modify (f : world -> world) :
  (forall w, tidy_world w = true -> tidy_world (f w) = true) ->
  keeps_tidy (modify f) (fun _ => True).
Proof. intros Hf w Hw. split; [apply Hf, Hw | intros; exact I]. Qed.

(** A command that leaves a tidy directory tidy leaves the install root
    tidy. *)
Lemma keeps_run {A} (cmd : addon_dir -> A * addon_dir)
  (p : string * string) :
  (forall d, tidy_dir d = true -> tidy_dir (snd (cmd d)) = true) ->
  keeps_tidy (run cmd p) (fun _ => True).
Proof.
  intros Hcmd w Hw. split; [|intros; exact I]. unfold run.
  destruct (lookup_dir p w) as [d|] eqn:Hd; [|exact Hw].
  destruct (proj1 (tidy_world_spec w) Hw p d Hd) as (Hu & Hr & Htidy).
  specialize (Hcmd d Htidy). destruct (cmd d) as [a d']. cbn [snd] in *.
  apply (tidy_world_from w); [exact Hw|]. intros q dq.
  rewrite (FsFacts.lookup_dir_write_dir _ _ _ _ _ Hd).
  destruct (decide (q = p)) as [->|Hne]; [|auto].
  intros [= <-]. right. auto.
Qed.

Lemma makedirs_tidy (p : string * string) (w : world) :
  dir_name (fst p) = true -> dir_name (snd p) = true ->
  tidy_world w = true -> tidy_world (makedirs p w) = true.
Proof.
  intros Hu Hr Hw. apply (tidy_world_from w); [exact Hw|]. intros q dq.
  rewrite FsFacts.lookup_dir_makedirs.
  destruct (decide (q = p)) as [->|Hne]; [|auto].
  intros [= <-]. right. auto.
Qed.

Lemma ensure_install_path_tidy (p : string * string) :
  dir_name (fst p) = true -> dir_name (snd p) = true ->
  keeps_tidy (ensure_install_path p) (fun _ => True).
Proof.
  intros Hu Hr. unfold ensure_install_path.
  apply (keeps_bind _ _ (fun _ => True)); [apply keeps_gets; auto|].
  intros found _. destruct (negb found).
  - apply keeps_modify. intros w Hw. apply makedirs_tidy; assumption.
  - apply keeps_ret. exact I.
Qed.

Lemma remove_addon_tidy (name : string) (w : world) :
  tidy_world w = true -> tidy_world (snd (remove_addon name w)) = true.
Proof.
  intros Hw.
  destruct (_parse_name name) as [[[[url u] r] c]|e] eqn:Hp.
  2:{ unfold remove_addon, bind, lift. rewrite Hp. exact Hw. }
  rewrite (remove_addon_run _ _ _ _ _ _ Hp).
  destruct (negb (path_exists (u, r) w)); [exact Hw|]. cbv zeta.
  assert (H2 : tidy_world
                 (if parent_exists_and_empty (u, r) (rmtree (u, r) w)
                  then rmdir_parent (u, r) (rmtree (u, r) w)
                  else rmtree (u, r) w) = true).
  { apply (tidy_world_from w); [exact Hw|]. intros q dq.
    pose proof (FsFacts.lookup_dir_removed q (u, r) w) as Hl.
    cbv zeta in Hl. rewrite Hl.
    destruct (decide (q = (u, r))); [discriminate | auto]. }
  destruct (Dict.mem c (stored_state w)); exact H2.
Qed.

Lemma remove_addons_tidy (string_ : option string) (rd : bool)
  (input : string) (w : world) :
  tidy_world w = true ->
  tidy_world (snd (remove_addons string_ rd input w)) = true.
Proof.
  intros Hw. unfold remove_addons, bind. rewrite removal_lists_run.
  cbv zeta. destruct (String.eqb _ ""); [exact Hw|].
  destruct (if rd then _ else _) as [ds|e]; [|exact Hw].
  destruct (negb (confirmed input)); [exact Hw|].
  generalize (Str.split ","
                match string_ with
                | Some EmptyString | None =>
                    Str.join "," (Dict.keys (stored_state w))
                | Some s => s
                end ++ ds).
  intros l. revert w Hw. induction l as [|x l IH]; intros w Hw; [exact Hw|].
  cbn [for_each]. unfold bind.
  pose proof (remove_addon_tidy x w Hw) as Hx.
  destruct (remove_addon x w) as [[[]|e] w1]; cbn [snd] in Hx;
    [apply IH, Hx | exact Hx].
Qed.

Section TidyFacts.

Variable server : string -> option repository.
Variable archive_host : string -> served.
Hypothesis server_is_tidy : tidy_server server.

Lemma git_clone_tidy (url : string) (d : addon_dir) :
  tidy_dir d = true -> tidy_dir (snd (git_clone server url d)) = true.
Proof.
  intros Hd. unfold git_clone.
  destruct (server url) as [repo|] eqn:Hs; [|exact Hd].
  destruct (dir_empty d); [|exact Hd]. cbn [snd].
  assert (Hc : tidy_commit (default_head repo) = true).
  { apply (server_is_tidy url repo (default_branch repo)); [exact Hs|].
    unfold branch_head. rewrite String.eqb_refl. reflexivity. }
  unfold tidy_dir. cbn [file_remote file_dependencies dot_git origin_HEAD].
  rewrite Hc. fold (tidy_commit (default_head repo)). rewrite Hc.
  reflexivity.
Qed.

Lemma git_fetch_all_tidy (d : addon_dir) :
  tidy_dir d = true -> tidy_dir (snd (git_fetch_all server d)) = true.
Proof.
  intros Hd. unfold git_fetch_all.
  destruct (dot_git d) as [g|] eqn:Hg; [|exact Hd].
  destruct (fetched_head server g) as [c|] eqn:Hf; [|exact Hd]. cbn [snd].
  assert (Hc : tidy_commit c = true).
  { unfold fetched_head in Hf.
    destruct (server (origin g)) as [repo|] eqn:Hs; [|discriminate].
    apply (server_is_tidy _ _ _ _ Hs Hf). }
  unfold tidy_dir in *.
  cbn [file_remote file_dependencies dot_git origin_HEAD].
  rewrite Hc, andb_true_r. rewrite Hg in Hd.
  apply andb_true_iff in Hd. exact (proj1 Hd).
Qed.

Lemma git_reset_tidy (d : addon_dir) :
  tidy_dir d = true ->
  tidy_dir (snd (git_reset_hard_origin_HEAD d)) = true.
Proof.
  intros Hd. unfold git_reset_hard_origin_HEAD.
  destruct (dot_git d) as [g|] eqn:Hg; [|exact Hd]. cbn [snd].
  unfold tidy_dir in *. rewrite Hg in Hd.
  apply andb_true_iff in Hd. destruct Hd as [_ Hc].
  cbn [file_remote file_dependencies dot_git origin_HEAD].
  rewrite Hc. fold (tidy_commit (origin_HEAD g)). rewrite Hc. reflexivity.
Qed.

Lemma clone_or_upgrade_tidy (url name : string) (p : string * string) :
  keeps_tidy (clone_or_upgrade server url name p) (fun _ => True).
Proof.
  unfold clone_or_upgrade.
  apply (keeps_bind _ _ (fun _ => True)); [apply keeps_gets; auto|].
  intros has_git _. destruct (negb has_git).
  - apply (keeps_bind _ _ (fun _ => True));
      [apply keeps_run, git_clone_tidy|].
    intros rc _. destruct (Nat.eqb rc 0); [|apply keeps_raise].
    apply keeps_run. auto.
  - apply (keeps_bind _ _ (fun _ => True));
      [apply keeps_run, git_fetch_all_tidy|].
    intros _ _.
    apply (keeps_bind _ _ (fun _ => True)); [apply keeps_run; auto|].
    intros current _.
    apply (keeps_bind _ _ (fun _ => True)); [apply keeps_run; auto|].
    intros latest _.
    destruct (String.eqb current latest); [apply keeps_ret; exact I|].
    apply (keeps_bind _ _ (fun _ => True));
      [apply keeps_run, git_reset_tidy|].
    intros _ _. apply keeps_ret. exact I.
Qed.

Lemma fetch_remote_data_tidy (name : string) (p : string * string) :
  keeps_tidy (fetch_remote_data archive_host name p) (fun _ => True).
Proof.
  unfold fetch_remote_data.
  apply (keeps_bind _ _ (fun _ => True)); [apply keeps_gets; auto|].
  intros [[|line rest]|] _;
    [apply keeps_raise | | apply keeps_ret; exact I].
  destruct (Str.split " " (Str.strip line)) as [|remote_ [|target [|? ?]]];
    try apply keeps_raise.
  apply (keeps_bind _ _ (fun _ => True)); [apply keeps_gets; auto|].
  intros state_ _.
  destruct (Dict.get name state_) as [rec|]; [|apply keeps_raise].
  destruct (remote_is_new rec remote_ target); [|apply keeps_ret; exact I].
  apply (keeps_bind _ _ (fun _ => True)).
  { unfold run_wget.
    apply (keeps_bind _ _ (fun _ => True));
      [apply keeps_modify; intros w Hw; exact Hw|].
    intros _ _. apply keeps_run. intros d Hd. exact Hd. }
  intros rc _. destruct (negb (Nat.eqb rc 0)); [apply keeps_ret; exact I|].
  apply (keeps_bind _ _ (fun _ => True)); [apply keeps_gets; auto|].
  intros found _.
  apply (keeps_bind _ _ (fun _ => True)).
  { destruct found; [|apply keeps_ret; exact I].
    apply keeps_run. intros d Hd. exact Hd. }
  intros _ _.
  apply (keeps_bind _ _ (fun _ => True));
    [apply keeps_run; intros d Hd; exact Hd|].
  intros _ _. apply keeps_modify. intros w Hw. exact Hw.
Qed.

(** The dependency lines read in a tidy install root are tidy names. *)
Lemma read_deps_tidy (p : string * string) :
  keeps_tidy (read_deps p) (fun deps_ => forallb tidy_name deps_ = true).
Proof.
  unfold read_deps.
  apply (keeps_bind _ _
           (fun file => forallb tidy_name (default [] file) = true)).
  - apply keeps_gets. intros w Hw. unfold read_file_dependencies.
    destruct (lookup_dir p w) as [d|] eqn:Hd; [|reflexivity].
    destruct (proj1 (tidy_world_spec w) Hw p d Hd) as (_ & _ & Htidy).
    unfold tidy_dir in Htidy. rewrite !andb_true_iff in Htidy.
    destruct Htidy as [[_ Hdeps] _]. unfold tidy_dependencies in Hdeps.
    destruct (file_dependencies d); [exact Hdeps | reflexivity].
  - intros [lines|] Hl; apply keeps_ret; exact Hl.
Qed.

Lemma extend_each_tidy (f : string -> M (list string)) (l : list string) :
  (forall x, tidy_name x = true -> keeps_tidy (f x) (fun _ => True)) ->
  forallb tidy_name l = true ->
  forall acc, keeps_tidy (extend_each f l acc) (fun _ => True).
Proof.
  intros Hf. induction l as [|x l IH]; intros Hl acc.
  - apply keeps_ret. exact I.
  - cbn [forallb] in Hl. apply andb_true_iff in Hl. destruct Hl as [Hx Hl].
    cbn [extend_each].
    apply (keeps_bind _ _ (fun _ => True)); [apply Hf, Hx|].
    intros r _. apply IH. exact Hl.
Qed.

(** [install_addon] of a tidy name leaves a tidy install root tidy,
    whether it returns or raises. *)
Lemma install_addon_tidy (fuel : nat) :
  forall name, tidy_name name = true ->
    keeps_tidy (install_addon server archive_host fuel name) (fun _ => True).
Proof.
  induction fuel as [|n IH]; intros name Hname; [apply keeps_raise|].
  cbn [install_addon].
  apply (keeps_bind _ _
           (fun x => dir_name (snd (fst (fst x))) = true
                     /\ dir_name (snd (fst x)) = true)).
  - apply keeps_lift. intros [[[url u] r] c] Hp.
    apply (tidy_name_parsed _ _ _ _ _ Hname Hp).
  - intros [[[url u] r] c] [Hu Hr]. cbn [fst snd] in Hu, Hr.
    unfold _addon_path.
    apply (keeps_bind _ _ (fun _ => True));
      [apply ensure_install_path_tidy; assumption|].
    intros _ _.
    apply (keeps_bind _ _ (fun _ => True)); [apply clone_or_upgrade_tidy|].
    intros current _.
    apply (keeps_bind _ _ (fun _ => True)); [apply fetch_remote_data_tidy|].
    intros _ _.
    apply (keeps_bind _ _ (fun deps_ => forallb tidy_name deps_ = true));
      [apply read_deps_tidy|].
    intros deps_ Hdeps.
    apply (keeps_bind _ _ (fun _ => True));
      [apply extend_each_tidy; [exact IH | exact Hdeps]|].
    intros ret_ _.
    apply (keeps_bind _ _ (fun _ => True)).
    { unfold update_saved_state.
      apply (keeps_bind _ _ (fun _ => True)); [apply keeps_gets; auto|].
      intros state_ _. apply keeps_modify. intros w Hw. exact Hw. }
    intros _ _. apply keeps_ret. exact I.
Qed.

Lemma install_addons_tidy (fuel : nat) (string_ : string)
  (remove_extras : bool) :
  forallb tidy_name (Str.split "," string_) = true ->
  keeps_tidy (install_addons server archive_host fuel string_ remove_extras)
    (fun _ => True).
Proof.
  intros Hl. unfold install_addons.
  apply extend_each_tidy; [apply install_addon_tidy | exact Hl].
Qed.

End TidyFacts.


(** The hosting service of the scenarios is tidy. *)
Lemma tidy_hub : tidy_server Scenario.hub.
Proof.
  intros url repo branch c Hs Hb. unfold Scenario.hub in Hs.
  repeat match type of Hs with
         | (if ?b then _ else _) = _ => destruct b
         end;
    try discriminate; injection Hs as <-;
    unfold branch_head, Scenario.only_main in Hb;
    cbn [default_branch default_head other_heads] in Hb;
    destruct (String.eqb branch "main"); try discriminate;
    injection Hb as <-; vm_compute; reflexivity.
Qed.

(** The agreement after the install of [acme/sensors] and its dependency
    into an empty install root. *)
Example sensors_installed_consistent : consistent Scenario.sensors_installed.
Proof.
  apply (install_addon_consistent Scenario.hub Scenario.any_archive 2
           "acme/sensors" Scenario.fresh _ ["acme/sensors"; "acme/drivers"]
           consistent_fresh).
  vm_compute. reflexivity.
Qed.



(** * Further properties of the manager *)

(** ** More on strings *)

Module StrMore.

Lemma length_split (sep : ascii) (s : string) :
  length (Str.split sep s) = S (Str.count sep s).
Proof.
  induction s as [|x s IH]; simpl; [reflexivity|].
  destruct (Ascii.eqb x sep); simpl; [now rewrite IH|].
  pose proof (StrFacts.split_not_nil sep s) as Hn.
  destruct (Str.split sep s) as [|h t]; [congruence|].
  simpl in *. exact IH.
Qed.

Lemma count_join (c : ascii) (l : list string) :
  Str.count c (Str.join (String c "") l)
  = list_sum (List.map (Str.count c) l) + pred (length l).
Proof.
  induction l as [|x l IH]; [reflexivity|].
  destruct l as [|y l].
  - simpl. lia.
  - change (Str.join (String c "") (x :: y :: l))
      with (x +:+ String c (Str.join (String c "") (y :: l))).
    rewrite StrFacts.count_app. cbn [Str.count]. rewrite Ascii.eqb_refl, IH.
    simpl. lia.
Qed.

(** The search fails exactly on strings without '/'. *)
Lemma re_search_none (s : string) :
  Str.re_search_last_two s = None <-> Str.count "/" s = 0.
Proof.
  induction s as [|x s IH]; simpl; [split; reflexivity|].
  destruct (Ascii.eqb x "/"); simpl.
  - destruct (Nat.eqb (Str.count "/" s) 0) eqn:E.
    + split; discriminate.
    + rewrite IH. apply Nat.eqb_neq in E. split; [contradiction | discriminate].
  - destruct (Nat.eqb (Str.count "/" s) 1) eqn:E.
    + apply Nat.eqb_eq in E. split; [discriminate | lia].
    + exact IH.
Qed.

(** What the search finds is the end of the string. *)
Lemma re_search_suffix (s g : string) :
  Str.re_search_last_two s = Some g -> exists pre, s = pre +:+ g.
Proof.
  induction s as [|x s IH]; simpl; [discriminate|].
  destruct (Nat.eqb _ 1).
  - intros [= <-]. exists "". reflexivity.
  - intros H. destruct (IH H) as [pre ->]. exists (String x pre). reflexivity.
Qed.

(** Splitting at a separator splits what is before it and what is after
    it. *)
Lemma split_app_sep (sep : ascii) (a b : string) :
  Str.split sep (a +:+ String sep b) = Str.split sep a ++ Str.split sep b.
Proof.
  induction a as [|x a IH].
  - rewrite StrFacts.app_nil_l. cbn [Str.split]. rewrite Ascii.eqb_refl.
    reflexivity.
  - rewrite StrFacts.app_cons. cbn [Str.split]. rewrite IH.
    destruct (Ascii.eqb x sep); [reflexivity|].
    pose proof (StrFacts.split_not_nil sep a) as Hn.
    destruct (Str.split sep a) as [|h t]; [congruence | reflexivity].
Qed.

Lemma last_app_nonempty (l1 l2 : list string) (d : string) :
  l2 <> [] -> List.last (l1 ++ l2) d = List.last l2 d.
Proof.
  intros H2. induction l1 as [|x l1 IH]; [reflexivity|].
  cbn [app]. destruct (l1 ++ l2) as [|y l] eqn:E.
  - destruct l1; [cbn in E; congruence | discriminate].
  - exact IH.
Qed.

(** The last segment of a string with a separator is the last segment of
    what follows its first character. *)
Lemma last_split_tail (sep x : ascii) (s : string) :
  Str.count sep (String x s) <> 0 ->
  List.last (Str.split sep (String x s)) ""
  = List.last (Str.split sep s) "".
Proof.
  cbn [Str.count Str.split]. intros Hc.
  pose proof (StrFacts.split_not_nil sep s) as Hn.
  pose proof (length_split sep s) as Hlen.
  destruct (Ascii.eqb x sep).
  - destruct (Str.split sep s) as [|h t]; [congruence | reflexivity].
  - destruct (Str.split sep s) as [|h [|h' t]]; [congruence | | reflexivity].
    cbn in Hlen. injection Hlen as Hlen. cbn in Hc. congruence.
Qed.

(** On a string that ends in '/', the search finds the last segment before
    that '/', and the '/'. *)
Lemma re_search_trailing (s : string) :
  Str.re_search_last_two (s +:+ "/")
  = Some (List.last (Str.split "/" s) "" +:+ "/").
Proof.
  induction s as [|x s IH]; [reflexivity|].
  rewrite StrFacts.app_cons. cbn [Str.re_search_last_two].
  change (String x (s +:+ "/")) with (String x s +:+ "/").
  rewrite StrFacts.count_app.
  change (Str.count "/" "/") with 1.
  destruct (Str.count "/" (String x s)) as [|n] eqn:E.
  - cbn [Nat.add Nat.eqb]. rewrite (StrFacts.split_free _ _ E). reflexivity.
  - replace (Nat.eqb (S n + 1) 1) with false
      by (symmetry; apply Nat.eqb_neq; lia).
    rewrite last_split_tail by (rewrite E; discriminate). exact IH.
Qed.

End StrMore.

(** ** More on name resolution *)

(** [_parse_name] fails only on a name that starts with 'http' and has no
    '/': the search then finds nothing and [.group()] raises
    AttributeError. Any other name is resolved; the unpacking of the two
    segments never fails. *)
Theorem parse_name_raises (name : string) (e : exn) :
  _parse_name name = Raised e
  <-> e = AttributeError
      /\ Str.startswith "http" name = true
      /\ Str.count "/" name = 0.
Proof.
  unfold _parse_name.
  destruct (Str.re_search_last_two _) as [g|] eqn:Hg.
  - pose proof (StrFacts.re_search_one_slash _ _ Hg) as H1.
    pose proof (StrMore.length_split "/" g) as Hlen. rewrite H1 in Hlen.
    destruct (Str.split "/" g) as [|a [|b [|c l]]]; try discriminate.
    split; [discriminate|]. intros (_ & Hh & Hc). rewrite Hh in Hg.
    apply StrMore.re_search_none in Hc. congruence.
  - apply StrMore.re_search_none in Hg.
    destruct (Str.startswith "http" name).
    + split; [intros [= <-]; auto | intros (-> & _ & _); reflexivity].
    + unfold URL_GITHUB in Hg. rewrite StrFacts.count_app in Hg.
      simpl in Hg. discriminate.
Qed.

(** What a successful [_parse_name] returns: the URL is the name itself
    or the name under the GitHub prefix; the owner and the repository
    contain no '/'; the canonical name is 'owner/repo' and is the end of the
    URL. *)
Theorem parse_name_sound (name url u r c : string) :
  _parse_name name = Ok (url, u, r, c) ->
  (url = name \/ url = URL_GITHUB +:+ name)
  /\ Str.count "/" u = 0 /\ Str.count "/" r = 0
  /\ c = u +:+ "/" +:+ r
  /\ exists pre, url = pre +:+ c.
Proof.
  intros Hp. destruct (parse_name_ok _ _ _ _ _ Hp) as (Hu & Hr & Hc).
  unfold _parse_name in Hp.
  set (url0 := if Str.startswith "http" name then name
               else URL_GITHUB +:+ name) in Hp.
  assert (Hurl0 : url0 = name \/ url0 = URL_GITHUB +:+ name).
  { subst url0. destruct (Str.startswith "http" name); auto. }
  clearbody url0.
  destruct (Str.re_search_last_two url0) as [g|] eqn:Hg; [|discriminate].
  pose proof (StrFacts.join_split "/" g) as Hj.
  destruct (Str.split "/" g) as [|a [|b [|? ?]]]; try discriminate.
  injection Hp as -> <- <- _.
  split; [exact Hurl0|].
  split; [exact Hu | split; [exact Hr | split; [exact Hc|]]].
  destruct (StrMore.re_search_suffix _ _ Hg) as [pre Hpre].
  exists pre. rewrite Hpre, Hc. f_equal. symmetry. exact Hj.
Qed.

Lemma parse_name_sound_witness :
  ("https://gitlab.com/lab/acme/sensors" = "https://gitlab.com/lab/acme/sensors"
   \/ "https://gitlab.com/lab/acme/sensors"
      = URL_GITHUB +:+ "https://gitlab.com/lab/acme/sensors")
  /\ Str.count "/" "acme" = 0 /\ Str.count "/" "sensors" = 0
  /\ "acme/sensors" = "acme" +:+ "/" +:+ "sensors"
  /\ exists pre, "https://gitlab.com/lab/acme/sensors" = pre +:+ "acme/sensors".
Proof.
  apply (parse_name_sound "https://gitlab.com/lab/acme/sensors").
  reflexivity.
Defined.

(** The canonical name resolves to itself: given back to [_parse_name]
    (as [remove_addons] does with the keys of the state), it yields the
    same owner, repository and canonical name. *)
Theorem parse_name_canonical_again (name url u r c : string) :
  _parse_name name = Ok (url, u, r, c) ->
  exists url', _parse_name c = Ok (url', u, r, c).
Proof.
  intros Hp. destruct (parse_name_ok _ _ _ _ _ Hp) as (Hu & Hr & ->).
  unfold _parse_name.
  set (url' := if Str.startswith "http" (u +:+ "/" +:+ r)
               then u +:+ "/" +:+ r else URL_GITHUB +:+ (u +:+ "/" +:+ r)).
  exists url'.
  assert (Hurl : url' = u +:+ "/" +:+ r
                 \/ exists p, url' = p +:+ String "/" (u +:+ "/" +:+ r)).
  { subst url'. destruct (Str.startswith "http" _); [left; reflexivity|].
    right. exists "https://github.com". reflexivity. }
  pose proof (parse_tail url' u r Hu Hr Hurl) as H.
  destruct (Str.re_search_last_two url') as [g|]; [|contradiction].
  rewrite H. reflexivity.
Qed.

Lemma parse_name_canonical_again_witness :
  exists url',
    _parse_name "acme/sensors" = Ok (url', "acme", "sensors", "acme/sensors").
Proof.
  apply (parse_name_canonical_again "https://gitlab.com/lab/acme/sensors"
           "https://gitlab.com/lab/acme/sensors").
  reflexivity.
Defined.

(** A name that ends in '/' is always resolved, to an empty repository
    name: the owner is the last '/'-separated segment of what stands
    before that '/', the canonical name is the owner and the '/', and the
    URL keeps the trailing '/'. *)
Theorem parse_name_trailing_slash (s : string) :
  let url := if Str.startswith "http" (s +:+ "/") then s +:+ "/"
             else URL_GITHUB +:+ s +:+ "/" in
  let u := List.last (Str.split "/" s) "" in
  _parse_name (s +:+ "/") = Ok (url, u, "", u +:+ "/")
  /\ Str.count "/" u = 0.
Proof.
  cbv zeta.
  assert (Hu : Str.count "/" (List.last (Str.split "/" s) "") = 0).
  { pose proof (StrFacts.split_fields_free "/" s) as Hall.
    pose proof (StrFacts.split_not_nil "/" s) as Hn.
    rewrite List.Forall_forall in Hall. apply Hall.
    destruct (exists_last Hn) as (l & a & Hla). rewrite Hla.
    rewrite List.last_last. apply in_or_app. right. left. reflexivity. }
  split; [|exact Hu].
  unfold _parse_name.
  assert (Hfound : forall s',
            List.last (Str.split "/" s') "" = List.last (Str.split "/" s) "" ->
            match Str.re_search_last_two (s' +:+ "/") with
            | Some g =>
                match Str.split "/" g with
                | [repo_user; repo_name] =>
                    Ok (s' +:+ "/", repo_user, repo_name,
                        repo_user +:+ "/" +:+ repo_name)
                | _ => Raised ValueError
                end
            | None => Raised AttributeError
            end
            = Ok (s' +:+ "/", List.last (Str.split "/" s) "", "",
                  List.last (Str.split "/" s) "" +:+ "/")).
  { intros s' Hs'. rewrite StrMore.re_search_trailing, Hs'.
    change (List.last (Str.split "/" s) "" +:+ "/")
      with (List.last (Str.split "/" s) "" +:+ String "/" "").
    rewrite (StrFacts.split_cons "/" _ "" Hu). reflexivity. }
  destruct (Str.startswith "http" (s +:+ "/")).
  - apply Hfound. reflexivity.
  - replace (URL_GITHUB +:+ (s +:+ "/")) with ((URL_GITHUB +:+ s) +:+ "/")
      by apply StrFacts.app_assoc.
    change (URL_GITHUB +:+ s +:+ "/") with ((URL_GITHUB +:+ s) +:+ "/").
    apply Hfound.
    change (URL_GITHUB +:+ s) with ("https://github.com" +:+ String "/" s).
    rewrite StrMore.split_app_sep.
    apply StrMore.last_app_nonempty, StrFacts.split_not_nil.
Qed.

(** The owner of ['lab/acme/'] is ['acme'], that of
    ['https://example.org/'] is ['example.org']. *)
Example parse_name_trailing_slash_runs :
  _parse_name "lab/acme/"
  = Ok ("https://github.com/lab/acme/", "acme", "", "acme/")
  /\ _parse_name "https://example.org/"
     = Ok ("https://example.org/", "example.org", "", "example.org/").
Proof. split; reflexivity. Qed.

(** ** More on the install root *)

Module FsMore.

Lemma write_dir_id (p : string * string) (d : addon_dir) (w : world) :
  lookup_dir p w = Some d -> write_dir p d w = w.
Proof.
  destruct w as [f s dl], p as [u r]. unfold lookup_dir, write_dir, with_fs.
  cbn [fs state_file downloads fst snd]. intros H. f_equal.
  apply alter_id. intros parent Hparent. rewrite Hparent in H.
  apply insert_id. exact H.
Qed.

Lemma write_dir_write_dir (p : string * string) (d1 d2 : addon_dir)
  (w : world) :
  write_dir p d2 (write_dir p d1 w) = write_dir p d2 w.
Proof.
  destruct w as [f s dl], p as [u r]. unfold write_dir, with_fs.
  cbn [fs state_file downloads fst snd]. f_equal.
  apply map_eq. intros i. destruct (decide (i = u)) as [->|Hne].
  - rewrite !lookup_alter_eq. destruct (f !! u); simpl; [|reflexivity].
    now rewrite insert_insert_eq.
  - rewrite !lookup_alter_ne by congruence. reflexivity.
Qed.

Lemma lookup_dir_write_dir_eq (p : string * string) (d d0 : addon_dir)
  (w : world) :
  lookup_dir p w = Some d0 -> lookup_dir p (write_dir p d w) = Some d.
Proof.
  intros H. rewrite (FsFacts.lookup_dir_write_dir _ _ _ _ _ H).
  now rewrite decide_True.
Qed.

Lemma lookup_dir_write_dir_ne (p q : string * string) (d d0 : addon_dir)
  (w : world) :
  lookup_dir p w = Some d0 -> q <> p ->
  lookup_dir q (write_dir p d w) = lookup_dir q w.
Proof.
  intros H Hne. rewrite (FsFacts.lookup_dir_write_dir _ _ _ _ _ H).
  now rewrite decide_False.
Qed.

End FsMore.

(** ** Clone or upgrade *)

(** The step "Either clone the addon or upgrade to latest" on a directory
    that exists: the value of [current] and the directory afterwards. *)
Lemma clone_or_upgrade_run (server : string -> option repository)
  (url name : string) (p : string * string) (w : world) (d : addon_dir) :
  lookup_dir p w = Some d ->
  clone_or_upgrade server url name p w
  = match dot_git d with
    | None =>
        match server url with
        | Some repo =>
            if dir_empty d then
              (Ok (sha (default_head repo)),
               write_dir p (snd (git_clone server url d)) w)
            else (Raised (RuntimeError (FailedToClone name url)), w)
        | None => (Raised (RuntimeError (FailedToClone name url)), w)
        end
    | Some g =>
        let d1 := snd (git_fetch_all server d) in
        (Ok (sha (HEAD g)),
         write_dir p
           (if String.eqb (sha (HEAD g)) (fst (git_rev_parse_origin_HEAD d1))
            then d1 else snd (git_reset_hard_origin_HEAD d1)) w)
    end.
Proof.
  intros Hd. unfold clone_or_upgrade, bind, gets, has_dot_git.
  rewrite Hd. cbv beta iota.
  destruct (dot_git d) as [g|] eqn:Hg; cbn [negb].
  - rewrite (run_ok _ _ _ _ Hd). cbv beta iota zeta.
    set (d1 := snd (git_fetch_all server d)).
    assert (Hg1 : exists g1, dot_git d1 = Some g1 /\ HEAD g1 = HEAD g).
    { subst d1. unfold git_fetch_all. rewrite Hg.
      destruct (fetched_head server g); cbn; eauto. }
    destruct Hg1 as (g1 & Hg1 & Hhead).
    pose proof (FsMore.lookup_dir_write_dir_eq p d1 d w Hd) as Hd1.
    rewrite (run_ok _ _ _ _ Hd1). cbv beta iota.
    assert (Hid : write_dir p (snd (git_rev_parse_HEAD d1)) (write_dir p d1 w)
                  = write_dir p d1 w).
    { apply FsMore.write_dir_id. exact Hd1. }
    rewrite Hid, (run_ok _ _ _ _ Hd1). cbv beta iota.
    assert (Hid' : write_dir p (snd (git_rev_parse_origin_HEAD d1))
                     (write_dir p d1 w) = write_dir p d1 w).
    { apply FsMore.write_dir_id. exact Hd1. }
    rewrite Hid'.
    assert (Hcur : fst (git_rev_parse_HEAD d1) = sha (HEAD g)).
    { unfold git_rev_parse_HEAD. cbn [fst]. now rewrite Hg1, Hhead. }
    rewrite !Hcur.
    destruct (String.eqb _ _); unfold ret; [reflexivity|].
    rewrite (run_ok _ _ _ _ Hd1). cbv beta iota.
    rewrite FsMore.write_dir_write_dir. reflexivity.
  - rewrite (run_ok _ _ _ _ Hd). cbv beta iota.
    unfold git_clone. destruct (server url) as [repo|] eqn:Hs;
      [destruct (dir_empty d) eqn:He|].
    + cbn [fst snd Nat.eqb].
      match goal with
      | |- context [write_dir p ?dd w] =>
          pose proof (FsMore.lookup_dir_write_dir_eq p dd d w Hd) as Hd1;
          rewrite (run_ok _ _ _ _ Hd1); unfold git_rev_parse_HEAD;
          cbn [fst snd dot_git HEAD];
          rewrite (FsMore.write_dir_id _ _ _ Hd1)
      end.
      reflexivity.
    + cbn [fst snd Nat.eqb]. unfold raise.
      rewrite (FsMore.write_dir_id _ _ _ Hd). reflexivity.
    + cbn [fst snd Nat.eqb]. unfold raise.
      rewrite (FsMore.write_dir_id _ _ _ Hd). reflexivity.
Qed.

(** What a fetch finds right after a clone is the cloned head. *)
Lemma fetched_head_cloned (server : string -> option repository)
  (url : string) (repo : repository) (c1 c2 : commit) :
  server url = Some repo ->
  fetched_head server {| origin := url; origin_branch := default_branch repo;
                         HEAD := c1; origin_HEAD := c2 |}
  = Some (default_head repo).
Proof.
  intros Hs. unfold fetched_head, branch_head. cbn [origin origin_branch].
  rewrite Hs, String.eqb_refl. reflexivity.
Qed.



(** A working copy at the commit its [origin/HEAD] resolves to, with
    [origin/HEAD] what a fetch finds, is left as it is by fetch,
    comparison and reset. *)
Lemma upgrade_fixpoint (server : string -> option repository) (d : addon_dir)
  (g : working_copy) :
  dot_git d = Some g ->
  (forall cm, fetched_head server g = Some cm -> origin_HEAD g = cm) ->
  sha (HEAD g) = sha (origin_HEAD g) ->
  let d1 := snd (git_fetch_all server d) in
  (if String.eqb (sha (HEAD g)) (fst (git_rev_parse_origin_HEAD d1))
   then d1 else snd (git_reset_hard_origin_HEAD d1)) = d.
Proof.
  intros Hg Hsrv Hsha. cbv zeta.
  assert (Hd1 : snd (git_fetch_all server d) = d).
  { unfold git_fetch_all. rewrite Hg.
    destruct (fetched_head server g) as [cm|] eqn:Hs; [|reflexivity].
    rewrite <- (Hsrv cm eq_refl). destruct d, g. simpl in *. congruence. }
  rewrite Hd1. unfold git_rev_parse_origin_HEAD. cbn [fst]. rewrite Hg.
  rewrite (proj2 (String.eqb_eq _ _) Hsha). reflexivity.
Qed.



(** ** More on remote content *)

(** The step "Fetch remote data if required" when the content is new: the
    request, then either the failure branch or removal, extraction and the
    update of the record. *)
Lemma fetch_remote_data_run (archive_host : string -> served)
  (name line remote_ target : string) (rest : list string)
  (p : string * string) (rec : addon_record) (d : addon_dir) (w : world) :
  lookup_dir p w = Some d ->
  file_remote d = Some (line :: rest) ->
  Str.split " " (Str.strip line) = [remote_; target] ->
  Dict.get name (stored_state w) = Some rec ->
  remote_is_new rec remote_ target = true ->
  fetch_remote_data archive_host name p w
  = let w0 := with_downloads (downloads w ++ [remote_]) w in
    let d1 := snd (wget archive_host remote_ d) in
    match archive_host remote_ with
    | Served _ =>
        let d2 := if bool_decide (target ∈ others d1)
                  then snd (rm_r target d1) else d1 in
        let d3 := snd (unzip archive_host remote_ target d2) in
        (Ok tt,
         with_state_file
           (Some (Dict.update name (set_remote_target target)
                    (Dict.update name (set_remote remote_)
                       (stored_state w))))
           (write_dir p d3 w0))
    | NotServed => (Ok tt, write_dir p d1 w0)
    end.
Proof.
  intros Hd Hfile Hsplit Hget Hnew.
  unfold fetch_remote_data, bind, get_state, gets, read_file_remote.
  rewrite Hd, Hfile, Hsplit. cbv beta iota. rewrite Hget, Hnew.
  unfold run_wget, bind, modify. cbv beta iota zeta.
  set (w0 := with_downloads (downloads w ++ [remote_]) w).
  assert (Hd0 : lookup_dir p w0 = Some d) by exact Hd.
  rewrite (run_ok _ _ _ _ Hd0). cbv beta iota.
  set (d1 := snd (wget archive_host remote_ d)).
  unfold wget at 1. cbn [fst].
  destruct (archive_host remote_) as [|extracts] eqn:Hhost;
    cbn [negb Nat.eqb]; [reflexivity|].
  pose proof (FsMore.lookup_dir_write_dir_eq p d1 d w0 Hd0) as Hd1.
  unfold target_exists. rewrite Hd1.
  destruct (bool_decide (target ∈ others d1)).
  - rewrite (run_ok _ _ _ _ Hd1). cbv beta iota.
    rewrite FsMore.write_dir_write_dir.
    pose proof (FsMore.lookup_dir_write_dir_eq p (snd (rm_r target d1)) d w0
                  Hd0) as Hd2.
    rewrite (run_ok _ _ _ _ Hd2). cbv beta iota.
    rewrite FsMore.write_dir_write_dir. reflexivity.
  - unfold ret at 1. cbv beta iota.
    rewrite (run_ok _ _ _ _ Hd1). cbv beta iota.
    rewrite FsMore.write_dir_write_dir. reflexivity.
Qed.

(** With a record for the add-on, the archive is requested exactly when
    the recorded pair differs from the pair of the descriptor; with the
    same pair the step returns and changes nothing. *)
Theorem remote_requested_iff_pair_differs (archive_host : string -> served)
  (name line remote_ target : string) (rest : list string)
  (p : string * string) (rec : addon_record) (w : world) :
  read_file_remote p w = Some (line :: rest) ->
  Str.split " " (Str.strip line) = [remote_; target] ->
  Dict.get name (stored_state w) = Some rec ->
  let same := remote rec = Some remote_ /\ remote_target rec = Some target in
  (same -> fetch_remote_data archive_host name p w = (Ok tt, w))
  /\ (~ same ->
      downloads (snd (fetch_remote_data archive_host name p w))
      = downloads w ++ [remote_]).
Proof.
  intros Hfile Hsplit Hget same. split.
  - intros Hsame. apply remote_is_new_spec in Hsame.
    unfold fetch_remote_data, bind, get_state, gets.
    rewrite Hfile, Hsplit. cbv beta iota. rewrite Hget, Hsame. reflexivity.
  - intros Hdiff.
    destruct (fetch_remote_data_recorded archive_host _ _ _ _ _ _ _ _
                Hfile Hsplit Hget) as [_ Hdl].
    rewrite Hdl.
    destruct (remote_is_new rec remote_ target) eqn:Hnew; [reflexivity|].
    apply remote_is_new_spec in Hnew. contradiction.
Qed.



Lemma remote_requested_iff_pair_differs_witness :
  let same := remote {| hash := Some Scenario.sha_maps; deps := Some [];
                        remote := None; remote_target := None |}
              = Some "https://data.example.org/maps.zip"
              /\ remote_target {| hash := Some Scenario.sha_maps;
                                  deps := Some []; remote := None;
                                  remote_target := None |} = Some "data" in
  (same ->
   fetch_remote_data Scenario.any_archive "acme/maps" ("acme", "maps")
     Scenario.maps_recorded = (Ok tt, Scenario.maps_recorded))
  /\ (~ same ->
      downloads (snd (fetch_remote_data Scenario.any_archive "acme/maps"
                        ("acme", "maps") Scenario.maps_recorded))
      = downloads Scenario.maps_recorded
        ++ ["https://data.example.org/maps.zip"]).
Proof.
  apply (remote_requested_iff_pair_differs Scenario.any_archive "acme/maps"
           "https://data.example.org/maps.zip data"
           "https://data.example.org/maps.zip" "data" []);
    reflexivity.
Defined.



(** ** More on [install_addon] *)

Section InstallMore.

Variable server : string -> option repository.
Variable archive_host : string -> served.

Lemma ensure_install_path_run (p : string * string) (w : world) :
  ensure_install_path p w
  = (Ok tt, if path_exists p w then w else makedirs p w).
Proof.
  unfold ensure_install_path, bind, gets, modify, ret. cbv beta iota.
  destruct (path_exists p w); reflexivity.
Qed.

Lemma ensured_lookup (p : string * string) (w : world) :
  exists d,
    lookup_dir p (if path_exists p w then w else makedirs p w) = Some d
    /\ (has_dot_git p w = false -> dot_git d = None)
    /\ (forall d0, lookup_dir p w = Some d0 -> d = d0).
Proof.
  unfold path_exists, has_dot_git.
  destruct (lookup_dir p w) as [d|] eqn:Hd.
  - exists d. rewrite Hd. split; [reflexivity|]. split.
    + destruct (dot_git d); [discriminate | reflexivity].
    + intros d0 [= <-]. reflexivity.
  - exists empty_dir. rewrite FsFacts.lookup_dir_makedirs.
    rewrite decide_True by reflexivity.
    split; [reflexivity|]. split; [reflexivity | discriminate].
Qed.

Lemma prepare_run (url name : string) (p : string * string) (w : world) :
  prepare server archive_host url name p w
  = let wa := if path_exists p w then w else makedirs p w in
    match clone_or_upgrade server url name p wa with
    | (Ok current, wb) =>
        match fetch_remote_data archive_host name p wb with
        | (Ok _, wc) => (Ok current, wc)
        | (Raised e, wc) => (Raised e, wc)
        end
    | (Raised e, wb) => (Raised e, wb)
    end.
Proof.
  unfold prepare, bind. rewrite ensure_install_path_run. cbv zeta.
  destruct (clone_or_upgrade _ _ _ _ _) as [[current|e] wb]; [|reflexivity].
  destruct (fetch_remote_data _ _ _ _) as [[[]|e] wc]; reflexivity.
Qed.

(** An install directory that is missing or empty is there and empty once
    the install path is ensured. *)
Lemma ensured_lookup_empty (p : string * string) (w : world) :
  (forall d0, lookup_dir p w = Some d0 -> dir_empty d0 = true) ->
  exists d,
    lookup_dir p (if path_exists p w then w else makedirs p w) = Some d
    /\ dir_empty d = true /\ dot_git d = None.
Proof.
  intros He. unfold path_exists.
  assert (Hgit : forall d, dir_empty d = true -> dot_git d = None).
  { intros d. unfold dir_empty. destruct (dot_git d); [discriminate|].
    reflexivity. }
  destruct (lookup_dir p w) as [d|] eqn:Hd.
  - exists d. rewrite Hd. pose proof (He d eq_refl) as H.
    split; [reflexivity|]. split; [exact H | apply Hgit, H].
  - exists empty_dir. rewrite FsFacts.lookup_dir_makedirs.
    rewrite decide_True by reflexivity. repeat split.
Qed.



(** The loop over the dependencies stops at the first call that raises. *)
Lemma extend_each_raise (f : string -> M (list string))
  (ds1 ds2 acc : list string) (d : string) (w wa wb : world)
  (rs : list (list string)) (e : exn) :
  installs f ds1 w rs wa ->
  f d wa = (Raised e, wb) ->
  extend_each f (ds1 ++ d :: ds2) acc w = (Raised e, wb).
Proof.
  intros Hrs. revert acc. induction Hrs as [w|x xs w r0 w1 rs w2 Hx Hxs IH];
    intros acc Hd.
  - cbn [app extend_each]. unfold bind. rewrite Hd. reflexivity.
  - cbn [app extend_each]. unfold bind. rewrite Hx. apply IH. exact Hd.
Qed.

(** When the install of a dependency raises, [install_addon] raises the
    same exception and leaves the world as that call left it: the later
    dependencies are not installed and the add-on's own state update is
    not made. *)
Theorem dependency_failure_aborts (n : nat)
  (name url u r c current d : string) (ds1 ds2 : list string)
  (w w1 wa wb : world) (rs : list (list string)) (e : exn) :
  _parse_name name = Ok (url, u, r, c) ->
  prepare server archive_host url c (u, r) w = (Ok current, w1) ->
  default [] (read_file_dependencies (u, r) w1) = ds1 ++ d :: ds2 ->
  installs (install_addon server archive_host n) ds1 w1 rs wa ->
  install_addon server archive_host n d wa = (Raised e, wb) ->
  install_addon server archive_host (S n) name w = (Raised e, wb).
Proof.
  intros Hp Hprep Hdeps Hrs Hd.
  rewrite (install_addon_S _ _ _ _ _ _ _ _ _ Hp), Hprep. cbv zeta.
  rewrite Hdeps, (extend_each_raise _ _ _ _ _ _ _ _ _ _ Hrs Hd).
  reflexivity.
Qed.

(** [install_addons] installs the comma-separated names one after the
    other, each in the world the one before left, and returns their
    returned lists in that order; it stops at the first install that
    raises. [remove_extras] changes nothing. *)
Theorem install_addons_in_order (fuel : nat) (string_ : string)
  (remove_extras : bool) (w : world) :
  (forall ret_ w',
      install_addons server archive_host fuel string_ remove_extras w
      = (Ok ret_, w')
      <-> exists rs,
            installs (install_addon server archive_host fuel)
              (Str.split "," string_) w rs w'
            /\ ret_ = concat rs)
  /\ (forall ds1 d ds2 rs wa e wb,
         Str.split "," string_ = ds1 ++ d :: ds2 ->
         installs (install_addon server archive_host fuel) ds1 w rs wa ->
         install_addon server archive_host fuel d wa = (Raised e, wb) ->
         install_addons server archive_host fuel string_ remove_extras w
         = (Raised e, wb))
  /\ install_addons server archive_host fuel string_ remove_extras w
     = install_addons server archive_host fuel string_ (negb remove_extras) w.
Proof.
  split; [|split].
  - intros ret_ w'. unfold install_addons. apply extend_each_ok.
  - intros ds1 d ds2 rs wa e wb Hsplit Hrs Hd. unfold install_addons.
    rewrite Hsplit. apply (extend_each_raise _ _ _ _ _ _ _ _ _ _ Hrs Hd).
  - reflexivity.
Qed.

End InstallMore.



Lemma dependency_failure_aborts_witness :
  let w1 := snd (prepare Scenario.hub_without_drivers Scenario.any_archive
                   "https://github.com/acme/sensors" "acme/sensors"
                   ("acme", "sensors") Scenario.fresh) in
  install_addon Scenario.hub_without_drivers Scenario.any_archive 2
    "acme/sensors" Scenario.fresh
  = (Raised (RuntimeError
               (FailedToClone "acme/drivers"
                  "https://github.com/acme/drivers")),
     snd (install_addon Scenario.hub_without_drivers Scenario.any_archive 1
            "acme/drivers" w1)).
Proof.
  intros w1.
  apply (dependency_failure_aborts Scenario.hub_without_drivers
           Scenario.any_archive 1 "acme/sensors"
           "https://github.com/acme/sensors" "acme" "sensors" "acme/sensors"
           Scenario.sha_sensors "acme/drivers" [] [] Scenario.fresh
           w1 w1
           (snd (install_addon Scenario.hub_without_drivers
                   Scenario.any_archive 1 "acme/drivers" w1))
           []
           (RuntimeError
              (FailedToClone "acme/drivers"
                 "https://github.com/acme/drivers")));
    [reflexivity | vm_compute; reflexivity | vm_compute; reflexivity
    | constructor | vm_compute; reflexivity].
Defined.

(** ** What an install never takes away *)

Lemma never_less_refl (w : world) : never_less w w.
Proof. split; [apply keeps_paths_refl | auto]. Qed.

Lemma never_less_trans (w1 w2 w3 : world) :
  never_less w1 w2 -> never_less w2 w3 -> never_less w1 w3.
Proof.
  intros [Hp12 Hk12] [Hp23 Hk23]. split.
  - eapply keeps_paths_trans; eassumption.
  - intros k Hk. apply Hk23, Hk12, Hk.
Qed.

(** A property that every call keeps, returning or raising, is kept by
    the loop. *)
Lemma extend_each_any (f : string -> M (list string)) (Q : world -> Prop)
  (l acc : list string) (w : world) :
  (forall x v, Q v -> Q (snd (f x v))) ->
  Q w -> Q (snd (extend_each f l acc w)).
Proof.
  intros Hf. revert acc w. induction l as [|x l IH]; intros acc w HQ.
  - exact HQ.
  - cbn [extend_each]. unfold bind. pose proof (Hf x w HQ) as Hx.
    destruct (f x w) as [[r|e] w1]; cbn [snd] in Hx.
    + apply IH. exact Hx.
    + exact Hx.
Qed.

Lemma same_stored (w w' : world) :
  state_file w' = state_file w -> stored_state w' = stored_state w.
Proof. intros H. unfold stored_state. rewrite H. reflexivity. Qed.

Lemma prepare_never_less (server : string -> option repository)
  (archive_host : string -> served) (url name : string) (p : string * string)
  (w : world) :
  never_less w (snd (prepare server archive_host url name p w)).
Proof.
  rewrite prepare_run. cbv zeta.
  set (wa := if path_exists p w then w else makedirs p w).
  assert (Ha : never_less w wa).
  { subst wa. destruct (path_exists p w) eqn:E; [apply never_less_refl|].
    split; [|auto]. intros q Hq. rewrite FsFacts.path_exists_makedirs, Hq.
    apply orb_true_r. }
  destruct (clone_or_upgrade_frame server url name p wa) as [Hsb Hpb].
  destruct (clone_or_upgrade server url name p wa) as [[cur|e] wb];
    cbn [snd] in Hsb, Hpb |- *.
  2:{ eapply never_less_trans; [exact Ha|]. split.
      - intros q Hq. now rewrite Hpb.
      - intros k Hk. now rewrite (same_stored _ _ Hsb). }
  destruct (fetch_remote_data_frame archive_host name p wb) as [Hsc Hpc].
  assert (Hc : never_less w (snd (fetch_remote_data archive_host name p wb))).
  { eapply never_less_trans; [exact Ha|]. split.
    - intros q Hq. now rewrite Hpc, Hpb.
    - intros k Hk. now rewrite Hsc, (same_stored _ _ Hsb). }
  destruct (fetch_remote_data archive_host name p wb) as [[[]|e] wc]; exact Hc.
Qed.

Lemma install_addon_never_less (server : string -> option repository)
  (archive_host : string -> served) (fuel : nat) (name : string) (w : world) :
  never_less w (snd (install_addon server archive_host fuel name w)).
Proof.
  revert name w. induction fuel as [|n IH]; intros name w.
  - apply never_less_refl.
  - destruct (_parse_name name) as [[[[url u] r] c]|e] eqn:Hp.
    2:{ cbn [install_addon]. unfold bind, lift. rewrite Hp.
        apply never_less_refl. }
    rewrite (install_addon_S _ _ _ _ _ _ _ _ _ Hp).
    pose proof (prepare_never_less server archive_host url c (u, r) w) as Hprep.
    destruct (prepare server archive_host url c (u, r) w) as [[current|e] w1];
      cbn [snd] in Hprep; [|exact Hprep].
    cbv zeta.
    pose proof (extend_each_any (install_addon server archive_host n)
                  (never_less w)
                  (default [] (read_file_dependencies (u, r) w1)) [c] w1
                  (fun x v Hv => never_less_trans _ _ _ Hv (IH x v)) Hprep)
      as Hloop.
    destruct (extend_each _ _ _ w1) as [[res|e] w2]; cbn [snd] in Hloop |- *;
      [|exact Hloop].
    eapply never_less_trans; [exact Hloop|].
    rewrite update_saved_state_run. cbn [snd]. split.
    + intros q Hq. exact Hq.
    + intros k Hk. cbn [stored_state with_state_file state_file].
      rewrite mem_saved_state, Hk. apply orb_true_r.
Qed.





(** ** Complete records *)

Lemma get_update (k name : string) (f : addon_record -> addon_record)
  (st : state) :
  Dict.get k (Dict.update name f st)
  = if String.eqb k name then option_map f (Dict.get name st)
    else Dict.get k st.
Proof.
  unfold Dict.update.
  destruct (String.eqb k name) eqn:E.
  - apply String.eqb_eq in E. subst k.
    destruct (Dict.get name st) as [rec|] eqn:G; simpl.
    + apply DictFacts.get_set_eq.
    + exact G.
  - apply String.eqb_neq in E.
    destruct (Dict.get name st) as [rec|]; [|reflexivity].
    apply DictFacts.get_set_ne. exact E.
Qed.

Lemma records_complete_update (name : string)
  (f : addon_record -> addon_record) (st : state) :
  (forall rec, hash (f rec) = hash rec /\ deps (f rec) = deps rec) ->
  records_complete st -> records_complete (Dict.update name f st).
Proof.
  intros Hf Hst k rec. rewrite get_update.
  destruct (String.eqb k name); [|apply Hst].
  destruct (Dict.get name st) as [rec0|] eqn:G; [|discriminate].
  intros [= <-]. destruct (Hf rec0) as [-> ->]. apply (Hst name). exact G.
Qed.

Lemma records_complete_saved_state (name current : string)
  (deps_ : list string) (st : state) :
  records_complete st -> records_complete (saved_state name current deps_ st).
Proof.
  intros Hst k rec.
  assert (Hset : forall rec0,
            hash rec0 = Some current -> deps rec0 = Some deps_ ->
            Dict.get k (Dict.set name rec0 st) = Some rec ->
            (exists h, hash rec = Some h) /\ exists l, deps rec = Some l).
  { intros rec0 Hh Hd.
    destruct (String.eqb k name) eqn:E.
    - apply String.eqb_eq in E. subst k. rewrite DictFacts.get_set_eq.
      intros [= <-]. eauto.
    - apply String.eqb_neq in E. rewrite DictFacts.get_set_ne by exact E.
      apply Hst. }
  destruct (Dict.get name st) as [rec0|] eqn:G.
  - rewrite (saved_state_existing _ _ _ _ _ G). apply Hset; reflexivity.
  - rewrite (saved_state_new _ _ _ _ G). apply Hset; reflexivity.
Qed.

Lemma records_complete_del (name : string) (st : state) :
  records_complete st -> records_complete (Dict.del name st).
Proof.
  intros Hst k rec. destruct (String.eqb k name) eqn:E.
  - apply String.eqb_eq in E. subst k. rewrite DictFacts.get_del_eq.
    discriminate.
  - apply String.eqb_neq in E. rewrite DictFacts.get_del_ne by exact E.
    apply Hst.
Qed.

(** The state after "Fetch remote data if required": as before, or with
    the two remote fields of the add-on's record assigned. *)
Lemma fetch_remote_data_state (archive_host : string -> served) (name : string)
  (p : string * string) (w : world) :
  let w' := snd (fetch_remote_data archive_host name p w) in
  stored_state w' = stored_state w
  \/ exists remote_ target,
       stored_state w'
       = Dict.update name (set_remote_target target)
           (Dict.update name (set_remote remote_) (stored_state w)).
Proof.
  unfold fetch_remote_data, bind, get_state, gets, ret, raise.
  cbv beta iota zeta.
  destruct (read_file_remote p w) as [[|line rest]|];
    [left; reflexivity | | left; reflexivity].
  destruct (Str.split " " (Str.strip line)) as [|remote_ [|target [|? ?]]];
    try (left; reflexivity).
  destruct (Dict.get name (stored_state w)) as [rec|];
    [|left; reflexivity].
  destruct (remote_is_new rec remote_ target); [|left; reflexivity].
  unfold run_wget, bind, modify. cbv beta iota.
  set (w0 := with_downloads (downloads w ++ [remote_]) w).
  assert (Hs0 : state_file w0 = state_file w) by reflexivity.
  clearbody w0.
  step_run; [|cbn [snd]; left; apply same_stored; congruence].
  destruct (negb (Nat.eqb _ 0));
    [cbn [snd]; left; apply same_stored; congruence|].
  destruct (target_exists p target _).
  - step_run; [|cbn [snd]; left; apply same_stored; congruence].
    step_run; [|cbn [snd]; left; apply same_stored; congruence].
    right. exists remote_, target. reflexivity.
  - step_run; [|cbn [snd]; left; apply same_stored; congruence].
    right. exists remote_, target. reflexivity.
Qed.

Lemma prepare_records_complete (server : string -> option repository)
  (archive_host : string -> served) (url name : string) (p : string * string)
  (w : world) :
  records_complete (stored_state w) ->
  records_complete (stored_state (snd (prepare server archive_host url name p w))).
Proof.
  intros Hrc. rewrite prepare_run. cbv zeta.
  set (wa := if path_exists p w then w else makedirs p w).
  assert (Ha : stored_state wa = stored_state w).
  { subst wa. destruct (path_exists p w); reflexivity. }
  destruct (clone_or_upgrade_frame server url name p wa) as [Hsb _].
  destruct (clone_or_upgrade server url name p wa) as [[cur|e] wb];
    cbn [snd] in Hsb |- *.
  2:{ rewrite (same_stored _ _ Hsb), Ha. exact Hrc. }
  assert (Hb : records_complete (stored_state wb)).
  { rewrite (same_stored _ _ Hsb), Ha. exact Hrc. }
  pose proof (fetch_remote_data_state archive_host name p wb) as Hc.
  cbv zeta in Hc.
  assert (Hc' : records_complete
                  (stored_state (snd (fetch_remote_data archive_host name p wb)))).
  { destruct Hc as [-> | (remote_ & target & ->)]; [exact Hb|].
    apply records_complete_update; [intros rec; split; reflexivity|].
    apply records_complete_update; [intros rec; split; reflexivity|].
    exact Hb. }
  destruct (fetch_remote_data archive_host name p wb) as [[[]|e] wc]; exact Hc'.
Qed.

Lemma install_addon_records_complete (server : string -> option repository)
  (archive_host : string -> served) (fuel : nat) :
  forall name w,
    records_complete (stored_state w) ->
    records_complete
      (stored_state (snd (install_addon server archive_host fuel name w))).
Proof.
  induction fuel as [|n IH]; intros name w Hrc; [exact Hrc|].
  destruct (_parse_name name) as [[[[url u] r] c]|e] eqn:Hp.
  2:{ cbn [install_addon]. unfold bind, lift. rewrite Hp. exact Hrc. }
  rewrite (install_addon_S _ _ _ _ _ _ _ _ _ Hp).
  pose proof (prepare_records_complete server archive_host url c (u, r) w Hrc)
    as Hprep.
  destruct (prepare server archive_host url c (u, r) w) as [[current|e] w1];
    cbn [snd] in Hprep; [|exact Hprep].
  cbv zeta.
  pose proof (extend_each_any (install_addon server archive_host n)
                (fun v => records_complete (stored_state v))
                (default [] (read_file_dependencies (u, r) w1)) [c] w1
                (fun x v Hv => IH x v Hv) Hprep) as Hloop.
  destruct (extend_each _ _ _ w1) as [[res|e] w2]; cbn [snd] in Hloop |- *;
    [|exact Hloop].
  rewrite update_saved_state_run.
  cbn [snd stored_state with_state_file state_file].
  apply records_complete_saved_state. exact Hloop.
Qed.

Lemma remove_addon_records_complete (name : string) (w : world) :
  records_complete (stored_state w) ->
  records_complete (stored_state (snd (remove_addon name w))).
Proof.
  intros Hrc.
  destruct (_parse_name name) as [[[[url u] r] c]|e] eqn:Hp.
  2:{ unfold remove_addon, bind, lift. rewrite Hp. exact Hrc. }
  rewrite (remove_addon_run _ _ _ _ _ _ Hp).
  destruct (path_exists (u, r) w); cbn [negb]; [|exact Hrc].
  cbv zeta. destruct (Dict.mem c (stored_state w)); cbn [snd].
  - cbn [stored_state with_state_file state_file].
    apply records_complete_del. exact Hrc.
  - destruct (parent_exists_and_empty _ _); exact Hrc.
Qed.

Lemma for_each_any (f : string -> M unit) (Q : world -> Prop)
  (l : list string) (w : world) :
  (forall x v, Q v -> Q (snd (f x v))) ->
  Q w -> Q (snd (for_each f l w)).
Proof.
  intros Hf. revert w. induction l as [|x l IH]; intros w HQ; [exact HQ|].
  cbn [for_each]. unfold bind. pose proof (Hf x w HQ) as Hx.
  destruct (f x w) as [[[]|e] w1]; cbn [snd] in Hx.
  - apply IH. exact Hx.
  - exact Hx.
Qed.

(** Every operation keeps the records complete, whether it returns or
    raises: when every record has its 'hash' and 'deps' before, every record
    has them after. *)
Theorem operations_keep_records_complete
  (server : string -> option repository) (archive_host : string -> served)
  (w : world) :
  records_complete (stored_state w) ->
  (forall fuel name,
      records_complete
        (stored_state (snd (install_addon server archive_host fuel name w))))
  /\ (forall fuel string_ remove_extras,
         records_complete
           (stored_state
              (snd (install_addons server archive_host fuel string_ remove_extras
                      w))))
  /\ (forall name,
         records_complete (stored_state (snd (remove_addon name w))))
  /\ (forall string_ remove_dependents input,
         records_complete
           (stored_state
              (snd (remove_addons string_ remove_dependents input w)))).
Proof.
  intros Hrc. split; [|split; [|split]].
  - intros fuel name. apply install_addon_records_complete. exact Hrc.
  - intros fuel string_ remove_extras. unfold install_addons.
    apply (extend_each_any _ (fun v => records_complete (stored_state v))).
    + intros x v Hv. apply install_addon_records_complete. exact Hv.
    + exact Hrc.
  - intros name. apply remove_addon_records_complete. exact Hrc.
  - intros string_ rd input. unfold remove_addons, bind.
    rewrite removal_lists_run. cbv zeta.
    destruct (String.eqb _ ""); [exact Hrc|].
    destruct (if rd then _ else _) as [ds|e]; [|exact Hrc].
    destruct (negb (confirmed input)); [exact Hrc|].
    apply (for_each_any _ (fun v => records_complete (stored_state v))).
    + intros x v Hv. apply remove_addon_records_complete. exact Hv.
    + exact Hrc.
Qed.

(** A check of [records_complete] that computes. *)
Lemma records_complete_check (st : state) :
  forallb (fun kv => match hash (snd kv), deps (snd kv) with
                     | Some _, Some _ => true
                     | _, _ => false
                     end) st = true ->
  records_complete st.
Proof.
  induction st as [|[k0 r0] st IH]; intros Hall k rec Hget.
  - discriminate.
  - cbn [forallb snd] in Hall. apply andb_true_iff in Hall.
    destruct Hall as [H0 Hall]. cbn [Dict.get] in Hget.
    destruct (String.eqb k0 k).
    + injection Hget as <-.
      destruct (hash r0), (deps r0); try discriminate. eauto.
    + apply (IH Hall k rec Hget).
Qed.

Lemma operations_keep_records_complete_witness :
  let w := Scenario.maps_stale in
  Dict.keys (stored_state w) = ["acme/drivers"; "acme/maps"]
  /\ (forall fuel name,
         records_complete
           (stored_state
              (snd (install_addon Scenario.hub Scenario.any_archive fuel name
                      w))))
  /\ (forall fuel string_ remove_extras,
         records_complete
           (stored_state
              (snd (install_addons Scenario.hub Scenario.any_archive fuel
                      string_ remove_extras w))))
  /\ (forall name,
         records_complete (stored_state (snd (remove_addon name w))))
  /\ (forall string_ remove_dependents input,
         records_complete
           (stored_state
              (snd (remove_addons string_ remove_dependents input w)))).
Proof.
  intros w. split; [reflexivity|].
  apply (operations_keep_records_complete Scenario.hub Scenario.any_archive
           Scenario.maps_stale).
  apply records_complete_check. reflexivity.
Defined.

(** ** The record of a first install *)

(** When the add-on has no record at the final state update (a first
    install), a call of [install_addon] that returns appends the record, after
    every key that is there (so after the records its dependencies wrote),
    with the hash and the dependency lines and without remote fields; the
    other records are as the dependencies left them. *)
Theorem install_addon_first_record (server : string -> option repository)
  (archive_host : string -> served) (fuel : nat) (name : string) (w w' : world)
  (ret_ : list string) :
  install_addon server archive_host fuel name w = (Ok ret_, w') ->
  exists n url u r c current w1 rs w2,
    fuel = S n
    /\ _parse_name name = Ok (url, u, r, c)
    /\ prepare server archive_host url c (u, r) w = (Ok current, w1)
    /\ let deps_ := default [] (read_file_dependencies (u, r) w1) in
       installs (install_addon server archive_host n) deps_ w1 rs w2
       /\ (Dict.get c (stored_state w2) = None ->
           Dict.keys (stored_state w') = Dict.keys (stored_state w2) ++ [c]
           /\ Dict.get c (stored_state w')
              = Some {| hash := Some current; deps := Some deps_;
                        remote := None; remote_target := None |}
           /\ forall k, k <> c ->
                Dict.get k (stored_state w') = Dict.get k (stored_state w2)).
Proof.
  intros Hrun.
  destruct (install_addon_parse _ _ _ _ _ _ _ Hrun)
    as (n & url & u & r & c & -> & Hp).
  rewrite (install_addon_S _ _ _ _ _ _ _ _ _ Hp) in Hrun.
  destruct (prepare server archive_host url c (u, r) w)
    as [[current|e] w1] eqn:Hprep; [|discriminate].
  cbv zeta in Hrun.
  destruct (extend_each (install_addon server archive_host n) _ [c] w1)
    as [[res|e] w2] eqn:Hloop; [|discriminate].
  apply extend_each_ok in Hloop. destruct Hloop as (rs & Hrs & ->).
  injection Hrun as _ <-.
  exists n, url, u, r, c, current, w1, rs, w2.
  split; [reflexivity|]. split; [exact Hp|]. split; [exact Hprep|].
  cbv zeta. split; [exact Hrs|].
  intros Hnone.
  cbn [snd stored_state with_state_file state_file].
  rewrite (saved_state_new _ _ _ _ Hnone). split; [|split].
  - apply DictFacts.keys_set_new. unfold Dict.mem. now rewrite Hnone.
  - apply DictFacts.get_set_eq.
  - intros k Hk. apply DictFacts.get_set_ne. exact Hk.
Qed.

Lemma install_addon_first_record_witness :
  exists n url u r c current w1 rs w2,
    2 = S n
    /\ _parse_name "acme/sensors" = Ok (url, u, r, c)
    /\ prepare Scenario.hub Scenario.any_archive url c (u, r) Scenario.fresh
       = (Ok current, w1)
    /\ let deps_ := default [] (read_file_dependencies (u, r) w1) in
       installs (install_addon Scenario.hub Scenario.any_archive n) deps_ w1
         rs w2
       /\ (Dict.get c (stored_state w2) = None ->
           Dict.keys (stored_state Scenario.sensors_installed)
           = Dict.keys (stored_state w2) ++ [c]
           /\ Dict.get c (stored_state Scenario.sensors_installed)
              = Some {| hash := Some current; deps := Some deps_;
                        remote := None; remote_target := None |}
           /\ forall k, k <> c ->
                Dict.get k (stored_state Scenario.sensors_installed)
                = Dict.get k (stored_state w2)).
Proof.
  apply (install_addon_first_record Scenario.hub Scenario.any_archive 2
           "acme/sensors" Scenario.fresh Scenario.sensors_installed
           ["acme/sensors"; "acme/drivers"]).
  vm_compute. reflexivity.
Defined.

(** ** More on removal *)

(** [remove_addon] on a directory that has no record (what a failed
    install leaves) deletes the directory and then raises KeyError at the
    deletion of the record; the state file is not rewritten, and no other
    add-on directory changes. The owner and the repository of the name are
    directory names. *)
Theorem remove_addon_unrecorded (name url u r c : string) (w : world) :
  _parse_name name = Ok (url, u, r, c) ->
  dir_name u = true -> dir_name r = true ->
  path_exists (u, r) w = true ->
  Dict.mem c (stored_state w) = false ->
  exists w',
    remove_addon name w = (Raised (KeyError c), w')
    /\ path_exists (u, r) w' = false
    /\ state_file w' = state_file w
    /\ downloads w' = downloads w
    /\ forall q, q <> (u, r) -> lookup_dir q w' = lookup_dir q w.
Proof.
  intros Hp _ _ Hex Hmem.
  rewrite (remove_addon_run _ _ _ _ _ _ Hp), Hex, Hmem. cbn [negb]. cbv zeta.
  eexists. split; [reflexivity|].
  pose proof (fun q => FsFacts.lookup_dir_removed q (u, r) w) as Hl.
  cbv zeta in Hl. split; [|split; [|split]].
  - unfold path_exists. rewrite Hl, decide_True by reflexivity. reflexivity.
  - destruct (parent_exists_and_empty _ _); reflexivity.
  - destruct (parent_exists_and_empty _ _); reflexivity.
  - intros q Hq. rewrite Hl, decide_False by exact Hq. reflexivity.
Qed.

Lemma remove_addon_unrecorded_witness :
  exists w',
    remove_addon "acme/ghost" Scenario.ghost_leftover
    = (Raised (KeyError "acme/ghost"), w')
    /\ path_exists ("acme", "ghost") w' = false
    /\ state_file w' = state_file Scenario.ghost_leftover
    /\ downloads w' = downloads Scenario.ghost_leftover
    /\ forall q, q <> ("acme", "ghost") ->
         lookup_dir q w' = lookup_dir q Scenario.ghost_leftover.
Proof.
  apply (remove_addon_unrecorded "acme/ghost" "https://github.com/acme/ghost"
           "acme" "ghost" "acme/ghost" Scenario.ghost_leftover);
    vm_compute; reflexivity.
Defined.

(** Once the directory of [x] is not there, a loop of removals that
    reaches [x] raises. *)
Lemma for_each_remove_missing (x url u r c : string) :
  _parse_name x = Ok (url, u, r, c) ->
  forall l w,
    In x l -> path_exists (u, r) w = false ->
    exists e w', for_each remove_addon l w = (Raised e, w').
Proof.
  intros Hp l. induction l as [|y l IH]; intros w Hin Hnot; [contradiction|].
  cbn [for_each]. unfold bind.
  destruct (remove_addon y w) as [[[]|e] w1] eqn:Hy; [|eauto].
  destruct Hin as [-> | Hin].
  - rewrite (remove_addon_run _ _ _ _ _ _ Hp), Hnot in Hy. discriminate.
  - apply IH; [exact Hin|].
    destruct (_parse_name y) as [[[[url' u'] r'] c']|e] eqn:Hpy.
    2:{ unfold remove_addon, bind, lift in Hy. rewrite Hpy in Hy.
        discriminate. }
    rewrite (remove_addon_run _ _ _ _ _ _ Hpy) in Hy.
    destruct (path_exists (u', r') w); cbn [negb] in Hy; [|discriminate].
    cbv zeta in Hy. destruct (Dict.mem c' (stored_state w)); [|discriminate].
    injection Hy as <-. unfold path_exists.
    rewrite FsFacts.lookup_dir_with_state_file.
    pose proof (FsFacts.lookup_dir_removed (u, r) (u', r') w) as Hl.
    cbv zeta in Hl. rewrite Hl.
    destruct (decide _); [reflexivity|]. exact Hnot.
Qed.

(** A loop of removals over a list that names an add-on twice raises. *)
Lemma for_each_remove_repeated (l1 l2 : list string) (x : string)
  (w : world) :
  In x l2 ->
  exists e w', for_each remove_addon (l1 ++ x :: l2) w = (Raised e, w').
Proof.
  intros Hin. revert w. induction l1 as [|y l1 IH]; intros w.
  - cbn [app for_each]. unfold bind.
    destruct (remove_addon x w) as [[[]|e] w1] eqn:Hx; [|eauto].
    destruct (_parse_name x) as [[[[url u] r] c]|e] eqn:Hp.
    2:{ unfold remove_addon, bind, lift in Hx. rewrite Hp in Hx.
        discriminate. }
    apply (for_each_remove_missing _ _ _ _ _ Hp _ _ Hin).
    rewrite (remove_addon_run _ _ _ _ _ _ Hp) in Hx.
    destruct (path_exists (u, r) w); cbn [negb] in Hx; [|discriminate].
    cbv zeta in Hx. destruct (Dict.mem c (stored_state w)); [|discriminate].
    injection Hx as <-. unfold path_exists.
    rewrite FsFacts.lookup_dir_with_state_file.
    pose proof (FsFacts.lookup_dir_removed (u, r) (u, r) w) as Hl.
    cbv zeta in Hl. rewrite Hl, decide_True by reflexivity. reflexivity.
  - cbn [app for_each]. unfold bind.
    destruct (remove_addon y w) as [[[]|e] w1]; [apply IH | eauto].
Qed.

(** When the confirmed list of [remove_addons] (the requested names
    followed by the dependents) names an add-on twice, the call raises: the
    second removal of that add-on cannot find its directory, unless an
    earlier removal has raised already. *)
Theorem remove_addons_repeated_name_raises (string_ : option string)
  (rd : bool) (input x : string) (addons ds l1 l2 : list string)
  (w : world) :
  removal_lists string_ rd w = (Ok (Some (addons, ds)), w) ->
  confirmed input = true ->
  addons ++ ds = l1 ++ x :: l2 ->
  In x l2 ->
  exists e w', remove_addons string_ rd input w = (Raised e, w').
Proof.
  intros Hlists Hyes Hsplit Hin. unfold remove_addons, bind.
  rewrite Hlists, Hyes. cbn [negb]. rewrite Hsplit.
  apply for_each_remove_repeated. exact Hin.
Qed.

Lemma remove_addons_repeated_name_raises_witness :
  exists e w',
    remove_addons (Some "acme/drivers,acme/drivers") false "y"
      Scenario.sensors_installed = (Raised e, w').
Proof.
  apply (remove_addons_repeated_name_raises
           (Some "acme/drivers,acme/drivers") false "y" "acme/drivers"
           ["acme/drivers"; "acme/drivers"] [] [] ["acme/drivers"]);
    [vm_compute; reflexivity | reflexivity | reflexivity | left; reflexivity].
Defined.

(** Removing everything with [remove_dependents] on raises as soon as one
    installed add-on lists another installed add-on in its 'deps': the
    dependent is requested and added again as a dependent, so it is removed
    twice. *)
Theorem remove_all_with_dependency_raises (string_ : option string)
  (input x y : string) (rec : addon_record) (l : list string) (w : world) :
  let st := stored_state w in
  string_ = None \/ string_ = Some "" ->
  records_have_deps st ->
  Forall plain_key (Dict.keys st) ->
  In x (Dict.keys st) ->
  Dict.get y st = Some rec -> deps rec = Some l -> In x l ->
  confirmed input = true ->
  exists e w', remove_addons string_ true input w = (Raised e, w').
Proof.
  intros st Hdefault Hwf Hplain Hx Hy Hl Hxl Hyes.
  assert (Hykey : In y (Dict.keys st)).
  { apply DictFacts.mem_keys, DictFacts.mem_get. eauto. }
  assert (Hne : Dict.keys st <> []).
  { intros E. rewrite E in Hx. contradiction. }
  destruct (plain_keys_roundtrip _ Hne Hplain) as [Hnonempty Hround].
  destruct (extend_dependents_ok st (Dict.keys st) [] Hwf)
    as (ds & Hds & Hspec).
  assert (Hyds : In y ds).
  { apply Hspec. right. exists x, rec, l. auto. }
  assert (Hlists : removal_lists string_ true w
                   = (Ok (Some (Dict.keys st, ds)), w)).
  { rewrite removal_lists_run. fold st. cbv zeta.
    assert (Hs : match string_ with
                 | Some EmptyString | None => Str.join "," (Dict.keys st)
                 | Some s => s
                 end = Str.join "," (Dict.keys st)).
    { destruct Hdefault as [-> | ->]; reflexivity. }
    rewrite Hs, Hnonempty, Hround, Hds. reflexivity. }
  apply in_split in Hykey. destruct Hykey as (l1 & l2 & Hkeys).
  unfold remove_addons, bind. rewrite Hlists, Hyes. cbn [negb].
  rewrite Hkeys, <- app_assoc. cbn [app].
  apply for_each_remove_repeated. apply in_or_app. now right.
Qed.

Lemma remove_all_with_dependency_raises_witness :
  exists e w',
    remove_addons None true "y" Scenario.sensors_installed = (Raised e, w').
Proof.
  apply (remove_all_with_dependency_raises None "y" "acme/drivers"
           "acme/sensors"
           {| hash := Some Scenario.sha_sensors;
              deps := Some ["acme/drivers"]; remote := None;
              remote_target := None |} ["acme/drivers"]
           Scenario.sensors_installed).
  - left. reflexivity.
  - apply records_have_deps_check. vm_compute. reflexivity.
  - vm_compute. repeat constructor; discriminate.
  - vm_compute. left. reflexivity.
  - vm_compute. reflexivity.
  - reflexivity.
  - left. reflexivity.
  - reflexivity.
Defined.

(** A key with a comma does not survive the default list: with such a key
    installed, the names [remove_addons] requests by default are more than
    the installed add-ons, so they are not the installed add-ons. *)
Theorem default_list_splits_comma_keys (rd : bool) (k : string)
  (addons ds : list string) (w w' : world) :
  In k (Dict.keys (stored_state w)) ->
  Str.count "," k <> 0 ->
  removal_lists None rd w = (Ok (Some (addons, ds)), w') ->
  length (Dict.keys (stored_state w)) < length addons.
Proof.
  intros Hin Hcomma. rewrite removal_lists_run. cbv zeta.
  destruct (String.eqb _ ""); [discriminate|].
  destruct (if rd then _ else _) as [ds0|e]; [|discriminate].
  intros [= <- _ _]. rewrite StrMore.length_split, StrMore.count_join.
  assert (Hsum : forall l, In k l ->
            1 <= list_sum (List.map (Str.count ",") l)).
  { induction l as [|a l IH]; [contradiction|].
    intros [-> | Hl]; simpl; [lia|]. specialize (IH Hl). lia. }
  specialize (Hsum _ Hin).
  destruct (Dict.keys (stored_state w)); simpl in *; lia.
Qed.

Lemma default_list_splits_comma_keys_witness :
  length (Dict.keys (stored_state Scenario.comma_world))
  < length ["acme/a"; "b"].
Proof.
  apply (default_list_splits_comma_keys false "acme/a,b" ["acme/a"; "b"] []
           Scenario.comma_world Scenario.comma_world);
    [left; reflexivity | discriminate | reflexivity].
Defined.

(** ** Dependency cycles *)

Section Cycles.

Variable server : string -> option repository.
Variable archive_host : string -> served.
Variable members : list (string * string).

Lemma cycle_installed_spec (w : world) :
  cycle_installed server members w = true <-> (cycle_kept server members) w.
Proof.
  unfold cycle_installed, cycle_kept. rewrite forallb_forall. split.
  - intros H p Hp. specialize (H p Hp).
    destruct (lookup_dir p w) as [d|]; [eauto | discriminate].
  - intros H p Hp. destruct (H p Hp) as (d & -> & Hd). exact Hd.
Qed.

Lemma keeps_cycle_core (d d' : addon_dir) :
  dir_core d' = dir_core d ->
  keeps_cycle server members d' = keeps_cycle server members d.
Proof.
  unfold dir_core, keeps_cycle. intros [= -> ->]. reflexivity.
Qed.

Lemma cyc_write_dir (p0 : string * string) (d0 d' : addon_dir) (w : world) :
  (cycle_kept server members) w -> lookup_dir p0 w = Some d0 ->
  (In p0 members -> keeps_cycle server members d' = true) ->
  (cycle_kept server members) (write_dir p0 d' w).
Proof.
  intros Hc H0 Hd' p Hp. rewrite (FsFacts.lookup_dir_write_dir _ _ _ _ _ H0).
  destruct (decide (p = p0)) as [->|Hne]; [eauto | apply Hc, Hp].
Qed.

Lemma cyc_ensured (p0 : string * string) (w : world) :
  (cycle_kept server members) w -> (cycle_kept server members) (if path_exists p0 w then w else makedirs p0 w).
Proof.
  intros Hc. destruct (path_exists p0 w) eqn:Hex; [exact Hc|].
  intros p Hp. rewrite FsFacts.lookup_dir_makedirs.
  destruct (decide (p = p0)) as [->|Hne]; [|apply Hc, Hp].
  destruct (Hc p0 Hp) as (d & Hd & _). unfold path_exists in Hex.
  rewrite Hd in Hex. discriminate.
Qed.

(** An upgrade leaves a member of the cycle as it is. *)
Lemma keeps_cycle_upgrade (d : addon_dir) (g : working_copy) :
  keeps_cycle server members d = true ->
  dot_git d = Some g ->
  let d1 := snd (git_fetch_all server d) in
  keeps_cycle server members
    (if String.eqb (sha (HEAD g)) (fst (git_rev_parse_origin_HEAD d1))
     then d1 else snd (git_reset_hard_origin_HEAD d1)) = true.
Proof.
  intros Hk Hg. cbv zeta. unfold keeps_cycle in Hk. rewrite Hg in Hk.
  apply andb_true_iff in Hk. destruct Hk as [Hsha Hdeps].
  assert (Hsame : forall c1 c2,
            fetched_head server
              {| origin := origin g; origin_branch := origin_branch g;
                 HEAD := c1; origin_HEAD := c2 |}
            = fetched_head server g) by reflexivity.
  unfold git_fetch_all, git_rev_parse_origin_HEAD. rewrite Hg.
  revert Hsha.
  destruct (fetched_head server g) as [cm|] eqn:Hs; cbn [fst snd dot_git];
    intros Hsha.
  - cbn [origin_HEAD]. rewrite Hsha. unfold keeps_cycle.
    cbn [dot_git HEAD file_dependencies]. rewrite Hsame, ?Hs, Hsha.
    exact Hdeps.
  - rewrite Hg, Hsha. unfold keeps_cycle. rewrite Hg, Hs, Hsha. exact Hdeps.
Qed.

Lemma cyc_clone_or_upgrade (url name : string) (p0 : string * string)
  (d : addon_dir) (w : world) :
  (cycle_kept server members) w -> lookup_dir p0 w = Some d ->
  (cycle_kept server members) (snd (clone_or_upgrade server url name p0 w)).
Proof.
  intros Hc Hd. rewrite (clone_or_upgrade_run _ _ _ _ _ _ Hd).
  destruct (dot_git d) as [g|] eqn:Hg.
  - cbv zeta. cbn [snd]. apply (cyc_write_dir _ _ _ _ Hc Hd).
    intros Hp. destruct (Hc _ Hp) as (d0 & Hd0 & Hk).
    rewrite Hd in Hd0. injection Hd0 as <-.
    apply (keeps_cycle_upgrade d g Hk Hg).
  - destruct (server url); [destruct (dir_empty d)|]; cbn [snd];
      [|exact Hc..].
    apply (cyc_write_dir _ _ _ _ Hc Hd).
    intros Hp. destruct (Hc _ Hp) as (d0 & Hd0 & Hk).
    rewrite Hd in Hd0. injection Hd0 as <-.
    unfold keeps_cycle in Hk. rewrite Hg in Hk. discriminate.
Qed.

(** A command that keeps the core of the directory keeps the cores of all
    directories. *)
Lemma run_core {A} (cmd : addon_dir -> A * addon_dir) (p : string * string)
  (w : world) :
  (forall d, dir_core (snd (cmd d)) = dir_core d) ->
  forall q, option_map dir_core (lookup_dir q (snd (run cmd p w)))
            = option_map dir_core (lookup_dir q w).
Proof.
  intros Hcmd q. unfold run.
  destruct (lookup_dir p w) as [d|] eqn:Hd; [|reflexivity].
  specialize (Hcmd d). destruct (cmd d) as [a d']. cbn [snd] in *.
  rewrite (FsFacts.lookup_dir_write_dir _ _ _ _ _ Hd).
  destruct (decide (q = p)) as [->|Hne]; [|reflexivity].
  rewrite Hd. simpl. now rewrite Hcmd.
Qed.

Lemma fetch_remote_data_core (name : string) (p : string * string)
  (w : world) :
  forall q,
    option_map dir_core
      (lookup_dir q (snd (fetch_remote_data archive_host name p w)))
    = option_map dir_core (lookup_dir q w).
Proof.
  intros q. unfold fetch_remote_data, bind, get_state, gets, ret, raise.
  cbv beta iota zeta.
  destruct (read_file_remote p w) as [[|line rest]|]; try reflexivity.
  destruct (Str.split " " (Str.strip line)) as [|remote_ [|target [|? ?]]];
    try reflexivity.
  destruct (Dict.get name (stored_state w)) as [rec|]; [|reflexivity].
  destruct (remote_is_new rec remote_ target); [|reflexivity].
  unfold run_wget, bind, modify. cbv beta iota.
  set (w0 := with_downloads (downloads w ++ [remote_]) w).
  change (lookup_dir q w) with (lookup_dir q w0). clearbody w0.
  pose proof (run_core (wget archive_host remote_) p w0 (fun d => eq_refl) q) as H1.
  destruct (run (wget archive_host remote_) p w0) as [[rc|e] w1];
    cbn [snd] in H1; [|exact H1].
  destruct (negb (Nat.eqb rc 0)); [exact H1|].
  rewrite <- H1.
  assert (Hunzip : forall w2,
            option_map dir_core (lookup_dir q w2)
            = option_map dir_core (lookup_dir q w1) ->
            option_map dir_core
              (lookup_dir q
                 (snd (let (o, w') := run (unzip archive_host remote_ target) p w2 in
                       match o with
                       | Ok _ =>
                           dump_state
                             (Dict.update name (set_remote_target target)
                                (Dict.update name (set_remote remote_)
                                   (stored_state w))) w'
                       | Raised e => (Raised e, w')
                       end)))
            = option_map dir_core (lookup_dir q w1)).
  { intros w2 H2.
    pose proof (run_core (unzip archive_host remote_ target) p w2 (fun d => eq_refl) q) as H3.
    destruct (run (unzip archive_host remote_ target) p w2) as [[[]|e] w3]; cbn [snd] in H3 |- *.
    - unfold dump_state, modify. cbn [snd].
      rewrite FsFacts.lookup_dir_with_state_file. congruence.
    - congruence. }
  destruct (target_exists p target w1).
  - pose proof (run_core (rm_r target) p w1 (fun d => eq_refl) q) as H2.
    destruct (run (rm_r target) p w1) as [[[]|e] w2]; cbn [snd] in H2 |- *;
      [|exact H2].
    apply Hunzip. exact H2.
  - apply Hunzip. reflexivity.
Qed.

Lemma cyc_core (w w' : world) :
  (forall q, option_map dir_core (lookup_dir q w')
             = option_map dir_core (lookup_dir q w)) ->
  (cycle_kept server members) w -> (cycle_kept server members) w'.
Proof.
  intros Hcore Hc p Hp. destruct (Hc p Hp) as (d & Hd & Hk).
  specialize (Hcore p). rewrite Hd in Hcore.
  destruct (lookup_dir p w') as [d'|]; [|discriminate].
  assert (Hc' : dir_core d' = dir_core d) by (simpl in Hcore; congruence).
  exists d'. split; [reflexivity|].
  rewrite (keeps_cycle_core d d' Hc'). exact Hk.
Qed.

Lemma cyc_prepare (url name : string) (p0 : string * string) (w : world) :
  (cycle_kept server members) w -> (cycle_kept server members) (snd (prepare server archive_host url name p0 w)).
Proof.
  intros Hc. rewrite prepare_run. cbv zeta.
  destruct (ensured_lookup p0 w) as (d & Hd & _ & _).
  pose proof (cyc_clone_or_upgrade url name p0 d _ (cyc_ensured p0 w Hc) Hd)
    as Hb.
  destruct (clone_or_upgrade _ _ _ _ _) as [[current|e] wb];
    cbn [snd] in Hb |- *; [|exact Hb].
  pose proof (cyc_core wb _ (fetch_remote_data_core name p0 wb) Hb) as Hcc.
  destruct (fetch_remote_data archive_host name p0 wb) as [[[]|e] wc]; exact Hcc.
Qed.

(** No install, returning or raising, breaks an installed cycle. *)
Lemma cyc_install_addon (fuel : nat) :
  forall name w,
    (cycle_kept server members) w -> (cycle_kept server members) (snd (install_addon server archive_host fuel name w)).
Proof.
  induction fuel as [|n IH]; intros name w Hc; [exact Hc|].
  destruct (_parse_name name) as [[[[url u] r] c]|e] eqn:Hp.
  2:{ cbn [install_addon]. unfold bind, lift. rewrite Hp. exact Hc. }
  rewrite (install_addon_S _ _ _ _ _ _ _ _ _ Hp).
  pose proof (cyc_prepare url c (u, r) w Hc) as Hprep.
  destruct (prepare server archive_host url c (u, r) w) as [[current|e] w1];
    cbn [snd] in Hprep; [|exact Hprep].
  cbv zeta.
  pose proof (extend_each_any (install_addon server archive_host n) (cycle_kept server members)
                (default [] (read_file_dependencies (u, r) w1)) [c] w1
                (fun x v Hv => IH x v Hv) Hprep) as Hloop.
  destruct (extend_each _ _ _ w1) as [[res|e] w2]; cbn [snd] in Hloop |- *;
    exact Hloop.
Qed.

(** A loop that reaches a call that cannot return does not return. *)
Lemma extend_each_blocked (f : string -> M (list string))
  (Q : world -> Prop) (dep : string) (l acc : list string) (w : world) :
  In dep l ->
  (forall x v, Q v -> Q (snd (f x v))) ->
  (forall v, Q v -> exists e v', f dep v = (Raised e, v')) ->
  Q w ->
  exists e w', extend_each f l acc w = (Raised e, w').
Proof.
  intros Hin Hkeep Hblock. revert acc w Hin.
  induction l as [|x l IH]; intros acc w Hin HQ; [contradiction|].
  cbn [extend_each]. unfold bind.
  pose proof (Hkeep x w HQ) as Hx.
  destruct (f x w) as [[r0|e] w1] eqn:Hfx; [|eauto].
  destruct Hin as [-> | Hin].
  - destruct (Hblock w HQ) as (e & v' & He). congruence.
  - apply IH; [exact Hin | exact Hx].
Qed.


End Cycles.


(** ** What the returned list names *)

Lemma installs_never_less (server : string -> option repository)
  (archive_host : string -> served) (n : nat) (l : list string) (w w' : world)
  (rs : list (list string)) :
  installs (install_addon server archive_host n) l w rs w' -> never_less w w'.
Proof.
  induction 1 as [w|d ds w r w1 rs w2 Hd Hds IH].
  - apply never_less_refl.
  - eapply never_less_trans; [|exact IH].
    pose proof (install_addon_never_less server archive_host n d w) as H.
    rewrite Hd in H. exact H.
Qed.

(** Every name in the list a call of [install_addon] returns is a key of
    the state the call leaves: the add-on itself and everything installed
    for it have their records. *)
Theorem install_addon_returns_recorded (server : string -> option repository)
  (archive_host : string -> served) (fuel : nat) :
  forall (name : string) (w w' : world) (ret_ : list string),
    install_addon server archive_host fuel name w = (Ok ret_, w') ->
    forall x, In x ret_ -> Dict.mem x (stored_state w') = true.
Proof.
  induction fuel as [|n IH]; intros name w w' ret_ Hrun; [discriminate|].
  destruct (install_addon_parse _ _ _ _ _ _ _ Hrun)
    as (n0 & url & u & r & c & _ & Hp).
  rewrite (install_addon_S _ _ _ _ _ _ _ _ _ Hp) in Hrun.
  destruct (prepare server archive_host url c (u, r) w)
    as [[current|e] w1]; [|discriminate].
  cbv zeta in Hrun.
  destruct (extend_each (install_addon server archive_host n) _ [c] w1)
    as [[res|e] w2] eqn:Hloop; [|discriminate].
  apply extend_each_ok in Hloop. destruct Hloop as (rs & Hrs & ->).
  injection Hrun as <- <-.
  assert (Hdeps : forall x, In x (concat rs) ->
                            Dict.mem x (stored_state w2) = true).
  { clear Hp. induction Hrs as [v|d ds v r0 v1 rs v2 Hd Hds IHrs].
    - intros x [].
    - intros x Hx. cbn [concat] in Hx. apply in_app_or in Hx.
      destruct Hx as [Hx | Hx]; [|apply IHrs; exact Hx].
      apply (installs_never_less _ _ _ _ _ _ _ Hds).
      apply (IH _ _ _ _ Hd). exact Hx. }
  intros x Hx. cbn [stored_state with_state_file state_file snd].
  rewrite mem_saved_state. destruct Hx as [<- | Hx].
  - rewrite String.eqb_refl. reflexivity.
  - rewrite (Hdeps x Hx). apply orb_true_r.
Qed.

Lemma install_addon_returns_recorded_witness :
  Dict.mem "acme/sensors" (stored_state Scenario.sensors_installed) = true
  /\ Dict.mem "acme/drivers" (stored_state Scenario.sensors_installed) = true.
Proof.
  assert (Hrun : install_addon Scenario.hub Scenario.any_archive 2
                   "acme/sensors" Scenario.fresh
                 = (Ok ["acme/sensors"; "acme/drivers"],
                    Scenario.sensors_installed))
    by (vm_compute; reflexivity).
  split;
    apply (install_addon_returns_recorded Scenario.hub Scenario.any_archive
             2 "acme/sensors" Scenario.fresh Scenario.sensors_installed
             ["acme/sensors"; "acme/drivers"] Hrun);
    [left | right; left]; reflexivity.
Defined.

(** ** Removing a list of installed add-ons *)

Lemma parse_owner_repo (u r : string) :
  Str.count "/" u = 0 -> Str.count "/" r = 0 ->
  exists url, _parse_name (u +:+ "/" +:+ r)
              = Ok (url, u, r, u +:+ "/" +:+ r).
Proof.
  intros Hu Hr. unfold _parse_name.
  set (url := if Str.startswith "http" (u +:+ "/" +:+ r)
              then u +:+ "/" +:+ r else URL_GITHUB +:+ (u +:+ "/" +:+ r)).
  exists url.
  assert (Hurl : url = u +:+ "/" +:+ r
                 \/ exists p, url = p +:+ String "/" (u +:+ "/" +:+ r)).
  { subst url. destruct (Str.startswith "http" _); [left; reflexivity|].
    right. exists "https://github.com". reflexivity. }
  pose proof (parse_tail url u r Hu Hr Hurl) as H.
  destruct (Str.re_search_last_two url) as [g|]; [|contradiction].
  rewrite H. reflexivity.
Qed.

(** A key of the state that is an 'owner/repo' name. *)
Lemma for_each_remove_installed (l : list string) :
  forall w,
    consistent w -> List.NoDup l ->
    (forall y, In y l ->
       Dict.mem y (stored_state w) = true
       /\ exists u r, y = u +:+ "/" +:+ r
                      /\ dir_name u = true /\ dir_name r = true) ->
    exists w',
      for_each remove_addon l w = (Ok tt, w')
      /\ consistent w'
      /\ (forall y, In y l -> Dict.mem y (stored_state w') = false)
      /\ (forall k, ~ In k l ->
            Dict.get k (stored_state w') = Dict.get k (stored_state w)).
Proof.
  induction l as [|x l IH]; intros w Hc Hnd Hall.
  - exists w. split; [reflexivity|]. split; [exact Hc|].
    split; [intros y [] | reflexivity].
  - inversion Hnd as [|? ? Hx Hnd']; subst.
    destruct (Hall x (or_introl eq_refl)) as (Hmem & u & r & -> & Hu & Hr).
    destruct (parse_owner_repo u r (dir_name_slash_free _ Hu)
                (dir_name_slash_free _ Hr)) as [url Hp].
    assert (Hex : path_exists (u, r) w = true) by (apply (Hc u r Hu Hr), Hmem).
    assert (Htidy : tidy_name (u +:+ "/" +:+ r) = true).
    { unfold tidy_name. rewrite Hp, Hu, Hr. reflexivity. }
    pose proof (remove_addon_consistent (u +:+ "/" +:+ r) w Htidy Hc) as Hc1.
    cbn [for_each]. unfold bind.
    rewrite (remove_addon_run _ _ _ _ _ _ Hp), Hex, Hmem in Hc1 |- *.
    cbn [negb] in Hc1 |- *. cbv zeta in Hc1 |- *. cbn [snd] in Hc1.
    match goal with
    | |- context [for_each remove_addon l ?v] => set (w1 := v) in *
    end.
    assert (Hst1 : stored_state w1
                   = Dict.del (u +:+ "/" +:+ r) (stored_state w))
      by reflexivity.
    destruct (IH w1 Hc1 Hnd') as (w' & Hrun & Hc' & Hgone & Hkeep).
    { intros y Hy. destruct (Hall y (or_intror Hy)) as (Hm & Hform).
      split; [|exact Hform]. rewrite Hst1, DictFacts.mem_del, Hm.
      assert (Hne : String.eqb y (u +:+ "/" +:+ r) = false).
      { apply String.eqb_neq. intros ->. contradiction. }
      rewrite Hne. reflexivity. }
    exists w'. split; [exact Hrun|]. split; [exact Hc'|]. split.
    + intros y [<- | Hy]; [|apply Hgone, Hy].
      unfold Dict.mem. rewrite (Hkeep _ Hx), Hst1, DictFacts.get_del_eq.
      reflexivity.
    + intros k Hk. rewrite Hkeep by (intros Hin; apply Hk; now right).
      rewrite Hst1. apply DictFacts.get_del_ne.
      intros ->. apply Hk. now left.
Qed.

(** Confirmed, over a list without repetition of installed 'owner/repo'
    names whose owner and repo are directory names, in a world whose state
    file and install root agree, [remove_addons] returns; every add-on of
    the list is then gone from the state and from the install root, and
    the other records are as before. *)
Theorem remove_addons_removes_all (string_ : option string) (rd : bool)
  (input : string) (addons ds : list string) (w : world) :
  consistent w ->
  removal_lists string_ rd w = (Ok (Some (addons, ds)), w) ->
  confirmed input = true ->
  List.NoDup (addons ++ ds) ->
  (forall y, In y (addons ++ ds) ->
     Dict.mem y (stored_state w) = true
     /\ exists u r, y = u +:+ "/" +:+ r
                    /\ dir_name u = true /\ dir_name r = true) ->
  exists w',
    remove_addons string_ rd input w = (Ok tt, w')
    /\ consistent w'
    /\ (forall y, In y (addons ++ ds) ->
          Dict.mem y (stored_state w') = false)
    /\ (forall u r, In (u +:+ "/" +:+ r) (addons ++ ds) ->
          dir_name u = true -> dir_name r = true ->
          path_exists (u, r) w' = false)
    /\ (forall k, ~ In k (addons ++ ds) ->
          Dict.get k (stored_state w') = Dict.get k (stored_state w)).
Proof.
  intros Hc Hlists Hyes Hnd Hall. unfold remove_addons, bind.
  rewrite Hlists, Hyes. cbn [negb].
  destruct (for_each_remove_installed _ w Hc Hnd Hall)
    as (w' & Hrun & Hc' & Hgone & Hkeep).
  exists w'. split; [exact Hrun|]. split; [exact Hc'|].
  split; [exact Hgone|]. split; [|exact Hkeep].
  intros u r Hin Hu Hr. specialize (Hgone _ Hin).
  destruct (path_exists (u, r) w') eqn:Hex; [|reflexivity].
  apply (Hc' u r Hu Hr) in Hex. congruence.
Qed.

Lemma remove_addons_removes_all_witness :
  exists w',
    remove_addons (Some "acme/sensors") true "yes" Scenario.sensors_installed
    = (Ok tt, w')
    /\ consistent w'
    /\ (forall y, In y (["acme/sensors"] ++ []) ->
          Dict.mem y (stored_state w') = false)
    /\ (forall u r, In (u +:+ "/" +:+ r) (["acme/sensors"] ++ []) ->
          dir_name u = true -> dir_name r = true ->
          path_exists (u, r) w' = false)
    /\ (forall k, ~ In k (["acme/sensors"] ++ []) ->
          Dict.get k (stored_state w')
          = Dict.get k (stored_state Scenario.sensors_installed)).
Proof.
  apply (remove_addons_removes_all (Some "acme/sensors") true "yes"
           ["acme/sensors"] [] Scenario.sensors_installed).
  - exact sensors_installed_consistent.
  - vm_compute. reflexivity.
  - reflexivity.
  - repeat constructor. intros [].
  - intros y [<- | []]. split; [vm_compute; reflexivity|].
    exists "acme", "sensors". repeat split; reflexivity.
Defined.
